(** * rag-translator: a shallow embedding of the translation pipeline core

    The Go sources are embedded package by package:
    - [GoLib]: the parts of the Go standard library the code calls
      ([strings], [unicode/utf8], [unicode], [crypto/sha256], [encoding/hex],
      [fmt.Sprintf] with a [%d] verb), by their documented behaviour;
    - [textutil], [interpolation], [worker], [cache], [parser],
      [translation], [seed]: the repository's own packages.

    Go strings are byte sequences; they are modelled as [list ascii].
    Go [int] values are modelled as [Z] where a negative value can occur and
    as [nat] where the code only ever holds an index or a length. *)

From Stdlib Require Import ZArith List Ascii String Lia Bool DecimalString Permutation.
From Stdlib Require Import SpecFloat Sorted.
From stdpp Require Import gmap strings list fin_maps.
From Equations Require Import Equations.
Import ListNotations.
Local Open Scope Z_scope.

(** A Go string is a sequence of bytes. *)
Abbreviation gostring := (list ascii).

(** String literals of the source, as byte sequences. *)
Definition str (s : string) : gostring := list_ascii_of_string s.

(** The numeric value of a byte. *)
Definition byte_val (c : ascii) : Z := Z.of_nat (nat_of_ascii c).

(* ================================================================== *)
(** * The Go standard library, as far as the code uses it              *)
(* ================================================================== *)

Module GoLib.

(** ** Byte-string equality and prefixes *)

Definition str_eqb (a b : gostring) : bool := bool_decide (a = b).

(** [strings.HasPrefix(s, p)]. *)
Fixpoint HasPrefix (s p : gostring) {struct p} : bool :=
  match p, s with
  | [], _ => true
  | _ :: _, [] => false
  | x :: p', y :: s' => bool_decide (x = y) && HasPrefix s' p'
  end.

(** [strings.HasSuffix(s, p)]. *)
Definition HasSuffix (s p : gostring) : bool := HasPrefix (rev s) (rev p).

(** [strings.Index(s, sub)]: the byte offset of the first occurrence of
    [sub] in [s], [None] for Go's [-1]. *)
Fixpoint Index (s sub : gostring) : option nat :=
  if HasPrefix s sub then Some 0%nat
  else match s with
       | [] => None
       | _ :: s' => option_map S (Index s' sub)
       end.

(** [strings.Contains(s, sub)]. *)
Definition Contains (s sub : gostring) : bool :=
  match Index s sub with Some _ => true | None => false end.

(** [strings.Replace(s, old, new, 1)]: the first occurrence of [old] is
    replaced; an empty [old] matches at the beginning of [s]. *)
Fixpoint Replace1 (s old new : gostring) : gostring :=
  if HasPrefix s old then new ++ skipn (length old) s
  else match s with
       | [] => []
       | c :: s' => c :: Replace1 s' old new
       end.

(** [strings.Count(s, "\t")] and friends: occurrences of a single byte. *)
Definition CountByte (s : gostring) (c : ascii) : Z :=
  Z.of_nat (length (filter (fun x => x = c) s)).

(** [strings.Split(s, sep)] for a one-byte separator: always at least one
    field. *)
Fixpoint SplitByte (s : gostring) (sep : ascii) : list gostring :=
  match s with
  | [] => [[]]
  | c :: s' =>
      if bool_decide (c = sep) then [] :: SplitByte s' sep
      else match SplitByte s' sep with
           | [] => [[c]]
           | f :: fs => (c :: f) :: fs
           end
  end.

(** [strings.SplitN(s, sep, 2)] for a one-byte separator: cut at the first
    separator, if any. *)
Fixpoint SplitN2 (s : gostring) (sep : ascii) : list gostring :=
  match s with
  | [] => [[]]
  | c :: s' =>
      if bool_decide (c = sep) then [[]; s']
      else match SplitN2 s' sep with
           | f :: fs => (c :: f) :: fs
           | [] => [[c]]
           end
  end.

(** [strings.Join(parts, sep)]. *)
Fixpoint Join (parts : list gostring) (sep : gostring) : gostring :=
  match parts with
  | [] => []
  | [p] => p
  | p :: ps => p ++ sep ++ Join ps sep
  end.

(** [strings.ReplaceAll(s, old, new)] for a one-byte [old]. *)
Definition ReplaceAllByte (s : gostring) (old : ascii) (new : gostring) : gostring :=
  flat_map (fun c => if bool_decide (c = old) then new else [c]) s.

(** [strings.Split(s, sep)] for a non-empty separator: the pieces between the
    successive leftmost occurrences of [sep]. [skip] counts the bytes of an
    occurrence still to be passed over and [piece] holds the current piece,
    last byte first. *)
Fixpoint split_from (s sep : gostring) (skip : nat) (piece : gostring) : list gostring :=
  match s with
  | [] => [rev piece]
  | c :: s' =>
      match skip with
      | S k => split_from s' sep k piece
      | O =>
          if HasPrefix s sep
          then rev piece :: split_from s' sep (length sep - 1) []
          else split_from s' sep 0 (c :: piece)
      end
  end.

Definition Split (s sep : gostring) : list gostring := split_from s sep 0 [].

(** ** [bufio.Scanner] with [bufio.ScanLines]

    The lines of [content]: cut at line feeds, one trailing carriage return
    dropped from each, a last line without line feed included when it is not
    empty. A line that does not fit, with its line feed, into a buffer of
    [max] bytes stops the scan with [bufio.ErrTooLong]; the flag reports
    that. [line] holds the current line, last byte first, and [n] its
    length. *)
Definition dropCR (line : gostring) : gostring :=
  match rev line with
  | c :: rest => if bool_decide (c = ascii_of_nat 13) then rev rest else line
  | [] => line
  end.

Fixpoint scan_from (max : Z) (content : gostring) (line : gostring) (n : Z)
  : list gostring * bool :=
  match content with
  | [] =>
      match line with
      | [] => ([], false)
      | _ :: _ => if n <? max then ([dropCR (rev line)], false) else ([], true)
      end
  | c :: content' =>
      if bool_decide (c = ascii_of_nat 10) then
        if n + 1 <=? max then
          let '(lines, tooLong) := scan_from max content' [] 0 in
          (dropCR (rev line) :: lines, tooLong)
        else ([], true)
      else scan_from max content' (c :: line) (n + 1)
  end.

Definition ScanLines (max : Z) (content : gostring) : list gostring * bool :=
  scan_from max content [] 0.

(** ** [unicode/utf8]: decoding, as [utf8.DecodeRuneInString] and the
    [range] loop over a string do it *)

Definition RuneError : Z := 0xFFFD.

(** What the first byte of an encoding announces ([first] and
    [acceptRanges] of [utf8.go]): a one-byte rune, an invalid byte, or a
    lead byte with the size of the encoding and the range the second byte
    must lie in. *)
Inductive lead_class :=
| LeadASCII
| LeadInvalid
| Lead (size : nat) (lo hi : Z).

Definition classify (b0 : Z) : lead_class :=
  if b0 <? 0x80 then LeadASCII
  else if b0 <? 0xC2 then LeadInvalid
  else if b0 <? 0xE0 then Lead 2 0x80 0xBF
  else if b0 =? 0xE0 then Lead 3 0xA0 0xBF
  else if b0 =? 0xED then Lead 3 0x80 0x9F
  else if b0 <? 0xF0 then Lead 3 0x80 0xBF
  else if b0 =? 0xF0 then Lead 4 0x90 0xBF
  else if b0 <? 0xF4 then Lead 4 0x80 0xBF
  else if b0 =? 0xF4 then Lead 4 0x80 0x8F
  else LeadInvalid.

Definition in_range (lo hi b : Z) : bool := (lo <=? b) && (b <=? hi).
Definition is_cont (b : Z) : bool := in_range 0x80 0xBF b.

(** [utf8.DecodeRuneInString], for a non-empty string: the first rune and
    its width in bytes. An invalid or truncated encoding yields [RuneError]
    of width one. *)
Definition DecodeRune (s : gostring) : Z * nat :=
  match s with
  | [] => (RuneError, 0%nat)
  | c0 :: t1 =>
      let b0 := byte_val c0 in
      match classify b0 with
      | LeadASCII => (b0, 1%nat)
      | LeadInvalid => (RuneError, 1%nat)
      | Lead size lo hi =>
          match t1 with
          | c1 :: t2 =>
              let b1 := byte_val c1 in
              if negb (in_range lo hi b1) then (RuneError, 1%nat)
              else if (size <=? 2)%nat then
                (Z.lor (Z.shiftl (Z.land b0 0x1F) 6) (Z.land b1 0x3F), 2%nat)
              else
                match t2 with
                | c2 :: t3 =>
                    let b2 := byte_val c2 in
                    if negb (is_cont b2) then (RuneError, 1%nat)
                    else if (size <=? 3)%nat then
                      (Z.lor (Z.shiftl (Z.land b0 0x0F) 12)
                         (Z.lor (Z.shiftl (Z.land b1 0x3F) 6) (Z.land b2 0x3F)),
                       3%nat)
                    else
                      match t3 with
                      | c3 :: _ =>
                          let b3 := byte_val c3 in
                          if negb (is_cont b3) then (RuneError, 1%nat)
                          else
                            (Z.lor (Z.shiftl (Z.land b0 0x07) 18)
                               (Z.lor (Z.shiftl (Z.land b1 0x3F) 12)
                                  (Z.lor (Z.shiftl (Z.land b2 0x3F) 6)
                                     (Z.land b3 0x3F))),
                             4%nat)
                      | [] => (RuneError, 1%nat)
                      end
                | [] => (RuneError, 1%nat)
                end
          | [] => (RuneError, 1%nat)
          end
      end
  end.

(** The decoded runes of a string, each with the bytes it was decoded from. *)
Fixpoint decode (s : gostring) : list (Z * gostring) :=
  match s with
  | [] => []
  | c0 :: t1 =>
      let '(r, size) := DecodeRune (c0 :: t1) in
      match size, t1 with
      | 2%nat, c1 :: t2 => (r, [c0; c1]) :: decode t2
      | 3%nat, c1 :: c2 :: t3 => (r, [c0; c1; c2]) :: decode t3
      | 4%nat, c1 :: c2 :: c3 :: t4 => (r, [c0; c1; c2; c3]) :: decode t4
      | _, _ => (r, [c0]) :: decode t1
      end
  end.

(** [for _, r := range s]: the runes of [s] in order. *)
Definition runes (s : gostring) : list Z := map fst (decode s).

(** [utf8.RuneCountInString]. *)
Definition RuneCountInString (s : gostring) : Z := Z.of_nat (length (runes s)).

(** ** [unicode] *)

Definition in_ranges (tbl : list (Z * Z)) (r : Z) : bool :=
  existsb (fun '(lo, hi) => in_range lo hi r) tbl.

(** [unicode.Han], the range table of the Han script. The table belongs to
    the Go library, not to the repository; the ranges below are those of the
    library's tables for Unicode 15.0. A library built for another version of
    Unicode has a table that differs at its edges (Extension I and later
    additions are not here; the ideographs in common use, U+4E00 to U+9FFF
    and Extension A, are in every version). It is a larger set than the
    blocks named CJK Unified Ideographs: the radicals, U+3005, U+3007 and
    the compatibility ideographs are of the script too. *)
Definition Han : list (Z * Z) :=
  [ (0x2E80, 0x2E99); (0x2E9B, 0x2EF3); (0x2F00, 0x2FD5); (0x3005, 0x3005);
    (0x3007, 0x3007); (0x3021, 0x3029); (0x3038, 0x303B); (0x3400, 0x4DBF);
    (0x4E00, 0x9FFF); (0xF900, 0xFA6D); (0xFA70, 0xFAD9);
    (0x16FE2, 0x16FE3); (0x16FF0, 0x16FF1); (0x20000, 0x2A6DF);
    (0x2A700, 0x2B739); (0x2B740, 0x2B81D); (0x2B820, 0x2CEA1);
    (0x2CEB0, 0x2EBE0); (0x2F800, 0x2FA1D); (0x30000, 0x3134A);
    (0x31350, 0x323AF) ].

(** [unicode.IsSpace]: the code points with the White_Space property. *)
Definition White_Space : list (Z * Z) :=
  [ (0x09, 0x0D); (0x20, 0x20); (0x85, 0x85); (0xA0, 0xA0); (0x1680, 0x1680);
    (0x2000, 0x200A); (0x2028, 0x2029); (0x202F, 0x202F); (0x205F, 0x205F);
    (0x3000, 0x3000) ].

Definition IsSpace (r : Z) : bool := in_ranges White_Space r.

(** ** [strings.TrimSpace]: leading and trailing white space runes removed *)

Fixpoint drop_spaces (rs : list (Z * gostring)) : list (Z * gostring) :=
  match rs with
  | (r, bs) :: rs' => if IsSpace r then drop_spaces rs' else rs
  | [] => []
  end.

Definition TrimSpace (s : gostring) : gostring :=
  concat (map snd (rev (drop_spaces (rev (drop_spaces (decode s)))))).

(** ** [utf8.AppendRune]: the encoding of a rune that is not negative

    A surrogate and a rune beyond U+10FFFF are encoded as [RuneError]. *)
Definition byte_of (b : Z) : ascii := ascii_of_nat (Z.to_nat b).

Definition EncodeRune (r : Z) : gostring :=
  if r <=? 0x7F then [byte_of r]
  else if r <=? 0x7FF then
    [byte_of (Z.lor 0xC0 (Z.shiftr r 6)); byte_of (Z.lor 0x80 (Z.land r 0x3F))]
  else
    let r := if (0x10FFFF <? r) || ((0xD800 <=? r) && (r <=? 0xDFFF))
             then RuneError else r in
    if r <=? 0xFFFF then
      [byte_of (Z.lor 0xE0 (Z.shiftr r 12));
       byte_of (Z.lor 0x80 (Z.land (Z.shiftr r 6) 0x3F));
       byte_of (Z.lor 0x80 (Z.land r 0x3F))]
    else
      [byte_of (Z.lor 0xF0 (Z.shiftr r 18));
       byte_of (Z.lor 0x80 (Z.land (Z.shiftr r 12) 0x3F));
       byte_of (Z.lor 0x80 (Z.land (Z.shiftr r 6) 0x3F));
       byte_of (Z.lor 0x80 (Z.land r 0x3F))].

(** ** [strings.Map]

    The second loop of [Map]: every rune of the rest is mapped and written;
    a negative result drops the rune. A byte that is no valid encoding is
    read as [RuneError], and what is written for it is the mapping of
    [RuneError]. *)
Definition map_rune (mapping : Z -> Z) (c : Z) : gostring :=
  let r := mapping c in
  if 0 <=? r then EncodeRune r else [].

Definition map_rest (mapping : Z -> Z) (rs : list (Z * gostring)) : gostring :=
  flat_map (fun '(c, _) => map_rune mapping c) rs.

(** The first loop of [Map]: the runes are passed over, their bytes kept, up
    to the first one that the mapping changes or that is an invalid byte;
    [None] when there is none and the string is returned as it is. *)
Fixpoint map_first (mapping : Z -> Z) (rs : list (Z * gostring)) : option gostring :=
  match rs with
  | [] => None
  | (c, bytes) :: rs' =>
      let r := mapping c in
      if (r =? c) && (negb (c =? RuneError) || negb (length bytes =? 1)%nat)
      then option_map (app bytes) (map_first mapping rs')
      else Some (map_rune mapping c ++ map_rest mapping rs')
  end.

Definition Map (mapping : Z -> Z) (s : gostring) : gostring :=
  default s (map_first mapping (decode s)).

(** ** [strings.ToLower]

    A string of ASCII bytes is lowered byte by byte. Any other string goes
    through [Map] with [unicode.ToLower]; that function reads the case tables
    of the Go library, which are not part of the repository, and is the
    parameter [toLower] here: what is proved of [ToLower] holds whatever the
    tables say. *)
Definition lower_byte (c : ascii) : ascii :=
  let b := byte_val c in
  if in_range 65 90 b then ascii_of_nat (Z.to_nat (b + 32)) else c.

Definition ToLower (toLower : Z -> Z) (s : gostring) : gostring :=
  let isASCII := forallb (fun c => byte_val c <? 0x80) s in
  let hasUpper := existsb (fun c => in_range 65 90 (byte_val c)) s in
  if isASCII then (if negb hasUpper then s else map lower_byte s)
  else Map toLower s.

(** ** [fmt.Sprintf] with the verb [%d]: the decimal digits of an [int] *)
Definition itoa (n : Z) : gostring :=
  if n <? 0 then "-"%char :: str (NilEmpty.string_of_uint (N.to_uint (Z.to_N (- n))))
  else str (NilEmpty.string_of_uint (N.to_uint (Z.to_N n))).

(** ** Slices [s[lo:hi]] and [s[lo:]] of a string, for [0 <= lo <= hi <= len(s)]
    (Go panics outside that range; the code never leaves it). *)
Definition slice {A} (s : list A) (lo hi : Z) : list A :=
  firstn (Z.to_nat hi - Z.to_nat lo) (skipn (Z.to_nat lo) s).

Definition slice_from {A} (s : list A) (lo : Z) : list A := skipn (Z.to_nat lo) s.

(** ** [float64] arithmetic (IEEE 754 binary64, round to nearest even) *)

Definition float64 := spec_float.

(** The conversion [float64(n)] of an integer. *)
Definition float64_of_int (n : Z) : float64 := binary_normalize 53 1024 n 0 false.

(** The constant [0.6]: the binary64 number nearest to 3/5. *)
Definition float64_0_6 : float64 := S754_finite false 5404319552844595 (-53).

Definition float64_div (x y : float64) : float64 := SFdiv 53 1024 x y.

(** [x > y]. *)
Definition float64_gt (x y : float64) : bool := SFltb y x.

(** ** [encoding/hex.EncodeToString] *)

Definition hex_digit (n : Z) : ascii :=
  ascii_of_nat (Z.to_nat (if n <? 10 then 48 + n else 87 + n)).

Definition hex_encode (bs : list Z) : gostring :=
  flat_map (fun b => [hex_digit (b / 16); hex_digit (b mod 16)]) bs.

(** ** [crypto/sha256.Sum256] (FIPS 180-4), on 32-bit words held in [Z] *)

Module SHA256.

Definition w32 (x : Z) : Z := x mod 2 ^ 32.
Definition add32 (x y : Z) : Z := w32 (x + y).
Definition rotr (n x : Z) : Z := Z.lor (Z.shiftr x n) (w32 (Z.shiftl x (32 - n))).
Definition xor3 (x y z : Z) : Z := Z.lxor x (Z.lxor y z).

Definition Ch (x y z : Z) : Z := Z.lxor (Z.land x y) (Z.land (w32 (Z.lnot x)) z).
Definition Maj (x y z : Z) : Z := xor3 (Z.land x y) (Z.land x z) (Z.land y z).
Definition Sigma0 (x : Z) : Z := xor3 (rotr 2 x) (rotr 13 x) (rotr 22 x).
Definition Sigma1 (x : Z) : Z := xor3 (rotr 6 x) (rotr 11 x) (rotr 25 x).
Definition sigma0 (x : Z) : Z := xor3 (rotr 7 x) (rotr 18 x) (Z.shiftr x 3).
Definition sigma1 (x : Z) : Z := xor3 (rotr 17 x) (rotr 19 x) (Z.shiftr x 10).

(** The first primes, by trial division. *)
Definition is_prime (p : nat) : bool :=
  (1 <? p)%nat && forallb (fun d => negb (p mod d =? 0)%nat) (seq 2 (p - 2)).

Definition primes_below (n : nat) : list Z :=
  map Z.of_nat (filter (fun p => is_prime p = true) (seq 0 n)).

(** The largest [r] below [2 ^ bits] with [r ^ 3 <= n], bit by bit. *)
Fixpoint cube_root (bits : nat) (n r : Z) : Z :=
  match bits with
  | O => r
  | S b =>
      let r' := r + 2 ^ Z.of_nat b in
      cube_root b n (if r' * r' * r' <=? n then r' else r)
  end.

(** The round constants: "the first thirty-two bits of the fractional parts
    of the cube roots of the first sixty-four prime numbers". *)
Definition K : list Z :=
  map (fun p => w32 (cube_root 36 (p * 2 ^ 96) 0)) (primes_below 312).

(** The initial hash value: the same of the square roots of the first eight
    prime numbers. *)
Definition H0 : list Z :=
  map (fun p => w32 (Z.sqrt (p * 2 ^ 64))) (primes_below 20).

(** Big-endian bytes of an [n]-byte quantity. *)
Fixpoint be_bytes (n : nat) (x : Z) : list Z :=
  match n with
  | O => []
  | S n' => (x / 256 ^ Z.of_nat n') mod 256 :: be_bytes n' x
  end.

(** The message followed by the bit 1, zero bits and the 64-bit length, a
    whole number of 64-byte blocks. *)
Definition pad (msg : list Z) : list Z :=
  let len := Z.of_nat (length msg) in
  let zeros := Z.to_nat ((55 - len) mod 64) in
  msg ++ [0x80] ++ repeat 0 zeros ++ be_bytes 8 (8 * len).

Fixpoint words (bs : list Z) : list Z :=
  match bs with
  | a :: b :: c :: d :: bs' => (((a * 256 + b) * 256 + c) * 256 + d) :: words bs'
  | _ => []
  end.

(** The message schedule, newest word first. *)
Fixpoint extend (n : nat) (w : list Z) : list Z :=
  match n with
  | O => w
  | S n' =>
      extend n'
        (add32 (add32 (sigma1 (nth 1 w 0)) (nth 6 w 0))
               (add32 (sigma0 (nth 14 w 0)) (nth 15 w 0)) :: w)
  end.

Definition schedule (block : list Z) : list Z := rev (extend 48 (rev block)).

Definition round (s : list Z) (kw : Z * Z) : list Z :=
  match s with
  | [a; b; c; d; e; f; g; h] =>
      let t1 := add32 (add32 (add32 h (Sigma1 e)) (add32 (Ch e f g) (fst kw))) (snd kw) in
      let t2 := add32 (Sigma0 a) (Maj a b c) in
      [add32 t1 t2; a; b; c; add32 d t1; e; f; g]
  | _ => s
  end.

Definition compress (h : list Z) (block : list Z) : list Z :=
  let s := fold_left round (combine K (schedule block)) h in
  map (fun '(x, y) => add32 x y) (combine h s).

Fixpoint blocks (n : nat) (ws : list Z) : list (list Z) :=
  match n with
  | O => []
  | S n' => firstn 16 ws :: blocks n' (skipn 16 ws)
  end.

Definition Sum256 (msg : list Z) : list Z :=
  let ws := words (pad msg) in
  let h := fold_left compress (blocks (length ws / 16) ws) H0 in
  flat_map (be_bytes 4) h.

End SHA256.

End GoLib.

(* ================================================================== *)
(** * internal/textutil                                                *)
(* ================================================================== *)

Module textutil.
Import GoLib.

(** [ContainsChinese]: some rune of [s] is in the Han script. *)
Definition ContainsChinese (s : gostring) : bool :=
  existsb (in_ranges Han) (runes s).

(** [Hash]: the SHA-256 digest of the bytes of [s], in lower-case hex. *)
Definition Hash (s : gostring) : gostring :=
  hex_encode (SHA256.Sum256 (map byte_val s)).

(** A digest is computed on demand only. *)
Global Arguments Hash : simpl never.

(** [Truncate] shortens a string to [maxLen] bytes, appending [...] if
    truncated. [None] stands for the panic of the slice expression
    [s[:maxLen]] when [maxLen] is negative. *)
Definition Truncate (s : gostring) (maxLen : Z) : option gostring :=
  if Z.of_nat (length s) <=? maxLen then Some s
  else if maxLen <? 0 then None
  else Some (slice s 0 maxLen ++ str "...").

End textutil.

(* ================================================================== *)
(** * internal/interpolation                                           *)
(* ================================================================== *)

Module interpolation.
Import GoLib.

(** [Mapping] stores the original placeholder and its safe replacement. *)
Record Mapping := mkMapping {
  Original : gostring;
  Placeholder : gostring;
  Index : Z
}.

(** [varMatch] stores a detected interpolation variable position. *)
Record varMatch := mkVarMatch {
  start : Z;
  end_ : Z;
  value : gostring
}.

(** ** The four patterns

    Each regular expression of [patterns] is given as the function that
    decides whether it matches at the beginning of a string and, if so, how
    many bytes the match spans. None of the four can match in more than one
    way at a given position: every starred class is followed by a byte that
    is outside the class, so the greedy run is the only one that can
    succeed. *)

Definition is_digit (c : ascii) : bool := in_range 48 57 (byte_val c).
Definition is_alpha_ (c : ascii) : bool :=
  let b := byte_val c in in_range 97 122 b || in_range 65 90 b || (b =? 95).
Definition is_alnum_ (c : ascii) : bool := is_alpha_ c || is_digit c.
Definition is_flag (c : ascii) : bool :=
  let b := byte_val c in (b =? 45) || (b =? 43) || is_digit c.
Definition is_verb (c : ascii) : bool :=
  existsb (fun v => bool_decide (v = c)) (str "dsfieEgGxXoubcpq").

(** The longest prefix of bytes in a class, and what follows it. *)
Fixpoint span (f : ascii -> bool) (s : gostring) : gostring * gostring :=
  match s with
  | c :: s' => if f c then let (run, rest) := span f s' in (c :: run, rest)
               else ([], s)
  | [] => ([], [])
  end.

(** [\$\{[a-zA-Z_][a-zA-Z0-9_]*\}] *)
Definition pat_dollar (s : gostring) : option nat :=
  match s with
  | "$"%char :: "{"%char :: c :: t =>
      if is_alpha_ c then
        let (run, rest) := span is_alnum_ t in
        match rest with
        | "}"%char :: _ => Some (4 + length run)%nat
        | _ => None
        end
      else None
  | _ => None
  end.

(** [\{[0-9]+\}] *)
Definition pat_index (s : gostring) : option nat :=
  match s with
  | "{"%char :: t =>
      let (run, rest) := span is_digit t in
      match run, rest with
      | _ :: _, "}"%char :: _ => Some (2 + length run)%nat
      | _, _ => None
      end
  | _ => None
  end.

(** [%[-+0-9]*\.?[0-9]*[dsfieEgGxXoubcpq]] *)
Definition pat_format (s : gostring) : option nat :=
  match s with
  | "%"%char :: t =>
      let (flags, t1) := span is_flag t in
      let (dot, t2) := match t1 with
                       | "."%char :: t' => (1%nat, t')
                       | _ => (0%nat, t1)
                       end in
      let (prec, t3) := span is_digit t2 in
      match t3 with
      | c :: _ => if is_verb c then Some (2 + length flags + dot + length prec)%nat
                  else None
      | [] => None
      end
  | _ => None
  end.

(** [%%] *)
Definition pat_percent (s : gostring) : option nat :=
  match s with
  | "%"%char :: "%"%char :: _ => Some 2%nat
  | _ => None
  end.

Definition patterns : list (gostring -> option nat) :=
  [pat_dollar; pat_index; pat_format; pat_percent].

(** [p.FindAllStringIndex(text, -1)]: the successive leftmost matches of
    [p], none overlapping the one before. [pos] is the offset of [s] in the
    text and [skip] the number of bytes still covered by the last match. *)
Fixpoint find_all (p : gostring -> option nat) (s : gostring) (pos : Z) (skip : nat)
  : list (Z * Z) :=
  match s with
  | [] => []
  | _ :: s' =>
      match skip with
      | S k => find_all p s' (pos + 1) k
      | O =>
          match p s with
          | Some len => (pos, pos + Z.of_nat len) :: find_all p s' (pos + 1) (len - 1)
          | None => find_all p s' (pos + 1) 0
          end
      end
  end.

Definition FindAllStringIndex (p : gostring -> option nat) (text : gostring) : list (Z * Z) :=
  find_all p text 0 0.

(** ** [sortVarMatches]: insertion sort by start, longer match first *)

(** The inner loop's test: [m], already placed, has to move right of [key]. *)
Definition moves (m key : varMatch) : bool :=
  (start key <? start m) ||
  ((start m =? start key) && (end_ m - start m <? end_ key - start key)).

(** The sorted prefix is held last element first, the order in which the
    inner loop visits it. *)
Fixpoint insert_back (key : varMatch) (prefix_rev : list varMatch) : list varMatch :=
  match prefix_rev with
  | [] => [key]
  | m :: rest => if moves m key then m :: insert_back key rest
                 else key :: prefix_rev
  end.

Definition sortVarMatches (matches : list varMatch) : list varMatch :=
  rev (fold_left (fun prefix_rev key => insert_back key prefix_rev) matches []).

(** ** [Protect] *)

(** "Remove overlapping matches (keep the first/longest)." *)
Fixpoint remove_overlaps (ms : list varMatch) (lastEnd : Z) : list varMatch :=
  match ms with
  | [] => []
  | m :: ms' =>
      if lastEnd <=? start m then m :: remove_overlaps ms' (end_ m)
      else remove_overlaps ms' lastEnd
  end.

Definition placeholder_of (i : Z) : gostring := str "{{var_" ++ itoa i ++ str "}}".

(** One turn of the replacement loop, for the match [m] at index [i]. *)
Definition replace_step (im : Z * varMatch) (acc : gostring * list Mapping)
  : gostring * list Mapping :=
  let '(i, m) := im in
  let '(result, mappings) := acc in
  let placeholder := placeholder_of (i + 1) in
  (slice result 0 (start m) ++ placeholder ++ slice_from result (end_ m),
   mkMapping (value m) placeholder (i + 1) :: mappings).

(** The matches with their indices [0, 1, ...]. *)
Fixpoint indexed (i : Z) (ms : list varMatch) : list (Z * varMatch) :=
  match ms with
  | [] => []
  | m :: ms' => (i, m) :: indexed (i + 1) ms'
  end.

Definition all_matches (text : gostring) : list varMatch :=
  flat_map (fun p => map (fun loc => mkVarMatch (fst loc) (snd loc)
                                       (slice text (fst loc) (snd loc)))
                         (FindAllStringIndex p text))
           patterns.

(** The loop runs from the last match to the first: [fold_right] applies the
    step of the last element first. *)
Definition Protect (text : gostring) : gostring * list Mapping :=
  let allMatches := all_matches text in
  match allMatches with
  | [] => (text, [])
  | _ :: _ =>
      let filtered := remove_overlaps (sortVarMatches allMatches) (-1) in
      fold_right replace_step (text, []) (indexed 0 filtered)
  end.

(** ** [Restore] *)
Definition Restore (translated : gostring) (mappings : list Mapping) : gostring :=
  fold_left (fun result m => Replace1 result (Placeholder m) (Original m))
            mappings translated.

End interpolation.

(* ================================================================== *)
(** * internal/worker                                                  *)
(* ================================================================== *)

Module worker.
Import GoLib.

(** The loop of [Batch], from index [i] on:
    [for ; i < len(items); i += batchSize]. [Batch] enters it with a positive
    [batchSize]; the test [0 < batchSize] records that, and with it every turn
    brings [i] closer to [len(items)]. *)
Equations? Batch_from {T} (items : list T) (batchSize : Z) (i : Z) : list (list T)
  by wf (Z.to_nat (Z.of_nat (length items) - i)) lt :=
  Batch_from items batchSize i
    with decide (0 < batchSize /\ i < Z.of_nat (length items)) := {
    | left _ =>
        let end_ := if Z.of_nat (length items) <? i + batchSize
                    then Z.of_nat (length items) else i + batchSize in
        slice items i end_ :: Batch_from items batchSize (i + batchSize);
    | right _ => [] }.
Proof. lia. Qed.

(** [Batch] splits inputs into batches. *)
Definition Batch {T} (items : list T) (batchSize : Z) : list (list T) :=
  let batchSize := if batchSize <=? 0 then 1 else batchSize in
  Batch_from items batchSize 0.

End worker.

(* ================================================================== *)
(** * internal/cache                                                   *)
(* ================================================================== *)

Module cache.
Import GoLib.

(** A row of the table [translation_cache], keyed by its [hash] column. *)
Record row := mkRow {
  row_source : gostring;
  row_translated : gostring
}.

(** [TranslationCache]: the in-memory tier ([hash -> translated]) and the
    durable tier behind [queries]. The lock only serialises accesses; the
    model runs one call at a time. *)
Record TranslationCache := mkCache {
  memory : gmap gostring gostring;
  durable : gmap gostring row
}.

(** [NewTranslationCache], over a given state of the table. *)
Definition NewTranslationCache (table : gmap gostring row) : TranslationCache :=
  mkCache ∅ table.

(** The outcome of one round-trip to the database: it goes through, or the
    driver reports an error (connection lost, context cancelled, ...). *)
Inductive db_status := DbOk | DbFails.

Inductive error :=
| ErrNoRows
| ErrDatabase
| ErrCacheSet (cause : error).

(** [GetCachedTranslation]:
    [SELECT translated FROM translation_cache WHERE hash = $1]. *)
Definition GetCachedTranslation (st : db_status) (table : gmap gostring row)
  (hash : gostring) : gostring + error :=
  match st with
  | DbFails => inr ErrDatabase
  | DbOk => match table !! hash with
            | Some r => inl (row_translated r)
            | None => inr ErrNoRows
            end
  end.

(** [UpsertCachedTranslation]: [INSERT ... ON CONFLICT (hash) DO UPDATE SET
    translated = EXCLUDED.translated]. A failed statement leaves the table as
    it was. *)
Definition UpsertCachedTranslation (st : db_status) (table : gmap gostring row)
  (hash source translated : gostring) : gmap gostring row * option error :=
  match st with
  | DbFails => (table, Some ErrDatabase)
  | DbOk =>
      match table !! hash with
      | Some r => (<[hash := mkRow (row_source r) translated]> table, None)
      | None => (<[hash := mkRow source translated]> table, None)
      end
  end.

(** [Get] retrieves a cached translation: the pair Go returns, and the cache
    afterwards. *)
Definition Get (st : db_status) (c : TranslationCache) (sourceText : gostring)
  : (gostring * bool) * TranslationCache :=
  let hash := textutil.Hash sourceText in
  match memory c !! hash with
  | Some v => ((v, true), c)
  | None =>
      match GetCachedTranslation st (durable c) hash with
      | inr _ => (([], false), c)
      | inl translated =>
          ((translated, true), mkCache (<[hash := translated]> (memory c)) (durable c))
      end
  end.

(** [Set] stores a translation in both tiers: the error Go returns ([None]
    for [nil]), and the cache afterwards. *)
Definition Set_ (st : db_status) (c : TranslationCache) (sourceText translated : gostring)
  : option error * TranslationCache :=
  let hash := textutil.Hash sourceText in
  let memory' := <[hash := translated]> (memory c) in
  match UpsertCachedTranslation st (durable c) hash sourceText translated with
  | (table', Some err) => (Some (ErrCacheSet err), mkCache memory' table')
  | (table', None) => (None, mkCache memory' table')
  end.

(** [SetBatch] stores multiple translations: a [Set] for each pair, in the
    order [visit] in which the loop meets the pairs of the map, up to the
    first error. [st k] is the outcome of the database round-trip of turn
    [k]. *)
Fixpoint SetBatch_from (st : nat -> db_status) (k : nat)
  (visit : list (gostring * gostring)) (c : TranslationCache)
  : option error * TranslationCache :=
  match visit with
  | [] => (None, c)
  | (source, translated) :: visit' =>
      match Set_ (st k) c source translated with
      | (Some err, c') => (Some err, c')
      | (None, c') => SetBatch_from st (S k) visit' c'
      end
  end.

Definition SetBatch_in (st : nat -> db_status) (visit : list (gostring * gostring))
  (c : TranslationCache) : option error * TranslationCache :=
  SetBatch_from st 0 visit c.

(** [ListAllCachedTranslations]:
    [SELECT hash, translated FROM translation_cache]. The rows come in no
    promised order; [hash] is the primary key, so no hash comes twice. *)
Definition ListAllCachedTranslations (st : db_status) (table : gmap gostring row)
  : list (gostring * gostring) + error :=
  match st with
  | DbFails => inr ErrDatabase
  | DbOk => inl (map (fun '(hash, r) => (hash, row_translated r)) (map_to_list table))
  end.

Inductive preload_error := ErrPreload (cause : error).

(** [Preload] loads all cached translations into memory. *)
Definition Preload (st : db_status) (c : TranslationCache)
  : option preload_error * TranslationCache :=
  match ListAllCachedTranslations st (durable c) with
  | inr err => (Some (ErrPreload err), c)
  | inl rows =>
      (None,
       mkCache (fold_left (fun memory '(hash, translated) => <[hash := translated]> memory)
                          rows (memory c))
               (durable c))
  end.

End cache.
(* ================================================================== *)
(** * internal/parser                                                  *)
(* ================================================================== *)

Module parser.
Import GoLib.

(** [ExtractedText] represents a translatable string extracted from a game
    file. *)
Record ExtractedText := mkExtractedText {
  Text : gostring;
  File : gostring;
  Line : Z;
  Column : Z;
  Context : gmap gostring gostring
}.

(** [ParseResult] holds parsing output for a single file. *)
Record ParseResult := mkParseResult {
  FilePath : gostring;
  FileType : gostring;
  Texts : list ExtractedText;
  RawLines : list gostring
}.

Definition tab : ascii := ascii_of_nat 9.
Definition newline : gostring := [ascii_of_nat 10].

(** [lines[idx]] for an index inside the slice; the empty string stands for
    the panic outside, which no caller reaches. *)
Definition line_at (lines : list gostring) (idx : Z) : gostring :=
  default [] (lines !! Z.to_nat idx).

(** ** txt.go: the TXT parser with TSV detection *)

(** One turn of the sampling loop of [detectTSV]. *)
Definition sample_line (acc : gmap Z Z * Z) (line : gostring) : gmap Z Z * Z :=
  let '(tabCounts, nonEmptyLines) := acc in
  if str_eqb (TrimSpace line) [] then acc
  else
    let count := CountByte line tab in
    (if 0 <? count
     then <[count := default 0 (tabCounts !! count) + 1]> tabCounts
     else tabCounts,
     nonEmptyLines + 1).

(** "Find the most common tab count": the largest value of the map. *)
Definition max_value (tabCounts : gmap Z Z) : Z :=
  map_fold (fun _ c maxCount => if maxCount <? c then c else maxCount) 0 tabCounts.

(** [detectTSV] checks if the file has consistent tab-separated columns. *)
Definition detectTSV (lines : list gostring) : bool :=
  if (length lines <? 2)%nat then false
  else
    let '(tabCounts, nonEmptyLines) := fold_left sample_line (firstn 20 lines) (∅, 0) in
    if nonEmptyLines =? 0 then false
    else
      let maxCount := max_value tabCounts in
      float64_gt (float64_div (float64_of_int maxCount) (float64_of_int nonEmptyLines))
                 float64_0_6.

(** [isTranslatableColumn] determines if a TSV column contains human-readable
    text that should be translated. *)
Definition isTranslatableColumn (col : gostring) : bool :=
  if str_eqb col [] || negb (textutil.ContainsChinese col) then false
  else
    let hasNonASCII := existsb (fun r => 127 <? r) (runes col) in
    if negb hasNonASCII then false
    else 2 <=? RuneCountInString col.

(** The elements of a slice with their indices, as [range] yields them. *)
Fixpoint enumerate {A} (i : Z) (l : list A) : list (Z * A) :=
  match l with
  | [] => []
  | x :: l' => (i, x) :: enumerate (i + 1) l'
  end.

(** The body of the inner loop of [parseTSV]: what column [colIdx] of the row
    [cols] on line [lineNum] (counted from 0) appends to [Texts]. *)
Definition tsv_column (filePath : gostring) (lineNum : Z) (cols : list gostring)
  (colIdx : Z) (col : gostring) : list ExtractedText :=
  if negb (isTranslatableColumn col) then []
  else
    let ctx : gmap gostring gostring :=
      <[str "format" := str "tsv"]> (<[str "file" := filePath]> ∅) in
    let ctx :=
      if (0 <? Z.of_nat (length cols)) && (0 <? colIdx)
      then <[str "id" := line_at cols 0]> ctx
      else ctx in
    [mkExtractedText col filePath (lineNum + 1) colIdx ctx].

Definition tsv_line (filePath : gostring) (lineNum : Z) (line : gostring)
  : list ExtractedText :=
  if str_eqb (TrimSpace line) [] then []
  else
    let cols := SplitByte line tab in
    flat_map (fun '(colIdx, col) => tsv_column filePath lineNum cols colIdx col)
             (enumerate 0 cols).

(** [parseTSV]: the texts are appended to those [result] holds. *)
Definition parseTSV (result : ParseResult) (filePath : gostring) : ParseResult :=
  mkParseResult (FilePath result) (FileType result)
    (Texts result ++
     flat_map (fun '(lineNum, line) => tsv_line filePath lineNum line)
              (enumerate 0 (RawLines result)))
    (RawLines result).

Definition plain_line (filePath : gostring) (lineNum : Z) (line : gostring)
  : list ExtractedText :=
  let trimmed := TrimSpace line in
  if str_eqb trimmed [] || negb (textutil.ContainsChinese trimmed) then []
  else
    let ctx : gmap gostring gostring :=
      <[str "format" := str "txt"]> (<[str "file" := filePath]> ∅) in
    [mkExtractedText trimmed filePath (lineNum + 1) (-1) ctx].

(** [parsePlainText]. *)
Definition parsePlainText (result : ParseResult) (filePath : gostring) : ParseResult :=
  mkParseResult (FilePath result) (FileType result)
    (Texts result ++
     flat_map (fun '(lineNum, line) => plain_line filePath lineNum line)
              (enumerate 0 (RawLines result)))
    (RawLines result).

(** [TXTParser.Parse], from the lines the scanner read from the file. *)
Definition TXTParser_Parse (filePath : gostring) (rawLines : list gostring) : ParseResult :=
  let isTSV := detectTSV rawLines in
  if isTSV then parseTSV (mkParseResult filePath (str "tsv") [] rawLines) filePath
  else parsePlainText (mkParseResult filePath (str "txt") [] rawLines) filePath.

(** The bytes every reconstructor returns:
    [strings.Join(lines, "\n") + "\n"]. *)
Definition join_lines (lines : list gostring) : gostring :=
  Join lines newline ++ newline.

(** One turn of the loop of [reconstructTSV]. *)
Definition reconstructTSV_step (translations : gmap gostring gostring)
  (lines : list gostring) (et : ExtractedText) : list gostring :=
  let idx := Line et - 1 in
  if (idx <? 0) || (Z.of_nat (length lines) <=? idx) then lines
  else
    match translations !! Text et with
    | None => lines
    | Some translated =>
        let cols := SplitByte (line_at lines idx) tab in
        let cols :=
          if (0 <=? Column et) && (Column et <? Z.of_nat (length cols))
          then <[Z.to_nat (Column et) := translated]> cols
          else cols in
        <[Z.to_nat idx := Join cols [tab]]> lines
    end.

Definition reconstructTSV (lines : list gostring) (result : ParseResult)
  (translations : gmap gostring gostring) : gostring :=
  join_lines (fold_left (reconstructTSV_step translations) (Texts result) lines).

(** One turn of the loop of [reconstructPlainText]. *)
Definition reconstructPlainText_step (translations : gmap gostring gostring)
  (lines : list gostring) (et : ExtractedText) : list gostring :=
  let idx := Line et - 1 in
  if (idx <? 0) || (Z.of_nat (length lines) <=? idx) then lines
  else
    match translations !! Text et with
    | None => lines
    | Some translated =>
        let original := line_at lines idx in
        let trimmed := TrimSpace original in
        <[Z.to_nat idx := Replace1 original trimmed translated]> lines
    end.

Definition reconstructPlainText (lines : list gostring) (result : ParseResult)
  (translations : gmap gostring gostring) : gostring :=
  join_lines (fold_left (reconstructPlainText_step translations) (Texts result) lines).

(** [TXTParser.Reconstruct]. The error result is always [nil] and is left
    out. *)
Definition TXTParser_Reconstruct (result : ParseResult)
  (translations : gmap gostring gostring) : gostring :=
  let lines := RawLines result in
  if str_eqb (FileType result) (str "tsv")
  then reconstructTSV lines result translations
  else reconstructPlainText lines result translations.

(** ** txt.go, second file: the Lua reconstructor *)

(** "Group by line number": [lineReplacements]. *)
Definition group_by_line (texts : list ExtractedText) : gmap Z (list ExtractedText) :=
  fold_left (fun m et => <[Line et := default [] (m !! Line et) ++ [et]]> m) texts ∅.

(** The inner loop: the texts of one line, replaced one after the other. *)
Definition replace_texts (translations : gmap gostring gostring)
  (line : gostring) (texts : list ExtractedText) : gostring :=
  fold_left (fun line et =>
               match translations !! Text et with
               | Some translated => Replace1 line (Text et) translated
               | None => line
               end) texts line.

(** One turn of the outer loop, for the entry [(lineNum, texts)]. *)
Definition lua_line_step (translations : gmap gostring gostring)
  (lines : list gostring) (entry : Z * list ExtractedText) : list gostring :=
  let '(lineNum, texts) := entry in
  let idx := lineNum - 1 in
  if (idx <? 0) || (Z.of_nat (length lines) <=? idx) then lines
  else <[Z.to_nat idx := replace_texts translations (line_at lines idx) texts]> lines.

(** Go leaves the order in which [range] visits a map unspecified: a loop
    over the map [m] runs its body over some sequence [visit] that holds
    every entry once. *)
Definition range_order {K V} `{Countable K} (m : gmap K V) (visit : list (K * V)) : Prop :=
  visit ≡ₚ map_to_list m.

(** [LuaParser.Reconstruct], with the entries of [lineReplacements] in the
    order [visit] in which the loop meets them. *)
Definition LuaParser_Reconstruct_in (visit : list (Z * list ExtractedText))
  (result : ParseResult) (translations : gmap gostring gostring) : gostring :=
  join_lines (fold_left (lua_line_step translations) visit (RawLines result)).

(** ** The INI reconstructor *)

(** "Preserve leading whitespace after =": the blanks and tabs [afterEq]
    starts with. *)
Fixpoint leading_blanks (afterEq : gostring) : gostring :=
  match afterEq with
  | ch :: rest =>
      if bool_decide (ch = " "%char) || bool_decide (ch = tab)
      then ch :: leading_blanks rest
      else []
  | [] => []
  end.

(** One turn of the loop of [INIParser.Reconstruct]. *)
Definition ini_step (translations : gmap gostring gostring)
  (lines : list gostring) (et : ExtractedText) : list gostring :=
  let idx := Line et - 1 in
  if (idx <? 0) || (Z.of_nat (length lines) <=? idx) then lines
  else
    match translations !! Text et with
    | None => lines
    | Some translated =>
        let line := line_at lines idx in
        match GoLib.Index line (str "=") with
        | None => lines
        | Some eqIdx =>
            let afterEq := slice_from line (Z.of_nat eqIdx + 1) in
            let leadingSpaces := leading_blanks afterEq in
            <[Z.to_nat idx :=
                slice line 0 (Z.of_nat eqIdx + 1) ++ leadingSpaces ++ translated]> lines
        end
    end.

(** [INIParser.Reconstruct]. *)
Definition INIParser_Reconstruct (result : ParseResult)
  (translations : gmap gostring gostring) : gostring :=
  join_lines (fold_left (ini_step translations) (Texts result) (RawLines result)).

(** ** The INI parser *)

(** One turn of the loop of [INIParser.Parse], for the line with number
    [lineNum] (counted from 1): the section in force afterwards, and the text
    the line contributes, if any. *)
Definition ini_line (filePath : gostring) (currentSection : gostring) (lineNum : Z)
  (line : gostring) : gostring * list ExtractedText :=
  let trimmed := TrimSpace line in
  if str_eqb trimmed [] || HasPrefix trimmed (str ";") || HasPrefix trimmed (str "#")
  then (currentSection, [])
  else if HasPrefix trimmed (str "[") && HasSuffix trimmed (str "]")
  then (slice trimmed 1 (Z.of_nat (length trimmed) - 1), [])
  else
    match GoLib.Index trimmed (str "=") with
    | None => (currentSection, [])
    | Some eqIdx =>
        let value := TrimSpace (slice_from trimmed (Z.of_nat eqIdx + 1)) in
        if str_eqb value [] || negb (textutil.ContainsChinese value)
        then (currentSection, [])
        else
          let key := TrimSpace (slice trimmed 0 (Z.of_nat eqIdx)) in
          let ctx : gmap gostring gostring :=
            <[str "key" := key]>
              (<[str "section" := currentSection]> (<[str "file" := filePath]> ∅)) in
          (currentSection, [mkExtractedText value filePath lineNum (-1) ctx])
    end.

Fixpoint ini_lines (filePath : gostring) (currentSection : gostring) (lineNum : Z)
  (lines : list gostring) : list ExtractedText :=
  match lines with
  | [] => []
  | line :: lines' =>
      let '(section, texts) := ini_line filePath currentSection (lineNum + 1) line in
      texts ++ ini_lines filePath section (lineNum + 1) lines'
  end.

(** [INIParser.Parse], from the lines the scanner read from the file. *)
Definition INIParser_Parse (filePath : gostring) (rawLines : list gostring) : ParseResult :=
  mkParseResult filePath (str "ini") (ini_lines filePath [] 0 rawLines) rawLines.

(** ** Parsing a file

    [Parse] of the TXT and of the INI parser from the bytes of the file;
    [None] when the scanner gives up on a line that does not fit its buffer
    (4 MiB for TXT, 1 MiB for INI). *)
Definition TXTParser_Parse_file (filePath content : gostring) : option ParseResult :=
  let '(rawLines, tooLong) := ScanLines (4 * 1024 * 1024) content in
  if tooLong then None else Some (TXTParser_Parse filePath rawLines).

Definition INIParser_Parse_file (filePath content : gostring) : option ParseResult :=
  let '(rawLines, tooLong) := ScanLines (1024 * 1024) content in
  if tooLong then None else Some (INIParser_Parse filePath rawLines).

(** The three implementations of the [Parser] interface. *)
Inductive Parser := LuaParser | INIParser | TXTParser.

(** [p.Reconstruct(result, translations)]; [visit] is the order of the map
    loop of the Lua reconstructor and plays no part in the other two. *)
Definition Reconstruct (p : Parser) (visit : list (Z * list ExtractedText))
  (result : ParseResult) (translations : gmap gostring gostring) : gostring :=
  match p with
  | LuaParser => LuaParser_Reconstruct_in visit result translations
  | INIParser => INIParser_Reconstruct result translations
  | TXTParser => TXTParser_Reconstruct result translations
  end.

End parser.

(* ================================================================== *)
(** * internal/translation                                             *)
(* ================================================================== *)

Module translation.
Import GoLib.

(** What the body of a 200 response decodes to. *)
Inductive body :=
| BodyMalformed                      (* json.Unmarshal fails *)
| BodyError                          (* the [error] member is set *)
| BodyEmpty                          (* no content *)
| BodyText (text : gostring).        (* the concatenated text parts *)

(** What one HTTP exchange comes to, as [doRequest] sees it. *)
Inductive exchange :=
| RequestNotCreated                  (* http.NewRequestWithContext fails *)
| TransportFailure                   (* httpClient.Do fails: timeout, refused, cancelled *)
| ReadFailure                        (* io.ReadAll fails *)
| Response (StatusCode : Z) (b : body).

(** The errors of [doRequest], by the message they are built with. *)
Inductive request_error :=
| ErrCreateRequest
| ErrAPICall
| ErrReadResponse
| ErrRetryable (status : Z)          (* "retryable error (status %d): %s" *)
| ErrAPIStatus (status : Z)          (* "API error (status %d): %s" *)
| ErrUnmarshal
| ErrAPI
| ErrEmptyResponse.

Definition StatusTooManyRequests : Z := 429.
Definition StatusOK : Z := 200.

(** [doRequest], from the exchange with the server. *)
Definition doRequest (x : exchange) : gostring + request_error :=
  match x with
  | RequestNotCreated => inr ErrCreateRequest
  | TransportFailure => inr ErrAPICall
  | ReadFailure => inr ErrReadResponse
  | Response StatusCode b =>
      if (StatusCode =? StatusTooManyRequests) || (500 <=? StatusCode)
      then inr (ErrRetryable StatusCode)
      else if negb (StatusCode =? StatusOK) then inr (ErrAPIStatus StatusCode)
      else match b with
           | BodyMalformed => inr ErrUnmarshal
           | BodyError => inr ErrAPI
           | BodyEmpty => inr ErrEmptyResponse
           | BodyText text => inl (TrimSpace text)
           end
  end.

(** What the surroundings decide during attempt number [attempt]: whether the
    context is done before the backoff timer fires, how the exchange goes,
    and whether the context is done once the request has failed. *)
Record attempt_env := mkAttemptEnv {
  done_during_backoff : bool;
  exchanged : exchange;
  done_after_request : bool
}.

(** What [Translate] does that can be observed from outside. *)
Inductive event :=
| Backoff (seconds : Z)              (* the timer of [time.After] fired *)
| BackoffAborted (seconds : Z)       (* the context was done first *)
| Request (attempt : Z).             (* a call of [doRequest] *)

Inductive translate_error :=
| ErrContext                         (* ctx.Err() *)
| ErrFailedAfter (maxRetries : Z) (lastErr : option request_error).

Definition maxRetries : Z := 3.

(** The loop [for attempt := 0; attempt < maxRetries; attempt++], with
    [remaining] turns to go. *)
Fixpoint translate_loop (env : Z -> attempt_env) (remaining : nat) (attempt : Z)
  (lastErr : option request_error) : (gostring + translate_error) * list event :=
  match remaining with
  | O => (inr (ErrFailedAfter maxRetries lastErr), [])
  | S remaining' =>
      let e := env attempt in
      let backoff := attempt * 2 in
      if (0 <? attempt) && done_during_backoff e
      then (inr ErrContext, [BackoffAborted backoff])
      else
        let waited := if 0 <? attempt then [Backoff backoff] else [] in
        match doRequest (exchanged e) with
        | inl result => (inl result, waited ++ [Request attempt])
        | inr err =>
            if done_after_request e
            then (inr ErrContext, waited ++ [Request attempt])
            else
              let '(r, events) :=
                translate_loop env remaining' (attempt + 1) (Some err) in
              (r, waited ++ [Request attempt] ++ events)
        end
  end.

(** [OpusClient.Translate]: its result and what it did, in order. The
    marshalling of the request body cannot fail for the two strings it is
    given. *)
Definition Translate (env : Z -> attempt_env) : (gostring + translate_error) * list event :=
  translate_loop env (Z.to_nat maxRetries) 0 None.

(** The user prompt of [TranslateBatch]: two lines of instructions, then the
    texts, numbered from one. *)
Fixpoint numbered (i : Z) (texts : list gostring) : gostring :=
  match texts with
  | [] => []
  | t :: texts' =>
      str "[" ++ itoa (i + 1) ++ str "] " ++ t ++ [ascii_of_nat 10] ++ numbered (i + 1) texts'
  end.

Definition batch_prompt (texts : list gostring) : gostring :=
  str "Translate each of the following texts. Return ONLY the translations, one per line, in the same order."
  ++ [ascii_of_nat 10]
  ++ str "Use ||| as a delimiter between translations."
  ++ [ascii_of_nat 10; ascii_of_nat 10]
  ++ numbered 0 texts.

(** The loop that fills [results]: the trimmed part at the same index, or the
    text itself when the response has no part for it. *)
Fixpoint batch_results (parts : list gostring) (i : nat) (texts : list gostring)
  : list gostring :=
  match texts with
  | [] => []
  | t :: texts' =>
      (match parts !! i with
       | Some part => TrimSpace part
       | None => t
       end) :: batch_results parts (S i) texts'
  end.

(** [OpusClient.TranslateBatch]. [env] tells, for the prompt that is sent,
    how the attempts go. *)
Definition TranslateBatch (env : gostring -> Z -> attempt_env) (texts : list gostring)
  : (list gostring + translate_error) * list event :=
  match texts with
  | [] => (inl [], [])
  | _ :: _ =>
      match Translate (env (batch_prompt texts)) with
      | (inr err, events) => (inr err, events)
      | (inl response, events) =>
          let parts := Split response (str "|||") in
          (inl (batch_results parts 0 texts), events)
      end
  end.

End translation.
(* ================================================================== *)
(** * internal/rag: the embedding client                               *)
(* ================================================================== *)

Module rag.
Import GoLib.

(** A [[]float32]. *)
Definition vector := list spec_float.

(** What one HTTP exchange with the embedding service comes to, as [Embed]
    sees it. The body of a response decodes to its list of embeddings, each
    with its [values] ([None] for an absent member, which Go leaves [nil]),
    or fails to decode. *)
Inductive embed_exchange :=
| EmbedRequestNotCreated
| EmbedTransportFailure
| EmbedReadFailure
| EmbedResponse (StatusCode : Z) (embeddings : option (list (option vector))).

(** The errors of [Embed], by the message they are built with. *)
Inductive embed_error :=
| ErrCreateEmbeddingRequest
| ErrEmbeddingAPICall
| ErrReadEmbeddingResponse
| ErrEmbeddingAPIStatus (status : Z)
| ErrUnmarshalEmbedding.

(** One turn of the loop that copies the response into [results]. *)
Definition place (results : list (option vector)) (entry : Z * option vector)
  : list (option vector) :=
  let '(i, values) := entry in
  if i <? Z.of_nat (length results) then <[Z.to_nat i := values]> results else results.

(** [Embed] generates embeddings for a batch of texts. The request body
    always marshals. *)
Definition Embed (x : embed_exchange) (texts : list gostring)
  : list (option vector) + embed_error :=
  match texts with
  | [] => inl []
  | _ :: _ =>
      match x with
      | EmbedRequestNotCreated => inr ErrCreateEmbeddingRequest
      | EmbedTransportFailure => inr ErrEmbeddingAPICall
      | EmbedReadFailure => inr ErrReadEmbeddingResponse
      | EmbedResponse StatusCode body =>
          if negb (StatusCode =? 200) then inr (ErrEmbeddingAPIStatus StatusCode)
          else match body with
               | None => inr ErrUnmarshalEmbedding
               | Some embeddings =>
                   inl (fold_left place (parser.enumerate 0 embeddings)
                                  (replicate (length texts) None))
               end
      end
  end.

(** "embed batch [%d:%d]: %w". *)
Inductive batch_error := ErrEmbedBatch (i end_ : Z) (cause : embed_error).

(** The loop of [EmbedBatch], from index [i] on, with [allEmbeddings] as
    gathered so far; [reply i] is how the exchange for the batch that starts
    at [i] goes. *)
Equations? EmbedBatch_from (reply : Z -> embed_exchange) (texts : list gostring)
  (batchSize : Z) (i : Z) (allEmbeddings : list (option vector))
  : list (option vector) + batch_error
  by wf (Z.to_nat (Z.of_nat (length texts) - i)) lt :=
  EmbedBatch_from reply texts batchSize i allEmbeddings
    with decide (0 < batchSize /\ i < Z.of_nat (length texts)) := {
    | left _ =>
        let end_ := if Z.of_nat (length texts) <? i + batchSize
                    then Z.of_nat (length texts) else i + batchSize in
        match Embed (reply i) (slice texts i end_) with
        | inr err => inr (ErrEmbedBatch i end_ err)
        | inl embeddings =>
            EmbedBatch_from reply texts batchSize (i + batchSize)
                            (allEmbeddings ++ embeddings)
        end;
    | right _ => inl allEmbeddings }.
Proof. lia. Qed.

(** [EmbedBatch] processes texts in batches, respecting API limits. *)
Definition EmbedBatch (reply : Z -> embed_exchange) (texts : list gostring)
  (batchSize : Z) : list (option vector) + batch_error :=
  let batchSize := if batchSize <=? 0 then 100 else batchSize in
  let batchSize := if 100 <? batchSize then 100 else batchSize in
  EmbedBatch_from reply texts batchSize 0 [].

Inductive query_error :=
| ErrQueryEmbedding (cause : embed_error)
| ErrNoEmbedding.

(** [EmbedQuery] generates an embedding for a search query. *)
Definition EmbedQuery (x : embed_exchange) (text : gostring) : vector + query_error :=
  match Embed x [text] with
  | inr err => inr (ErrQueryEmbedding err)
  | inl results =>
      match results with
      | Some values :: _ => inl values
      | _ => inr ErrNoEmbedding
      end
  end.

End rag.

(* ================================================================== *)
(** * internal/seed                                                    *)
(* ================================================================== *)

Module seed.
Import GoLib.

(** [SeedEntry] represents a source-to-translated pair extracted from a Git
    diff. *)
Record SeedEntry := mkSeedEntry {
  SourceText : gostring;
  TranslatedText : gostring;
  File : gostring;
  Function : gostring;
  EntityType : gostring;
  Hash : gostring
}.

(** [diffHunk] represents a group of removed/added lines from a diff. *)
Record diffHunk := mkDiffHunk {
  removed : list gostring;
  added : list gostring
}.

(** ** The two regular expressions *)

Definition dquote : ascii := ascii_of_nat 34.
Definition squote : ascii := ascii_of_nat 39.
Definition backslash : ascii := ascii_of_nat 92.
Definition linefeed : ascii := ascii_of_nat 10.
Definition tab : ascii := ascii_of_nat 9.

(** The inside of a quoted literal up to the closing quote [q], as both
    alternatives of [luaStringRe] describe it: bytes other than the quote and
    the backslash, and backslashes with the byte they escape (any but a line
    feed). The result is the text between the quotes. *)
Fixpoint quoted_body (q : ascii) (s : gostring) : option gostring :=
  match s with
  | [] => None
  | c :: s' =>
      if bool_decide (c = q) then Some []
      else if bool_decide (c = backslash) then
        match s' with
        | d :: s'' =>
            if bool_decide (d = linefeed) then None
            else option_map (fun b => c :: d :: b) (quoted_body q s'')
        | [] => None
        end
      else option_map (cons c) (quoted_body q s')
  end.

(** [luaStringRe.FindStringSubmatch(s)]: the two groups of the leftmost
    match; the group of the alternative that did not take part is empty. *)
Fixpoint luaStringRe_find (s : gostring) : option (gostring * gostring) :=
  match s with
  | [] => None
  | c :: s' =>
      if bool_decide (c = dquote) then
        match quoted_body dquote s' with
        | Some b => Some (b, [])
        | None => luaStringRe_find s'
        end
      else if bool_decide (c = squote) then
        match quoted_body squote s' with
        | Some b => Some ([], b)
        | None => luaStringRe_find s'
        end
      else luaStringRe_find s'
  end.

Definition is_name_start (c : ascii) : bool :=
  let b := byte_val c in in_range 97 122 b || in_range 65 90 b || (b =? 95).
Definition is_name_byte (c : ascii) : bool :=
  let b := byte_val c in
  is_name_start c || in_range 48 57 b || (b =? 46) || (b =? 58).

Fixpoint name_run (s : gostring) : gostring * gostring :=
  match s with
  | c :: s' => if is_name_byte c then let (run, rest) := name_run s' in (c :: run, rest)
               else ([], s)
  | [] => ([], [])
  end.

(** [luaFuncExtractor.FindStringSubmatch(s)], group 1: the leftmost name (a
    letter or underscore, then letters, digits, underscores, dots and colons)
    that runs up to an opening parenthesis. The starred letter [s] that the
    expression has between the group and the parenthesis can only match
    letters the group has already taken, so it never matches any. *)
Fixpoint luaFuncExtractor_find (s : gostring) : option gostring :=
  match s with
  | [] => None
  | c :: s' =>
      if is_name_start c then
        let (run, rest) := name_run s' in
        match rest with
        | "("%char :: _ => Some (c :: run)
        | _ => luaFuncExtractor_find s'
        end
      else luaFuncExtractor_find s'
  end.

(** ** Extraction of a pair from one removed and one added line *)

Definition extractLuaPair (source translated : gostring) : gostring * gostring * gostring :=
  match luaStringRe_find source, luaStringRe_find translated with
  | Some (src1, src2), Some (dst1, dst2) =>
      let srcText := if str_eqb src1 [] then src2 else src1 in
      let dstText := if str_eqb dst1 [] then dst2 else dst1 in
      let fnName := match luaFuncExtractor_find source with
                    | Some name => name
                    | None => []
                    end in
      (srcText, dstText, fnName)
  | _, _ => ([], [], [])
  end.

Definition extractINIPair (source translated : gostring) : gostring * gostring * gostring :=
  match SplitN2 source "="%char, SplitN2 translated "="%char with
  | [srcKey; srcVal], [dstKey; dstVal] =>
      if negb (str_eqb (TrimSpace srcKey) (TrimSpace dstKey)) then ([], [], [])
      else (TrimSpace srcVal, TrimSpace dstVal, [])
  | _, _ => ([], [], [])
  end.

(** The loop of [extractTXTPair] over the columns. *)
Fixpoint first_changed (srcCols dstCols : list gostring) : gostring * gostring * gostring :=
  match srcCols, dstCols with
  | s :: srcCols', d :: dstCols' =>
      if negb (str_eqb s d) && textutil.ContainsChinese s then (s, d, [])
      else first_changed srcCols' dstCols'
  | _, _ => ([], [], [])
  end.

Definition extractTXTPair (source translated : gostring) : gostring * gostring * gostring :=
  let srcCols := SplitByte source tab in
  let dstCols := SplitByte translated tab in
  if negb (length srcCols =? length dstCols)%nat || (length srcCols <? 2)%nat
  then ([], [], [])
  else first_changed srcCols dstCols.

(** [extractTextPair] extracts actual text content from removed/added diff
    lines. *)
Definition extractTextPair (source translated ext : gostring) : gostring * gostring * gostring :=
  if str_eqb ext (str ".lua") then extractLuaPair source translated
  else if str_eqb ext (str ".ini") then extractINIPair source translated
  else if str_eqb ext (str ".txt") then extractTXTPair source translated
  else (TrimSpace source, TrimSpace translated, []).

(** ** Entity types *)

(** [entityPatterns] maps file name patterns to entity types. The entries of
    the map literal; a Go map holds them in no particular order. *)
Definition entityPatterns : list (gostring * gostring) :=
  [ (str "skill", str "skill"); (str "buff", str "buff"); (str "item", str "item");
    (str "equip", str "item"); (str "weapon", str "item"); (str "quest", str "quest");
    (str "npc", str "character"); (str "char", str "character");
    (str "map", str "location"); (str "scene", str "location"); (str "ui", str "ui");
    (str "dialog", str "dialog"); (str "chat", str "dialog");
    (str "faction", str "faction"); (str "guild", str "faction");
    (str "mount", str "mount"); (str "pet", str "pet") ].

(** [termEntityMap] maps known wuxia terms to entity types. *)
Definition termEntityMap : list (gostring * gostring) :=
  [ (str "技能", str "skill"); (str "武功", str "skill"); (str "心法", str "skill");
    (str "装备", str "item"); (str "丹药", str "item"); (str "秘籍", str "item");
    (str "副本", str "dungeon"); (str "任务", str "quest");
    (str "门派", str "faction"); (str "帮派", str "faction"); (str "坐骑", str "mount") ].

(** The orders in which the two [range] loops of one call of
    [detectEntityType] visit their maps. *)
Record visits := mkVisits {
  visit_patterns : list (gostring * gostring);
  visit_terms : list (gostring * gostring)
}.

(** Go visits every entry of a map once, in an order it does not specify. *)
Definition go_visits (v : visits) : Prop :=
  visit_patterns v ≡ₚ entityPatterns /\ visit_terms v ≡ₚ termEntityMap.

(** A [range] loop that returns the value of the first entry whose key
    passes [hit]. *)
Fixpoint first_hit (hit : gostring -> bool) (entries : list (gostring * gostring))
  : option gostring :=
  match entries with
  | [] => None
  | (key, entityType) :: entries' =>
      if hit key then Some entityType else first_hit hit entries'
  end.

(** [detectEntityType] infers entity type from file name, function, and text
    content; [v] is the order in which this call meets the map entries, and
    [toLower] is [unicode.ToLower], which [strings.ToLower] consults for a
    name that is not ASCII. *)
Definition detectEntityType (toLower : Z -> Z) (v : visits)
  (file function text : gostring) : gostring :=
  let fileLower := ToLower toLower file in
  let funcLower := ToLower toLower function in
  match first_hit (fun pattern => Contains fileLower pattern || Contains funcLower pattern)
                  (visit_patterns v) with
  | Some entityType => entityType
  | None =>
      match first_hit (fun term => Contains text term) (visit_terms v) with
      | Some entityType => entityType
      | None => str "general"
      end
  end.

(** ** [matchPairs] *)

(** One turn of the loop of [matchPairs], for the index [i]. The lines are
    present for every [i] below [pairCount]; outside, where Go would panic,
    nothing is appended. *)
Definition match_pair (toLower : Z -> Z) (visit : nat -> visits) (hunk : diffHunk)
  (ext file : gostring) (entries : list SeedEntry) (i : nat) : list SeedEntry :=
  match removed hunk !! i, added hunk !! i with
  | Some r, Some a =>
      let '(srcText, dstText, fnName) := extractTextPair r a ext in
      if str_eqb srcText [] || str_eqb dstText [] || negb (textutil.ContainsChinese srcText)
      then entries
      else entries ++
           [mkSeedEntry srcText dstText file fnName
              (detectEntityType toLower (visit i) file fnName srcText)
              (textutil.Hash srcText)]
  | _, _ => entries
  end.

(** [matchPairs] matches removed (source) lines with added (translated)
    lines. [visit i] gives the map orders of the call of [detectEntityType]
    in turn [i]. *)
Definition matchPairs (toLower : Z -> Z) (visit : nat -> visits) (hunk : diffHunk)
  (ext file : gostring) : list SeedEntry :=
  let pairCount := length (removed hunk) in
  let pairCount := if (length (added hunk) <? pairCount)%nat
                   then length (added hunk) else pairCount in
  fold_left (match_pair toLower visit hunk ext file) (seq 0 pairCount) [].

(** ** [parseHunks] *)

(** The state of the loop of [parseHunks]. *)
Record hunk_state := mkHunkState {
  hunks : list diffHunk;
  current : diffHunk;
  inHunk : bool
}.

Definition has_lines (h : diffHunk) : bool :=
  (0 <? length (removed h))%nat || (0 <? length (added h))%nat.

(** One turn of the loop, for one line of the diff. *)
Definition hunk_line (st : hunk_state) (line : gostring) : hunk_state :=
  if HasPrefix line (str "diff ") || HasPrefix line (str "index ")
     || HasPrefix line (str "--- ") || HasPrefix line (str "+++ ")
  then st
  else if HasPrefix line (str "@@") then
    mkHunkState
      (if inHunk st && has_lines (current st) then hunks st ++ [current st] else hunks st)
      (mkDiffHunk [] []) true
  else if negb (inHunk st) then st
  else if HasPrefix line (str "-") then
    mkHunkState (hunks st)
      (mkDiffHunk (removed (current st) ++ [slice_from line 1]) (added (current st)))
      (inHunk st)
  else if HasPrefix line (str "+") then
    mkHunkState (hunks st)
      (mkDiffHunk (removed (current st)) (added (current st) ++ [slice_from line 1]))
      (inHunk st)
  else st.

(** [parseHunks] groups diff output into hunks of removed/added lines, from
    the lines the scanner yields. *)
Definition parseHunks_lines (lines : list gostring) : list diffHunk :=
  let st := fold_left hunk_line lines (mkHunkState [] (mkDiffHunk [] []) false) in
  if inHunk st && has_lines (current st) then hunks st ++ [current st] else hunks st.

(** [parseHunks], from the output of [git diff]. The scanner has its default
    buffer of 64 KiB; when a line does not fit, the loop ends there and the
    error is not looked at. *)
Definition parseHunks (diffOutput : gostring) : list diffHunk :=
  parseHunks_lines (fst (ScanLines (64 * 1024) diffOutput)).

(** The loop of [extractPairsFromDiff] over the hunks of one file: the seeds
    of each hunk, one hunk after the other. [visit h i] gives the map orders
    of the call of [detectEntityType] for pair [i] of hunk number [h]. *)
Fixpoint pairs_of_hunks (toLower : Z -> Z) (visit : nat -> nat -> visits) (h : nat)
  (hs : list diffHunk) (ext file : gostring) : list SeedEntry :=
  match hs with
  | [] => []
  | hunk :: hs' =>
      matchPairs toLower (visit h) hunk ext file
      ++ pairs_of_hunks toLower visit (S h) hs' ext file
  end.

(** ** Export *)

(** [escapeTSV] replaces tabs and newlines in a string for TSV safety. *)
Definition escapeTSV (s : gostring) : gostring :=
  let s := ReplaceAllByte s tab (str "\t") in
  let s := ReplaceAllByte s linefeed (str "\n") in
  ReplaceAllByte s (ascii_of_nat 13) (str "\r").

(** The row [ExportTSV] prints for one seed, line feed included. *)
Definition tsv_row (e : SeedEntry) : gostring :=
  escapeTSV (SourceText e) ++ [tab] ++ escapeTSV (TranslatedText e) ++ [tab]
  ++ File e ++ [tab] ++ Function e ++ [tab] ++ EntityType e ++ [linefeed].

End seed.
(* ================================================================== *)
(** * Inputs of the end-to-end scenarios                               *)
(* ================================================================== *)

Module scenario.

(** Scenario 2: two rows of a tab-separated file. *)
Definition tsv_rows : list gostring :=
  [ str "1001" ++ [parser.tab] ++ str "reward" ++ [parser.tab] ++ str "获得经验";
    str "1002" ++ [parser.tab] ++ str "reward_gold" ++ [parser.tab] ++ str "获得%d金币" ].

(** The text extracted from the third column of the first row. *)
Definition tsv_first_text : parser.ExtractedText :=
  parser.mkExtractedText (str "获得经验") (str "data.txt") 1 2
    (<[str "id" := str "1001"]>
       (<[str "format" := str "tsv"]> (<[str "file" := str "data.txt"]> ∅))).

(** A tab-separated file whose first column is the text to translate. *)
Definition tsv_rows_text_first : list gostring :=
  [ str "技能" ++ [parser.tab] ++ str "skill_name";
    str "武功" ++ [parser.tab] ++ str "kungfu_name" ].

(** Scenario 1: a parsed Lua file of two lines with a literal each, and
    translations for both. *)
Definition lua_result : parser.ParseResult :=
  parser.mkParseResult (str "ui.lua") (str "lua")
    [ parser.mkExtractedText (str "获得%d金币") (str "ui.lua") 1 (-1)
        (<[str "function" := str "UI.ShowMessage"]> (<[str "file" := str "ui.lua"]> ∅));
      parser.mkExtractedText (str "技能升级") (str "ui.lua") 2 (-1)
        (<[str "file" := str "ui.lua"]> ∅) ]
    [ str "UI.ShowMessage(" ++ [seed.dquote] ++ str "获得%d金币" ++ [seed.dquote] ++ str ")";
      str "local s = '技能升级'" ].

Definition lua_translations : gmap gostring gostring :=
  <[str "获得%d金币" := str "Nhận được %d vàng"]>
    (<[str "技能升级" := str "Kỹ năng nâng cấp"]> ∅).

(** Scenario 4: a removed and an added line of a Lua file. *)
Definition lua_hunk : seed.diffHunk :=
  seed.mkDiffHunk
    [ str "  return " ++ [seed.dquote] ++ str "获得真气" ++ [seed.dquote] ]
    [ str "  return " ++ [seed.dquote] ++ str "Nhận được Chân khí" ++ [seed.dquote] ].

(** The output of [git diff -U0] that has this hunk. *)
Definition lua_diff : gostring :=
  str "diff --git a/buff.lua b/buff.lua" ++ [seed.linefeed]
  ++ str "index 3b18e51..7d2c4a9 100644" ++ [seed.linefeed]
  ++ str "--- a/buff.lua" ++ [seed.linefeed]
  ++ str "+++ b/buff.lua" ++ [seed.linefeed]
  ++ str "@@ -3 +3 @@ function Buff.Describe()" ++ [seed.linefeed]
  ++ str "-  return " ++ [seed.dquote] ++ str "获得真气" ++ [seed.dquote] ++ [seed.linefeed]
  ++ str "+  return " ++ [seed.dquote] ++ str "Nhận được Chân khí" ++ [seed.dquote]
  ++ [seed.linefeed].

(** The seed mined from it, for a file named [buff.lua]. *)
Definition lua_seed : seed.SeedEntry :=
  seed.mkSeedEntry (str "获得真气") (str "Nhận được Chân khí") (str "buff.lua") []
    (str "buff") (textutil.Hash (str "获得真气")).

(** A stand-in for [unicode.ToLower] in the scenarios. Their file and
    function names are ASCII, for which [strings.ToLower] never consults the
    case tables, so any function does. *)
Definition no_case_table (r : Z) : Z := r.

(** The map orders of a call of [detectEntityType] that meets the entries as
    the source lists them, and of one that meets the patterns in the opposite
    order. *)
Definition as_listed : seed.visits :=
  seed.mkVisits seed.entityPatterns seed.termEntityMap.

Definition patterns_reversed : seed.visits :=
  seed.mkVisits (rev seed.entityPatterns) seed.termEntityMap.

(** A server that answers every request with status 400. *)
Definition always_400 (attempt : Z) : translation.attempt_env :=
  translation.mkAttemptEnv false
    (translation.Response 400 (translation.BodyText (str "bad request"))) false.

End scenario.
(* ================================================================== *)
(** * Notions the statements and proofs are phrased with               *)
(* ================================================================== *)

Section InterpolationNotions.
Import GoLib interpolation.

(** The literal every placeholder starts with. *)
Definition var_prefix : gostring := str "{{var_".

(** A pattern that matches [len] bytes at the start of [s] stays inside [s]. *)
Definition stays_inside (p : gostring -> option nat) : Prop :=
  forall s len, p s = Some len -> (len <= length s)%nat.

(** A match record describes a slice of the text. *)
Definition in_text (text : gostring) (m : varMatch) : Prop :=
  0 <= start m /\ start m <= end_ m /\ end_ m <= Z.of_nat (length text) /\
  value m = slice text (start m) (end_ m).

(** Matches that follow one another from offset [lo] on, none overlapping
    the one before. *)
Fixpoint chained (text : gostring) (lo : Z) (ms : list varMatch) : Prop :=
  match ms with
  | [] => True
  | m :: ms' => lo <= start m /\ in_text text m /\ chained text (end_ m) ms'
  end.

(** The text from offset [b] on, with the matches [ms], numbered from
    [i + 1], replaced by their placeholders. *)
Fixpoint render (text : gostring) (b i : Z) (ms : list varMatch) : gostring :=
  match ms with
  | [] => slice_from text b
  | m :: ms' =>
      slice text b (start m) ++ placeholder_of (i + 1) ++ render text (end_ m) (i + 1) ms'
  end.

(** The mappings the replacement loop returns for them. *)
Fixpoint mappings_of (i : Z) (ms : list varMatch) : list Mapping :=
  match ms with
  | [] => []
  | m :: ms' => mkMapping (value m) (placeholder_of (i + 1)) (i + 1) :: mappings_of (i + 1) ms'
  end.

(** [a] may stand before [b]: it starts earlier, or at the same offset and
    is not shorter. *)
Definition may_precede (a b : varMatch) : Prop :=
  start a < start b \/ (start a = start b /\ end_ b - start b <= end_ a - start a).

End InterpolationNotions.

Section ParserNotions.
Import GoLib parser.

(** A line the sampling loop of [detectTSV] passes over. *)
Definition blank (line : gostring) : bool := str_eqb (TrimSpace line) [].

(** What the sampling loop keeps true: every count in the table is positive
    and no larger than the number of non-blank lines seen, which is no
    larger than the number of lines seen. *)
Definition sampled (acc : gmap Z Z * Z) (seen : Z) : Prop :=
  0 <= snd acc <= seen /\
  forall k c, fst acc !! k = Some c -> 1 <= c <= snd acc.

(** A line the scanner gives back as it is: no line feed in it, no carriage
    return at its end, and short enough for a buffer of [max] bytes. *)
Definition scans_back (max : Z) (line : gostring) : bool :=
  negb (existsb (fun c => bool_decide (c = ascii_of_nat 10)) line)
  && negb (HasSuffix line [ascii_of_nat 13])
  && (Z.of_nat (length line) <? max).

(** The value [INIParser.Parse] extracts from a line, if it extracts one. *)
Definition ini_value (line : gostring) : option gostring :=
  match snd (ini_line [] [] 0 line) with
  | et :: _ => Some (Text et)
  | [] => None
  end.

(** The line [INIParser.Reconstruct] writes for [line] when its value is
    translated as [translated]: the line up to its first equals sign, the
    blanks and tabs that follow the sign, and the translation. *)
Definition ini_rewritten (line translated : gostring) : gostring :=
  match GoLib.Index line (str "=") with
  | Some eqIdx =>
      slice line 0 (Z.of_nat eqIdx + 1)
      ++ leading_blanks (slice_from line (Z.of_nat eqIdx + 1)) ++ translated
  | None => line
  end.

(** The column [reconstructTSV] is to write for a column of the file: its
    translation when the parser extracted the column and the map has one. *)
Definition tsv_translated (translations : gmap gostring gostring) (col : gostring)
  : gostring :=
  if isTranslatableColumn col then default col (translations !! col) else col.

(** The line it is to write for a line of the file. *)
Definition tsv_rewritten (translations : gmap gostring gostring) (line : gostring)
  : gostring :=
  if blank line then line
  else Join (map (tsv_translated translations) (SplitByte line tab)) [tab].

(** A string of ASCII bytes only. *)
Definition ascii_only (s : gostring) : Prop := forall c, In c s -> byte_val c < 128.

End ParserNotions.

Section CacheNotions.
Import GoLib cache.

(** The in-memory tier holds nothing the table does not hold: every entry
    of it is the [translated] column of the row of its hash. *)
Definition coherent (c : TranslationCache) : Prop :=
  forall h v, memory c !! h = Some v ->
    exists r, durable c !! h = Some r /\ row_translated r = v.

(** The translation the table gives for a text, if it has a row for it. *)
Definition stored (c : TranslationCache) (sourceText : gostring) : option gostring :=
  row_translated <$> durable c !! textutil.Hash sourceText.

(** What the loop of [Preload] does with one row. *)
Definition load_row (m : gmap gostring gostring) (r : gostring * gostring)
  : gmap gostring gostring :=
  let '(hash, translated) := r in <[hash := translated]> m.

(** The in-memory tier after the pairs of [visit] were put in turn. *)
Definition put_all (visit : list (gostring * gostring)) (m : gmap gostring gostring)
  : gmap gostring gostring :=
  fold_left (fun m '(source, translated) => <[textutil.Hash source := translated]> m)
            visit m.

End CacheNotions.

Section SeedNotions.
Import GoLib seed.
Implicit Types (hunk : diffHunk) (e : SeedEntry).

(** What holds of a seed that was made from the lines at index [i]. *)
Definition paired_at hunk (ext : gostring) (i : nat) e : Prop :=
  exists r a,
    removed hunk !! i = Some r /\ added hunk !! i = Some a /\
    extractTextPair r a ext = (SourceText e, TranslatedText e, Function e).

(** What the filter of [matchPairs] and the hash it computes guarantee. *)
Definition well_formed_seed e : Prop :=
  SourceText e <> [] /\ TranslatedText e <> [] /\
  textutil.ContainsChinese (SourceText e) = true /\
  Hash e = textutil.Hash (SourceText e).

(** The seed the pairing step is to emit for the lines at index [i]: the
    pair extracted from the [i]-th removed and the [i]-th added line, if its
    source is not empty, its target is not empty and its source holds a Han
    character; the seed carries the SHA-256 hex digest of its source. *)
Definition seed_of_pair (toLower : Z -> Z) (visit : nat -> visits) hunk
  (ext file : gostring) (i : nat) : option SeedEntry :=
  match removed hunk !! i, added hunk !! i with
  | Some r, Some a =>
      let '(source, target, function) := extractTextPair r a ext in
      if bool_decide (source <> [] /\ target <> [] /\
                      textutil.ContainsChinese source = true)
      then Some (mkSeedEntry source target file function
                   (detectEntityType toLower (visit i) file function source)
                   (hex_encode (SHA256.Sum256 (map byte_val source))))
      else None
  | _, _ => None
  end.

(** The lines of a hunk come from lines of the diff, marker stripped, and
    none of them is a line the loop of [parseHunks] takes for a file
    header. *)
Definition from_diff (lines : list gostring) (h : diffHunk) : Prop :=
  (forall r, In r (removed h) ->
     In ("-"%char :: r) lines /\ HasPrefix r (str "-- ") = false) /\
  (forall a, In a (added h) ->
     In ("+"%char :: a) lines /\ HasPrefix a (str "++ ") = false).

(** What the loop of [parseHunks] keeps true over the lines [lines]. *)
Definition hunks_from_diff (lines : list gostring) (st : hunk_state) : Prop :=
  (forall h, In h (hunks st) -> has_lines h = true /\ from_diff lines h) /\
  from_diff lines (current st).

(** The bytes [escapeTSV] replaces. *)
Definition control (c : ascii) : Prop :=
  c = tab \/ c = linefeed \/ c = ascii_of_nat 13.

End SeedNotions.


Section EmbeddingNotions.
Import GoLib rag.

(** The batches [chunks] embedded one after the other, the first starting at
    index [i] and each next one [batchSize] further, up to the first that
    fails. *)
Fixpoint embed_chunks (reply : Z -> embed_exchange) (batchSize i : Z)
  (chunks : list (list gostring)) : list (option vector) + batch_error :=
  match chunks with
  | [] => inl []
  | chunk :: chunks' =>
      match Embed (reply i) chunk with
      | inr err => inr (ErrEmbedBatch i (i + Z.of_nat (length chunk)) err)
      | inl embeddings =>
          match embed_chunks reply batchSize (i + batchSize) chunks' with
          | inl rest => inl (embeddings ++ rest)
          | inr err => inr err
          end
      end
  end.

End EmbeddingNotions.
(* ================================================================== *)
(** * Placeholder protection round-trips                               *)
(* ================================================================== *)

Section ProtectRestore.
Import GoLib interpolation.

Lemma HasPrefix_app (p r : gostring) : HasPrefix (p ++ r) p = true.
Proof.
  induction p as [|x p IH]; simpl; [reflexivity|].
  rewrite bool_decide_eq_true_2 by reflexivity. exact IH.
Qed.

Lemma HasPrefix_weaken (s p q : gostring) :
  HasPrefix s (p ++ q) = true -> HasPrefix s p = true.
Proof.
  revert s. induction p as [|x p IH]; intros s H; simpl in *; [reflexivity|].
  destruct s as [|y s]; [discriminate|].
  apply andb_true_iff in H as [Hxy H]. rewrite Hxy. simpl. eauto.
Qed.

Lemma HasPrefix_extend (a b sub : gostring) :
  HasPrefix a sub = true -> HasPrefix (a ++ b) sub = true.
Proof.
  revert a. induction sub as [|x sub IH]; intros a H; simpl in *; [reflexivity|].
  destruct a as [|y a]; [discriminate|]. simpl.
  apply andb_true_iff in H as [Hxy H]. rewrite Hxy. simpl. eauto.
Qed.

Lemma Contains_false_head (s sub : gostring) :
  Contains s sub = false -> HasPrefix s sub = false.
Proof.
  unfold Contains. destruct s; simpl; destruct (HasPrefix _ sub); congruence.
Qed.

Lemma Contains_false_tail (c : ascii) (s sub : gostring) :
  Contains (c :: s) sub = false -> Contains s sub = false.
Proof.
  unfold Contains. simpl. destruct (HasPrefix (c :: s) sub); [discriminate|].
  destruct (GoLib.Index s sub); simpl; congruence.
Qed.

(** A string without an occurrence of [sub] has no prefix with one. *)
Lemma Contains_false_app (a b sub : gostring) :
  Contains (a ++ b) sub = false -> Contains a sub = false.
Proof.
  induction a as [|c a IH]; intros H.
  - apply Contains_false_head in H.
    unfold Contains. destruct sub; simpl in *; [discriminate|reflexivity].
  - pose proof (Contains_false_head _ _ H) as Hh.
    apply Contains_false_tail in H. specialize (IH H).
    unfold Contains in *. cbn [GoLib.Index].
    destruct (HasPrefix (c :: a) sub) eqn:E.
    + apply (HasPrefix_extend _ b) in E. cbn [app] in *. congruence.
    + destruct (GoLib.Index a sub); [discriminate|reflexivity].
Qed.

(** [{{var_] has no proper border: it cannot start inside text that does not
    begin with it and end inside a following copy of itself. *)
Lemma var_prefix_no_border (t r : gostring) :
  t <> [] -> HasPrefix t var_prefix = false ->
  HasPrefix (t ++ var_prefix ++ r) var_prefix = false.
Proof.
  intros Hne H.
  destruct t as [|c0 [|c1 [|c2 [|c3 [|c4 [|c5 t]]]]]]; [congruence|..];
    cbn in *; repeat case_bool_decide; subst; cbn in *; congruence.
Qed.

Lemma Replace1_unfold (s old new : gostring) :
  Replace1 s old new =
  if HasPrefix s old then new ++ skipn (length old) s
  else match s with
       | [] => []
       | c :: s' => c :: Replace1 s' old new
       end.
Proof. destruct s; reflexivity. Qed.

(** In text free of [{{var_], the first occurrence of a placeholder that was
    put behind it is that very placeholder. *)
Lemma Replace1_behind_clean_text (t x r orig : gostring) :
  Contains t var_prefix = false ->
  Replace1 (t ++ (var_prefix ++ x) ++ r) (var_prefix ++ x) orig = t ++ orig ++ r.
Proof.
  induction t as [|c t IH]; intros H.
  - cbn [app]. rewrite Replace1_unfold, HasPrefix_app.
    by rewrite skipn_app, skipn_all, Nat.sub_diag.
  - assert (Hno : HasPrefix ((c :: t) ++ (var_prefix ++ x) ++ r) (var_prefix ++ x) = false).
    { destruct (HasPrefix _ (var_prefix ++ x)) eqn:E; [|reflexivity].
      apply HasPrefix_weaken in E. rewrite <- app_assoc in E.
      rewrite var_prefix_no_border in E; [discriminate|discriminate|].
      by apply Contains_false_head. }
    rewrite Replace1_unfold, Hno. cbn [app]. f_equal.
    apply IH. eapply Contains_false_tail; eauto.
Qed.

(** *** What the patterns find lies inside the text *)

Lemma span_app (f : ascii -> bool) (s : gostring) :
  s = fst (span f s) ++ snd (span f s).
Proof.
  induction s as [|c s IH]; simpl; [reflexivity|].
  destruct (f c); [|reflexivity].
  destruct (span f s); simpl in *. by f_equal.
Qed.

Lemma span_length (f : ascii -> bool) (s run rest : gostring) :
  span f s = (run, rest) -> length s = (length run + length rest)%nat.
Proof.
  intros E. rewrite (span_app f s) at 1. rewrite E. apply length_app.
Qed.

Lemma pat_dollar_inside : stays_inside pat_dollar.
Proof.
  intros s len. unfold pat_dollar.
  repeat (case_match; try discriminate); subst.
  intros [= <-]. match goal with E : span _ _ = _ |- _ => apply span_length in E end.
  simpl in *. lia.
Qed.

Lemma pat_index_inside : stays_inside pat_index.
Proof.
  intros s len. unfold pat_index.
  repeat (case_match; try discriminate); subst.
  intros [= <-]. match goal with E : span _ _ = _ |- _ => apply span_length in E end.
  simpl in *. lia.
Qed.

Lemma pat_format_inside : stays_inside pat_format.
Proof.
  intros s len. unfold pat_format.
  destruct s as [|c t]; [discriminate|].
  repeat (case_match; try discriminate); subst;
    destruct (span is_flag t) as [flags t1] eqn:E1;
    repeat (case_match; try discriminate); subst;
    repeat match goal with E : span _ _ = _ |- _ => apply span_length in E end;
    repeat match goal with E : (_, _) = (_, _) |- _ => inversion E; clear E; subst end;
    intros [= <-]; simpl in *; lia.
Qed.

Lemma pat_percent_inside : stays_inside pat_percent.
Proof.
  intros s len. unfold pat_percent.
  repeat (case_match; try discriminate); subst.
  intros [= <-]. simpl. lia.
Qed.

Lemma patterns_inside : Forall stays_inside patterns.
Proof.
  repeat constructor; auto using pat_dollar_inside, pat_index_inside,
    pat_format_inside, pat_percent_inside.
Qed.

Lemma find_all_bounds (p : gostring -> option nat) :
  stays_inside p ->
  forall s pos skip a b,
    In (a, b) (find_all p s pos skip) ->
    pos <= a /\ a <= b /\ b <= pos + Z.of_nat (length s).
Proof.
  intros Hp. induction s as [|c s IH]; intros pos skip a b Hin; simpl in Hin; [tauto|].
  destruct skip as [|k].
  - destruct (p (c :: s)) as [len|] eqn:E.
    + destruct Hin as [[= <- <-]|Hin].
      * apply Hp in E. lia.
      * apply IH in Hin. simpl length. lia.
    + apply IH in Hin. simpl length. lia.
  - apply IH in Hin. simpl length. lia.
Qed.

Lemma all_matches_in_text (text : gostring) :
  Forall (in_text text) (all_matches text).
Proof.
  unfold all_matches. apply List.Forall_forall. intros m Hin.
  apply in_flat_map in Hin as (p & Hp & Hin).
  apply in_map_iff in Hin as ([a b] & <- & Hin).
  pose proof patterns_inside as Hall. rewrite List.Forall_forall in Hall.
  apply (find_all_bounds p (Hall p Hp)) in Hin. unfold in_text. simpl. split_and!; try lia; done.
Qed.

(** *** Sorting only reorders *)

Lemma insert_back_In (key x : varMatch) (acc : list varMatch) :
  In x (insert_back key acc) -> x = key \/ In x acc.
Proof.
  induction acc as [|m acc IH]; simpl; [intuition congruence|].
  destruct (moves m key); simpl; intuition congruence.
Qed.

Lemma sort_fold_In (ms acc : list varMatch) (x : varMatch) :
  In x (fold_left (fun prefix_rev key => insert_back key prefix_rev) ms acc) ->
  In x ms \/ In x acc.
Proof.
  revert acc. induction ms as [|m ms IH]; intros acc H; simpl in *; [tauto|].
  apply IH in H as [H|H]; [tauto|]. apply insert_back_In in H. intuition.
Qed.

Lemma sortVarMatches_In (ms : list varMatch) (x : varMatch) :
  In x (sortVarMatches ms) -> In x ms.
Proof.
  unfold sortVarMatches. rewrite <- in_rev. intros H.
  apply sort_fold_In in H as [H|[]]. exact H.
Qed.

(** *** After the overlap filter the matches follow one another *)

Lemma remove_overlaps_chained (text : gostring) (ms : list varMatch) :
  Forall (in_text text) ms ->
  forall lastEnd, chained text lastEnd (remove_overlaps ms lastEnd).
Proof.
  induction 1 as [|m ms Hm Hms IH]; intros lastEnd; simpl; [exact I|].
  destruct (Z.leb_spec lastEnd (start m)); simpl; auto.
Qed.

Lemma chained_from_zero (text : gostring) (ms : list varMatch) :
  chained text (-1) ms -> chained text 0 ms.
Proof.
  destruct ms as [|m ms]; simpl; [auto|].
  intros (_ & Hm & Hch). split_and!; auto. destruct Hm; lia.
Qed.

(** *** The shape of the protected string *)

Lemma slice_split (s : gostring) (a b c : Z) :
  0 <= a -> a <= b -> b <= c ->
  slice s a b ++ slice s b c = slice s a c.
Proof.
  intros. unfold slice.
  replace (Z.to_nat c - Z.to_nat a)%nat
    with ((Z.to_nat b - Z.to_nat a) + (Z.to_nat c - Z.to_nat b))%nat by lia.
  rewrite <- (take_take_drop (skipn (Z.to_nat a) s)). f_equal.
  rewrite drop_drop. do 2 f_equal. lia.
Qed.

Lemma slice_0 (s : gostring) (b : Z) : slice s 0 b = firstn (Z.to_nat b) s.
Proof.
  unfold slice. change (Z.to_nat 0) with 0%nat. by rewrite Nat.sub_0_r.
Qed.

Lemma slice_rest (s : gostring) (b : Z) :
  0 <= b -> slice s 0 b ++ slice_from s b = s.
Proof. intros. rewrite slice_0. apply firstn_skipn. Qed.

Lemma slice_of_app (s r : gostring) (b a : Z) :
  0 <= a -> a <= b -> b <= Z.of_nat (length s) ->
  slice ((slice s 0 b) ++ r) 0 a = slice s 0 a.
Proof.
  intros. rewrite !slice_0.
  rewrite take_app_le by (rewrite length_take; lia).
  rewrite take_take. f_equal. lia.
Qed.

Lemma slice_from_app (s r : gostring) (b : Z) :
  0 <= b -> b <= Z.of_nat (length s) ->
  slice_from ((slice s 0 b) ++ r) b = r.
Proof.
  intros. rewrite slice_0. unfold slice_from.
  rewrite drop_app_length'; [reflexivity|]. rewrite length_take. lia.
Qed.

Lemma protect_loop_render (text : gostring) (ms : list varMatch) :
  forall b i, 0 <= b -> b <= Z.of_nat (length text) -> chained text b ms ->
    fold_right replace_step (text, []) (indexed i ms)
    = (slice text 0 b ++ render text b i ms, mappings_of i ms).
Proof.
  induction ms as [|m ms IH]; intros b i Hb0 Hb Hch;
    cbn [indexed fold_right render mappings_of].
  - by rewrite slice_rest.
  - destruct Hch as (Hlo & (H0 & Hse & Hel & Hval) & Hch).
    rewrite (IH (end_ m) (i + 1)) by (auto; lia).
    unfold replace_step. f_equal.
    rewrite slice_of_app, slice_from_app by lia.
    rewrite <- (slice_split text 0 b (start m)) by lia.
    by rewrite <- !app_assoc.
Qed.

Lemma placeholder_of_var_prefix (i : Z) :
  placeholder_of i = var_prefix ++ (itoa i ++ str "}}").
Proof. reflexivity. Qed.

Lemma Restore_cons (s : gostring) (m : Mapping) (ms : list Mapping) :
  interpolation.Restore s (m :: ms)
  = interpolation.Restore (Replace1 s (Placeholder m) (Original m)) ms.
Proof. reflexivity. Qed.

Lemma restore_render (text : gostring) (ms : list varMatch) :
  Contains text var_prefix = false ->
  forall b i, 0 <= b -> b <= Z.of_nat (length text) -> chained text b ms ->
    interpolation.Restore (slice text 0 b ++ render text b i ms) (mappings_of i ms) = text.
Proof.
  intros Hclean. induction ms as [|m ms IH]; intros b i Hb0 Hb Hch;
    cbn [render mappings_of].
  - cbn. by rewrite slice_rest.
  - destruct Hch as (Hlo & (H0 & Hse & Hel & Hval) & Hch).
    rewrite Restore_cons. cbn [Placeholder Original].
    rewrite app_assoc, slice_split by lia.
    rewrite placeholder_of_var_prefix.
    rewrite Replace1_behind_clean_text.
    + rewrite Hval, app_assoc, slice_split by lia.
      apply IH; auto; lia.
    + apply (Contains_false_app _ (slice_from text (start m))).
      by rewrite slice_rest.
Qed.

End ProtectRestore.

(** C1. For every text free of the literal [{{var_], restoring the protected
    text with the mappings [Protect] returned gives the text back. *)
Theorem protect_restore_roundtrip (text : gostring) :
  GoLib.Contains text (str "{{var_") = false ->
  interpolation.Restore (fst (interpolation.Protect text))
                        (snd (interpolation.Protect text)) = text.
Proof.
  intros Hclean. unfold interpolation.Protect.
  destruct (interpolation.all_matches text) as [|m0 ms0] eqn:E; [reflexivity|].
  rewrite <- E. clear E m0 ms0.
  rewrite (protect_loop_render text _ 0 0); [|lia|lia|].
  - apply restore_render; [exact Hclean|lia|lia|].
    eapply chained_from_zero, remove_overlaps_chained.
    apply List.Forall_forall. intros m Hm. apply sortVarMatches_In in Hm.
    revert m Hm. apply List.Forall_forall, all_matches_in_text.
  - eapply chained_from_zero, remove_overlaps_chained.
    apply List.Forall_forall. intros m Hm. apply sortVarMatches_In in Hm.
    revert m Hm. apply List.Forall_forall, all_matches_in_text.
Qed.

Lemma protect_restore_roundtrip_witness :
  GoLib.Contains (str "获得%d金币 ${name} {0} 100%%") (str "{{var_") = false /\
  interpolation.Restore
    (fst (interpolation.Protect (str "获得%d金币 ${name} {0} 100%%")))
    (snd (interpolation.Protect (str "获得%d金币 ${name} {0} 100%%")))
  = str "获得%d金币 ${name} {0} 100%%".
Proof.
  split; [vm_compute; reflexivity|].
  apply protect_restore_roundtrip. vm_compute. reflexivity.
Defined.

(* ================================================================== *)
(** * Batching                                                         *)
(* ================================================================== *)

Section BatchChunks.
Import GoLib worker.
Context {T : Type}.
Implicit Types (items : list T) (batchSize i : Z).

Lemma Batch_from_step items batchSize i :
  0 < batchSize -> i < Z.of_nat (length items) ->
  Batch_from items batchSize i
  = slice items i (Z.min (Z.of_nat (length items)) (i + batchSize))
      :: Batch_from items batchSize (i + batchSize).
Proof.
  intros Hb Hi. etransitivity; [apply Batch_from_equation_1|].
  destruct (decide (0 < batchSize /\ i < Z.of_nat (length items))) as [Hy|Hn]; [|lia].
  cbn. f_equal. destruct (Z.ltb_spec (Z.of_nat (length items)) (i + batchSize));
    f_equal; lia.
Qed.

Lemma Batch_from_done items batchSize i :
  Z.of_nat (length items) <= i -> Batch_from items batchSize i = [].
Proof.
  intros Hi. etransitivity; [apply Batch_from_equation_1|].
  destruct (decide (0 < batchSize /\ i < Z.of_nat (length items))) as [Hy|Hn]; [lia|].
  reflexivity.
Qed.

Lemma slice_length items lo hi :
  0 <= lo -> lo <= hi -> hi <= Z.of_nat (length items) ->
  Z.of_nat (length (slice items lo hi)) = hi - lo.
Proof.
  intros. unfold slice. rewrite length_take, length_drop. lia.
Qed.

Lemma slice_then_rest items lo hi :
  0 <= lo -> lo <= hi ->
  slice items lo hi ++ slice_from items hi = slice_from items lo.
Proof.
  intros. unfold slice, slice_from.
  rewrite <- (take_drop (Z.to_nat hi - Z.to_nat lo) (drop (Z.to_nat lo) items)) at 2.
  f_equal. rewrite drop_drop. f_equal. lia.
Qed.

Lemma slice_from_ge items lo :
  Z.of_nat (length items) <= lo -> slice_from items lo = [].
Proof. intros. unfold slice_from. apply drop_ge. lia. Qed.

Lemma slice_to_end items lo :
  0 <= lo -> slice items lo (Z.of_nat (length items)) = slice_from items lo.
Proof.
  intros. unfold slice, slice_from. apply take_ge. rewrite length_drop. lia.
Qed.

(** What the loop yields from index [i] on, by induction on the number of
    items still to be handed out. *)
Lemma Batch_from_spec items batchSize :
  0 < batchSize ->
  forall (n : nat) i, 0 <= i -> Z.of_nat (length items) - i <= Z.of_nat n ->
    let batches := Batch_from items batchSize i in
    concat batches = slice_from items i /\
    (forall k chunk, batches !! k = Some chunk ->
       chunk = slice items (i + Z.of_nat k * batchSize)
                 (Z.min (Z.of_nat (length items)) (i + (Z.of_nat k + 1) * batchSize)) /\
       i + Z.of_nat k * batchSize < Z.of_nat (length items)).
Proof.
  intros Hb. induction n as [|n IH]; intros i Hi Hn.
  - rewrite Batch_from_done by lia. cbn. split.
    + by rewrite slice_from_ge by lia.
    + intros k chunk Hk. by rewrite lookup_nil in Hk.
  - destruct (Z_lt_dec i (Z.of_nat (length items))) as [Hlt|Hge].
    + rewrite Batch_from_step by lia.
      destruct (IH (i + batchSize)) as [Hcat Hchunks]; [lia|lia|].
      cbn zeta in *. split.
      * cbn [concat]. rewrite Hcat.
        destruct (Z.min_spec (Z.of_nat (length items)) (i + batchSize)) as [[? ->]|[? ->]].
        -- rewrite (slice_from_ge items (i + batchSize)) by lia.
           rewrite app_nil_r. apply slice_to_end. lia.
        -- apply slice_then_rest; lia.
      * intros [|k] chunk Hk; cbn in Hk.
        -- inversion Hk; subst. split; [|lia]. f_equal; lia.
        -- apply Hchunks in Hk as [-> Hlt']. split; [|lia]. f_equal; lia.
    + rewrite Batch_from_done by lia. cbn. split.
      * by rewrite slice_from_ge by lia.
      * intros k chunk Hk. by rewrite lookup_nil in Hk.
Qed.

End BatchChunks.

(** C9. For a size of at least one, [Batch] cuts the list into consecutive
    chunks: chunk [k] is the slice that starts at [k * size], so the chunks
    concatenated give the list back; no chunk is longer than [size], and
    every chunk but the last has exactly [size] elements. *)
Theorem Batch_chunks {T} (items : list T) (size : Z) :
  1 <= size ->
  let batches := worker.Batch items size in
  concat batches = items /\
  (forall k chunk, batches !! k = Some chunk ->
     chunk = GoLib.slice items (Z.of_nat k * size)
               (Z.min (Z.of_nat (length items)) ((Z.of_nat k + 1) * size))) /\
  (forall k chunk, batches !! k = Some chunk ->
     1 <= Z.of_nat (length chunk) <= size) /\
  (forall k chunk, batches !! k = Some chunk -> (S k < length batches)%nat ->
     Z.of_nat (length chunk) = size).
Proof.
  intros Hsize. unfold worker.Batch.
  replace (size <=? 0) with false by lia.
  destruct (Batch_from_spec items size ltac:(lia) (length items) 0) as [Hcat Hchunks];
    [lia|lia|].
  cbn zeta in *. split_and!.
  - rewrite Hcat. reflexivity.
  - intros k chunk Hk. apply Hchunks in Hk as [-> _]. f_equal; lia.
  - intros k chunk Hk. apply Hchunks in Hk as [-> Hlt].
    rewrite slice_length; lia.
  - intros k chunk Hk Hnext.
    destruct (lookup_lt_is_Some_2 _ _ Hnext) as [next Hn].
    apply Hchunks in Hn as [_ Hlt]. apply Hchunks in Hk as [-> _].
    rewrite slice_length; lia.
Qed.

Lemma Batch_chunks_witness :
  1 <= 2 /\
  worker.Batch [10; 20; 30; 40; 50] 2 = [[10; 20]; [30; 40]; [50]] /\
  concat (worker.Batch [10; 20; 30; 40; 50] 2) = [10; 20; 30; 40; 50].
Proof.
  split; [lia|]. split; [reflexivity|].
  apply (Batch_chunks [10; 20; 30; 40; 50] 2). lia.
Defined.

(* ================================================================== *)
(** * The translation cache                                            *)
(* ================================================================== *)

Section CacheTiers.
Import cache.
Implicit Types (c : TranslationCache) (s t : gostring) (st : db_status).

(** Whatever becomes of the write to the table, [Set] has put the
    translation into memory. *)
Lemma Set_memory st c s t :
  memory (snd (Set_ st c s t)) = <[textutil.Hash s := t]> (memory c).
Proof.
  unfold Set_. destruct (UpsertCachedTranslation _ _ _ _ _) as [table' [err|]];
    reflexivity.
Qed.

(** A hit in memory is answered from memory: the table is not asked, and
    nothing changes. *)
Lemma Get_memory_hit st c s v :
  memory c !! textutil.Hash s = Some v -> Get st c s = ((v, true), c).
Proof. intros H. unfold Get. by rewrite H. Qed.

(** On a miss in memory the table is asked, and a row found there is copied
    into memory. *)
Lemma Get_durable_hit c s r :
  memory c !! textutil.Hash s = None ->
  durable c !! textutil.Hash s = Some r ->
  Get DbOk c s
  = ((row_translated r, true),
     mkCache (<[textutil.Hash s := row_translated r]> (memory c)) (durable c)).
Proof. intros Hm Hd. unfold Get, GetCachedTranslation. by rewrite Hm, Hd. Qed.

(** A miss in both tiers, or a failing query, is reported as "not found". *)
Lemma Get_miss st c s :
  memory c !! textutil.Hash s = None ->
  st = DbFails \/ durable c !! textutil.Hash s = None ->
  Get st c s = (([], false), c).
Proof.
  intros Hm Hd. unfold Get, GetCachedTranslation. rewrite Hm.
  destruct st; [|reflexivity]. destruct Hd as [?| ->]; [discriminate|reflexivity].
Qed.

End CacheTiers.

(** C8. The cache reads its own writes: after a [Set] of [s] to [t] that
    reported no error, [Get] of [s] returns [(t, true)], whatever the database
    does meanwhile. [Get] answers from memory when memory has the hash; only
    on a miss does it ask the durable tier, and a row found there is copied
    into memory. *)
Theorem cache_reads_own_writes (c : cache.TranslationCache) (s t : gostring) :
  (forall st c', cache.Set_ st c s t = (None, c') ->
     forall st', cache.Get st' c' s = ((t, true), c')) /\
  (forall v st, cache.memory c !! textutil.Hash s = Some v ->
     cache.Get st c s = ((v, true), c)) /\
  (forall r, cache.memory c !! textutil.Hash s = None ->
     cache.durable c !! textutil.Hash s = Some r ->
     cache.Get cache.DbOk c s
     = ((cache.row_translated r, true),
        cache.mkCache (<[textutil.Hash s := cache.row_translated r]> (cache.memory c))
                      (cache.durable c))) /\
  (forall st, cache.memory c !! textutil.Hash s = None ->
     st = cache.DbFails \/ cache.durable c !! textutil.Hash s = None ->
     cache.Get st c s = (([], false), c)).
Proof.
  split_and!.
  - intros st c' HSet st'. apply Get_memory_hit.
    pose proof (Set_memory st c s t) as Hm. rewrite HSet in Hm. cbn [snd] in Hm.
    rewrite Hm. apply lookup_insert_eq.
  - intros v st. apply Get_memory_hit.
  - intros r. apply Get_durable_hit.
  - intros st. apply Get_miss.
Qed.

Lemma cache_reads_own_writes_witness :
  cache.Set_ cache.DbOk (cache.NewTranslationCache ∅) (str "技能升级") (str "Kỹ năng nâng cấp")
  = (None, snd (cache.Set_ cache.DbOk (cache.NewTranslationCache ∅)
                  (str "技能升级") (str "Kỹ năng nâng cấp"))) /\
  cache.Get cache.DbFails
    (snd (cache.Set_ cache.DbOk (cache.NewTranslationCache ∅)
            (str "技能升级") (str "Kỹ năng nâng cấp")))
    (str "技能升级")
  = ((str "Kỹ năng nâng cấp", true),
     snd (cache.Set_ cache.DbOk (cache.NewTranslationCache ∅)
            (str "技能升级") (str "Kỹ năng nâng cấp"))).
Proof.
  split; [vm_compute; reflexivity|].
  apply (proj1 (cache_reads_own_writes (cache.NewTranslationCache ∅)
                  (str "技能升级") (str "Kỹ năng nâng cấp")) cache.DbOk).
  vm_compute; reflexivity.
Defined.

(** C10. When the write to the durable tier fails, [Set] returns an error,
    yet memory already holds the new translation: the table is as it was, and
    a [Get] of the same source text in the same process returns the new
    value. *)
Theorem Set_not_atomic_on_error (c : cache.TranslationCache) (s t : gostring) :
  let '(err, c') := cache.Set_ cache.DbFails c s t in
  err = Some (cache.ErrCacheSet cache.ErrDatabase) /\
  cache.memory c' !! textutil.Hash s = Some t /\
  cache.durable c' = cache.durable c /\
  forall st, cache.Get st c' s = ((t, true), c').
Proof.
  cbn. split_and!; [reflexivity| |reflexivity|].
  - apply lookup_insert_eq.
  - intros st. apply Get_memory_hit. cbn. apply lookup_insert_eq.
Qed.

(* ================================================================== *)
(** * Reconstruction without translations                              *)
(* ================================================================== *)

Section ReconstructEmpty.
Import GoLib parser.
Implicit Types (lines : list gostring) (et : ExtractedText).

(** Writing back the line that is already there changes nothing. *)
Lemma insert_line_at lines (idx : Z) :
  0 <= idx -> idx < Z.of_nat (length lines) ->
  <[Z.to_nat idx := line_at lines idx]> lines = lines.
Proof.
  intros H0 Hlt. apply list_insert_id. unfold line_at.
  destruct (lookup_lt_is_Some_2 lines (Z.to_nat idx)) as [l ->]; [lia|reflexivity].
Qed.

Lemma fold_left_id {A B} (f : A -> B -> A) (l : list B) (a : A) :
  (forall a b, f a b = a) -> fold_left f l a = a.
Proof. intros Hf. revert a. induction l as [|b l IH]; intros a; cbn; [done|]. by rewrite Hf. Qed.

Lemma reconstructTSV_step_empty lines et : reconstructTSV_step ∅ lines et = lines.
Proof.
  unfold reconstructTSV_step. rewrite lookup_empty. by destruct (_ || _).
Qed.

Lemma reconstructPlainText_step_empty lines et :
  reconstructPlainText_step ∅ lines et = lines.
Proof.
  unfold reconstructPlainText_step. rewrite lookup_empty. by destruct (_ || _).
Qed.

Lemma ini_step_empty lines et : ini_step ∅ lines et = lines.
Proof. unfold ini_step. rewrite lookup_empty. by destruct (_ || _). Qed.

Lemma replace_texts_empty (line : gostring) (texts : list ExtractedText) :
  replace_texts ∅ line texts = line.
Proof.
  unfold replace_texts. apply fold_left_id. intros a b. by rewrite lookup_empty.
Qed.

(** The Lua loop writes every visited line back unchanged. *)
Lemma lua_line_step_empty lines (entry : Z * list ExtractedText) :
  lua_line_step ∅ lines entry = lines.
Proof.
  destruct entry as [lineNum texts]. unfold lua_line_step.
  destruct (Z.ltb_spec (lineNum - 1) 0); cbn; [done|].
  destruct (Z.leb_spec (Z.of_nat (length lines)) (lineNum - 1)); cbn; [done|].
  rewrite replace_texts_empty. apply insert_line_at; lia.
Qed.

Lemma TXTParser_Reconstruct_empty (result : ParseResult) :
  TXTParser_Reconstruct result ∅ = join_lines (RawLines result).
Proof.
  unfold TXTParser_Reconstruct, reconstructTSV, reconstructPlainText.
  destruct (str_eqb _ _); f_equal; apply fold_left_id;
    auto using reconstructTSV_step_empty, reconstructPlainText_step_empty.
Qed.

Lemma INIParser_Reconstruct_empty (result : ParseResult) :
  INIParser_Reconstruct result ∅ = join_lines (RawLines result).
Proof.
  unfold INIParser_Reconstruct. f_equal. apply fold_left_id, ini_step_empty.
Qed.

Lemma LuaParser_Reconstruct_empty visit (result : ParseResult) :
  LuaParser_Reconstruct_in visit result ∅ = join_lines (RawLines result).
Proof.
  unfold LuaParser_Reconstruct_in. f_equal. apply fold_left_id, lua_line_step_empty.
Qed.

(** Joining with line feeds and closing with one more is the same as ending
    every line with a line feed, as soon as there is a line. *)
Lemma join_lines_terminated lines :
  lines <> [] -> join_lines lines = concat (map (fun l => l ++ newline) lines).
Proof.
  unfold join_lines. induction lines as [|l [|l' lines] IH]; intros Hne; [done|..].
  - cbn. by rewrite app_nil_r.
  - change (Join (l :: l' :: lines) newline) with (l ++ newline ++ Join (l' :: lines) newline).
    rewrite <- !app_assoc. rewrite IH by done. cbn [map concat]. by rewrite <- !app_assoc.
Qed.

End ReconstructEmpty.

(** C2. For each of the three parsers and every parse result, the
    reconstruction with an empty translation map is the raw lines joined by
    line feeds, with one more line feed at the end. For the Lua parser this
    holds for every order [visit] in which the loop over the grouped texts may
    run. *)
Theorem Reconstruct_empty_translations (p : parser.Parser)
  (visit : list (Z * list parser.ExtractedText)) (result : parser.ParseResult) :
  parser.Reconstruct p visit result ∅
  = GoLib.Join (parser.RawLines result) [ascii_of_nat 10] ++ [ascii_of_nat 10].
Proof.
  destruct p; cbn [parser.Reconstruct].
  - apply LuaParser_Reconstruct_empty.
  - apply INIParser_Reconstruct_empty.
  - apply TXTParser_Reconstruct_empty.
Qed.

(** In particular for what [TXTParser.Parse] returns: the lines it read come
    back. *)
Corollary TXTParser_roundtrip_empty (filePath : gostring) (rawLines : list gostring) :
  parser.TXTParser_Reconstruct (parser.TXTParser_Parse filePath rawLines) ∅
  = parser.join_lines rawLines.
Proof.
  rewrite TXTParser_Reconstruct_empty. unfold parser.TXTParser_Parse.
  by destruct (parser.detectTSV rawLines).
Qed.

(* ================================================================== *)
(** * TSV detection                                                    *)
(* ================================================================== *)

Section DetectTSV.
Import GoLib parser.

(** The ratio test of [detectTSV], for the counts a sample of at most twenty
    lines can produce: the float comparison is the comparison of the exact
    fractions. *)
Lemma ratio_test_exact (maxCount nonEmptyLines : Z) :
  0 <= maxCount <= 20 -> 1 <= nonEmptyLines <= 20 ->
  float64_gt (float64_div (float64_of_int maxCount) (float64_of_int nonEmptyLines))
             float64_0_6
  = (3 * nonEmptyLines <? 5 * maxCount).
Proof.
  intros Hm Hn.
  assert (Hall : forallb (fun m => forallb (fun n =>
            Bool.eqb
              (float64_gt (float64_div (float64_of_int (Z.of_nat m))
                                       (float64_of_int (Z.of_nat n))) float64_0_6)
              (3 * Z.of_nat n <? 5 * Z.of_nat m)) (seq 1 20)) (seq 0 21) = true)
    by (vm_compute; reflexivity).
  rewrite forallb_forall in Hall.
  specialize (Hall (Z.to_nat maxCount)). rewrite forallb_forall in Hall.
  specialize (Hall ltac:(apply in_seq; lia) (Z.to_nat nonEmptyLines) ltac:(apply in_seq; lia)).
  apply Bool.eqb_prop in Hall. rewrite !Z2Nat.id in Hall by lia. exact Hall.
Qed.

Lemma sample_line_blank acc line : blank line = true -> sample_line acc line = acc.
Proof. unfold sample_line, blank. destruct acc. by intros ->. Qed.

Lemma sample_line_tabs tabCounts n line :
  blank line = false -> 0 < CountByte line tab ->
  sample_line (tabCounts, n) line
  = (<[CountByte line tab := default 0 (tabCounts !! CountByte line tab) + 1]> tabCounts,
     n + 1).
Proof.
  unfold sample_line, blank. intros -> Hc.
  by replace (0 <? CountByte line tab) with true by lia.
Qed.

Lemma sample_line_no_tab tabCounts n line :
  CountByte line tab = 0 ->
  sample_line (tabCounts, n) line = (tabCounts, if blank line then n else n + 1).
Proof.
  unfold sample_line, blank. intros ->. by destruct (str_eqb _ _).
Qed.

Lemma max_value_singleton (k c : Z) : 0 <= c -> max_value {[k := c]} = c.
Proof.
  intros. unfold max_value. rewrite map_fold_singleton.
  destruct (Z.ltb_spec 0 c); lia.
Qed.

(** Lines without a tab leave the table of tab counts empty. *)
Lemma sample_no_tabs (lines : list gostring) :
  Forall (fun l => CountByte l tab = 0) lines ->
  forall n, exists n',
    fold_left sample_line lines (∅, n) = (∅, n') /\
    n <= n' <= n + Z.of_nat (length lines).
Proof.
  induction 1 as [|l lines Hl _ IH]; intros n; cbn [fold_left].
  - exists n. split; [done|]. cbn. lia.
  - rewrite sample_line_no_tab by done.
    destruct (IH (if blank l then n else n + 1)) as (n' & -> & Hn').
    exists n'. split; [done|]. cbn [length]. destruct (blank l); lia.
Qed.

Lemma detectTSV_two_lines (l1 l2 : gostring) :
  blank l1 = false \/ blank l2 = false ->
  0 < CountByte l1 tab -> CountByte l1 tab = CountByte l2 tab ->
  detectTSV [l1; l2] = true.
Proof.
  intros Hnb Hpos Heq. unfold detectTSV. cbn [length Nat.ltb Nat.leb firstn fold_left].
  destruct (blank l1) eqn:B1; destruct (blank l2) eqn:B2.
  - destruct Hnb; discriminate.
  - rewrite (sample_line_blank _ l1 B1), sample_line_tabs by (done || lia).
    rewrite lookup_empty. cbn [from_option id]. rewrite insert_empty.
    cbn [Z.eqb Z.add]. rewrite max_value_singleton by lia. by vm_compute.
  - rewrite (sample_line_tabs _ _ l1) by done.
    rewrite (sample_line_blank _ l2 B2).
    rewrite lookup_empty. cbn [from_option id]. rewrite insert_empty.
    cbn [Z.eqb Z.add]. rewrite max_value_singleton by lia. by vm_compute.
  - rewrite (sample_line_tabs _ _ l1) by done.
    rewrite sample_line_tabs by (done || lia).
    rewrite <- Heq, lookup_empty. cbn [from_option id]. rewrite lookup_insert_eq.
    rewrite insert_insert_eq, insert_empty. cbn [from_option id].
    rewrite max_value_singleton by lia. by vm_compute.
Qed.

Lemma detectTSV_no_tabs (lines : list gostring) :
  Forall (fun l => CountByte l tab = 0) lines -> detectTSV lines = false.
Proof.
  intros Hno. unfold detectTSV. destruct (_ <? _)%nat; [done|].
  assert (Hfirst : Forall (fun l => CountByte l tab = 0) (firstn 20 lines))
    by (by apply Forall_take).
  destruct (sample_no_tabs _ Hfirst 0) as (n & -> & Hn).
  rewrite length_take in Hn.
  destruct (Z.eqb_spec n 0); [done|].
  rewrite ratio_test_exact.
  - unfold max_value. rewrite map_fold_empty. lia.
  - unfold max_value. rewrite map_fold_empty. lia.
  - lia.
Qed.

(** Lines of white space only are passed over: a file of such lines, tabs or
    not, is not taken for tab-separated. *)
Lemma detectTSV_blank_lines (lines : list gostring) :
  Forall (fun l => blank l = true) lines -> detectTSV lines = false.
Proof.
  intros Hb. unfold detectTSV. destruct (length lines <? 2)%nat; [done|].
  assert (Hfold : forall (ls : list gostring) acc,
             Forall (fun l => blank l = true) ls -> fold_left sample_line ls acc = acc).
  { induction ls as [|l ls IH]; intros acc Hls; [done|].
    apply Forall_cons in Hls as [Hl Hls]. cbn [fold_left].
    rewrite sample_line_blank by done. by apply IH. }
  rewrite Hfold by by apply Forall_take. done.
Qed.

End DetectTSV.

(** C5. For every input of two lines that are not empty (each is more than
    white space, which is what the detector takes a non-empty line to be)
    and hold the same positive number of tabs, [detectTSV] returns [true];
    for every input in which no line holds a tab it returns [false]. For the
    first part it is enough that one of the two lines is more than white
    space. *)
Theorem detectTSV_detects (l1 l2 : gostring) (lines : list gostring) :
  (GoLib.TrimSpace l1 <> [] -> GoLib.TrimSpace l2 <> [] ->
   0 < GoLib.CountByte l1 parser.tab ->
   GoLib.CountByte l1 parser.tab = GoLib.CountByte l2 parser.tab ->
   parser.detectTSV [l1; l2] = true) /\
  (Forall (fun l => GoLib.CountByte l parser.tab = 0) lines ->
   parser.detectTSV lines = false) /\
  (GoLib.TrimSpace l1 <> [] \/ GoLib.TrimSpace l2 <> [] ->
   0 < GoLib.CountByte l1 parser.tab ->
   GoLib.CountByte l1 parser.tab = GoLib.CountByte l2 parser.tab ->
   parser.detectTSV [l1; l2] = true).
Proof.
  assert (Hone : GoLib.TrimSpace l1 <> [] \/ GoLib.TrimSpace l2 <> [] ->
                 0 < GoLib.CountByte l1 parser.tab ->
                 GoLib.CountByte l1 parser.tab = GoLib.CountByte l2 parser.tab ->
                 parser.detectTSV [l1; l2] = true).
  { intros Hnb. apply detectTSV_two_lines. unfold blank, GoLib.str_eqb.
    destruct Hnb; [left|right]; by apply bool_decide_eq_false_2. }
  split_and!.
  - intros H1 _. apply Hone. by left.
  - apply detectTSV_no_tabs.
  - exact Hone.
Qed.

Lemma detectTSV_detects_witness :
  GoLib.TrimSpace (str "1001" ++ [parser.tab] ++ str "reward") <> [] /\
  GoLib.TrimSpace (str "1002" ++ [parser.tab] ++ str "获得金币") <> [] /\
  0 < GoLib.CountByte (str "1001" ++ [parser.tab] ++ str "reward") parser.tab /\
  GoLib.CountByte (str "1001" ++ [parser.tab] ++ str "reward") parser.tab
  = GoLib.CountByte (str "1002" ++ [parser.tab] ++ str "获得金币") parser.tab /\
  parser.detectTSV [str "1001" ++ [parser.tab] ++ str "reward";
                    str "1002" ++ [parser.tab] ++ str "获得金币"] = true /\
  Forall (fun l => GoLib.CountByte l parser.tab = 0) [str "name"; str "技能"] /\
  parser.detectTSV [str "name"; str "技能"] = false.
Proof.
  assert (H1 : GoLib.TrimSpace (str "1001" ++ [parser.tab] ++ str "reward") <> [])
    by (vm_compute; discriminate).
  assert (H1' : GoLib.TrimSpace (str "1002" ++ [parser.tab] ++ str "获得金币") <> [])
    by (vm_compute; discriminate).
  assert (H2 : 0 < GoLib.CountByte (str "1001" ++ [parser.tab] ++ str "reward") parser.tab)
    by (vm_compute; reflexivity).
  assert (H3 : GoLib.CountByte (str "1001" ++ [parser.tab] ++ str "reward") parser.tab
               = GoLib.CountByte (str "1002" ++ [parser.tab] ++ str "获得金币") parser.tab)
    by (vm_compute; reflexivity).
  assert (H4 : Forall (fun l => GoLib.CountByte l parser.tab = 0) [str "name"; str "技能"])
    by (repeat constructor).
  split_and!; try assumption.
  - exact (proj1 (detectTSV_detects _ _ []) H1 H1' H2 H3).
  - exact (proj1 (proj2 (detectTSV_detects [] [] _)) H4).
Defined.

(* ================================================================== *)
(** * The [id] of a TSV row                                            *)
(* ================================================================== *)

Section TsvContext.
Import GoLib parser.

Lemma enumerate_In {A} (l : list A) (k i : Z) (x : A) :
  In (i, x) (enumerate k l) -> k <= i /\ l !! Z.to_nat (i - k) = Some x.
Proof.
  revert k. induction l as [|y l IH]; intros k Hin; cbn in Hin; [done|].
  destruct Hin as [[= <- <-]|Hin].
  - split; [lia|]. by rewrite Z.sub_diag.
  - apply IH in Hin as [Hk Hl]. split; [lia|].
    replace (Z.to_nat (i - k)) with (S (Z.to_nat (i - (k + 1)))) by lia. done.
Qed.

(** What one column contributes, and the context it is given. *)
Lemma tsv_column_In filePath lineNum cols colIdx col et :
  In et (tsv_column filePath lineNum cols colIdx col) ->
  cols !! Z.to_nat colIdx = Some col -> 0 <= colIdx ->
  isTranslatableColumn col = true /\
  Text et = col /\ Line et = lineNum + 1 /\ Column et = colIdx /\
  Context et !! str "file" = Some filePath /\
  Context et !! str "format" = Some (str "tsv") /\
  Context et !! str "id" = (if 0 <? colIdx then cols !! 0%nat else None).
Proof.
  unfold tsv_column. intros Hin Hcol H0.
  destruct (isTranslatableColumn col); cbn in Hin; [|done].
  destruct Hin as [<-|[]]. cbn [Text Line Column Context].
  assert (Hlen : (0 <? Z.of_nat (length cols)) = true).
  { apply lookup_lt_Some in Hcol. lia. }
  rewrite Hlen. cbn [andb]. split_and!; try done.
  - destruct (0 <? colIdx); [rewrite lookup_insert_ne by done|];
      rewrite lookup_insert_ne by done; apply lookup_insert_eq.
  - destruct (0 <? colIdx); [rewrite lookup_insert_ne by done|];
      apply lookup_insert_eq.
  - destruct (0 <? colIdx).
    + rewrite lookup_insert_eq. unfold line_at. cbn.
      destruct cols; [by apply lookup_lt_Some in Hcol|done].
    + by rewrite !lookup_insert_ne, lookup_empty by done.
Qed.

Lemma parseTSV_In filePath (rawLines : list gostring) (fileType : gostring) et :
  In et (Texts (parseTSV (mkParseResult filePath fileType [] rawLines) filePath)) ->
  exists line,
    rawLines !! Z.to_nat (Line et - 1) = Some line /\ 1 <= Line et /\
    0 <= Column et /\
    SplitByte line tab !! Z.to_nat (Column et) = Some (Text et) /\
    isTranslatableColumn (Text et) = true /\
    Context et !! str "id"
    = (if 0 <? Column et then SplitByte line tab !! 0%nat else None).
Proof.
  cbn [parseTSV Texts RawLines app]. intros Hin.
  apply in_flat_map in Hin as ([lineNum line] & Hline & Hin).
  apply enumerate_In in Hline as [Hl0 Hline]. rewrite Z.sub_0_r in Hline.
  unfold tsv_line in Hin. destruct (str_eqb _ _); [done|].
  apply in_flat_map in Hin as ([colIdx col] & Hcol & Hin).
  apply enumerate_In in Hcol as [Hc0 Hcol]. rewrite Z.sub_0_r in Hcol.
  apply tsv_column_In in Hin as (Htr & <- & -> & -> & _ & _ & Hid); [|done|done].
  exists line. replace (lineNum + 1 - 1) with lineNum by lia.
  split_and!; try done; lia.
Qed.

End TsvContext.

(** The claim C7 as it is worded gives every extracted column the [id] of
    its row. In the two-line file below the first column is itself
    translatable; the text extracted from it has no [id] in its context. *)
Lemma parseTSV_first_column_has_no_id :
  ~ (forall (filePath : gostring) (rawLines : list gostring) (et : parser.ExtractedText),
       parser.detectTSV rawLines = true ->
       In et (parser.Texts (parser.TXTParser_Parse filePath rawLines)) ->
       exists line,
         rawLines !! Z.to_nat (parser.Line et - 1) = Some line /\
         parser.Context et !! str "id" = GoLib.SplitByte line parser.tab !! 0%nat).
Proof.
  intros H.
  pose (rawLines := scenario.tsv_rows_text_first).
  assert (Hd : parser.detectTSV rawLines = true) by (vm_compute; reflexivity).
  destruct (parser.Texts (parser.TXTParser_Parse (str "data.txt") rawLines))
    as [|et rest] eqn:E; [vm_compute in E; discriminate|].
  destruct (H (str "data.txt") rawLines et Hd) as (line & Hline & Hid).
  { rewrite E. by left. }
  vm_compute in E. injection E as <- _.
  vm_compute in Hline. injection Hline as <-.
  vm_compute in Hid. discriminate.
Qed.

(** C7, amended. In a TSV-mode parse every extracted text is a translatable
    column of its row; when that column is not the first one, the context
    maps [id] to the first column of the row; when it is the first column
    itself, the context has no [id]. *)
Theorem parseTSV_id_context (filePath : gostring) (rawLines : list gostring)
  (et : parser.ExtractedText) :
  parser.detectTSV rawLines = true ->
  In et (parser.Texts (parser.TXTParser_Parse filePath rawLines)) ->
  exists line,
    rawLines !! Z.to_nat (parser.Line et - 1) = Some line /\
    GoLib.SplitByte line parser.tab !! Z.to_nat (parser.Column et) = Some (parser.Text et) /\
    0 <= parser.Column et /\
    (0 < parser.Column et ->
     parser.Context et !! str "id" = GoLib.SplitByte line parser.tab !! 0%nat) /\
    (parser.Column et = 0 -> parser.Context et !! str "id" = None).
Proof.
  intros Hd Hin. unfold parser.TXTParser_Parse in Hin. rewrite Hd in Hin.
  apply parseTSV_In in Hin as (line & Hline & Hl & Hc & Hcol & _ & Hid).
  exists line. split_and!; try done.
  - intros Hpos. rewrite Hid. by replace (0 <? parser.Column et) with true by lia.
  - intros Hz. rewrite Hid, Hz. done.
Qed.

Lemma parseTSV_id_context_witness :
  parser.detectTSV scenario.tsv_rows = true /\
  In scenario.tsv_first_text
     (parser.Texts (parser.TXTParser_Parse (str "data.txt") scenario.tsv_rows)) /\
  exists line,
    scenario.tsv_rows !! Z.to_nat (parser.Line scenario.tsv_first_text - 1) = Some line /\
    GoLib.SplitByte line parser.tab !! Z.to_nat (parser.Column scenario.tsv_first_text)
    = Some (parser.Text scenario.tsv_first_text) /\
    0 <= parser.Column scenario.tsv_first_text /\
    (0 < parser.Column scenario.tsv_first_text ->
     parser.Context scenario.tsv_first_text !! str "id"
     = GoLib.SplitByte line parser.tab !! 0%nat) /\
    (parser.Column scenario.tsv_first_text = 0 ->
     parser.Context scenario.tsv_first_text !! str "id" = None).
Proof.
  assert (Hd : parser.detectTSV scenario.tsv_rows = true) by (vm_compute; reflexivity).
  assert (Hin : In scenario.tsv_first_text
                  (parser.Texts (parser.TXTParser_Parse (str "data.txt") scenario.tsv_rows)))
    by (vm_compute; left; reflexivity).
  split; [exact Hd|]. split; [exact Hin|].
  exact (parseTSV_id_context (str "data.txt") scenario.tsv_rows scenario.tsv_first_text Hd Hin).
Defined.

(* ================================================================== *)
(** * Seeds mined from a hunk                                          *)
(* ================================================================== *)

Section MatchPairs.
Import GoLib seed.
Implicit Types (hunk : diffHunk) (visit : nat -> visits) (e : SeedEntry).
Variable toLower : Z -> Z.

(** One turn of the loop appends at most the seed of its own index. *)
Lemma match_pair_In visit hunk ext file entries i e :
  In e (match_pair toLower visit hunk ext file entries i) ->
  In e entries \/
  (well_formed_seed e /\ paired_at hunk ext i e /\ File e = file /\
   EntityType e = detectEntityType toLower (visit i) file (Function e) (SourceText e)).
Proof.
  unfold match_pair.
  destruct (removed hunk !! i) as [r|] eqn:Hr; [|by left].
  destruct (added hunk !! i) as [a|] eqn:Ha; [|by left].
  destruct (extractTextPair r a ext) as [[srcText dstText] fnName] eqn:Hx.
  unfold str_eqb.
  destruct (bool_decide (srcText = [])) eqn:Hs; [by left|].
  destruct (bool_decide (dstText = [])) eqn:Hd; [by left|].
  destruct (textutil.ContainsChinese srcText) eqn:Hc; [|by left].
  cbn. intros Hin. apply in_app_or in Hin as [Hin|[<-|[]]]; [by left|right].
  apply bool_decide_eq_false_1 in Hs, Hd.
  unfold well_formed_seed, paired_at. cbn. split_and!; try done.
  exists r, a. by rewrite Hx.
Qed.

Lemma matchPairs_loop_In visit hunk ext file (indices : list nat) entries e :
  In e (fold_left (match_pair toLower visit hunk ext file) indices entries) ->
  In e entries \/
  exists i, In i indices /\ well_formed_seed e /\ paired_at hunk ext i e /\ File e = file /\
            EntityType e = detectEntityType toLower (visit i) file (Function e) (SourceText e).
Proof.
  revert entries. induction indices as [|i indices IH]; intros entries Hin; cbn in Hin.
  - by left.
  - apply IH in Hin as [Hin|(j & Hj & H)].
    + apply match_pair_In in Hin as [Hin|H]; [by left|].
      right. exists i. split; [by left|done].
    + right. exists j. split; [by right|done].
Qed.

(** The seeds come out in the order of the line pairs. *)
Lemma matchPairs_in_order visit hunk ext file :
  matchPairs toLower visit hunk ext file
  = flat_map (match_pair toLower visit hunk ext file [])
      (seq 0 (Nat.min (length (removed hunk)) (length (added hunk)))).
Proof.
  unfold matchPairs.
  replace (if (length (added hunk) <? length (removed hunk))%nat
           then length (added hunk) else length (removed hunk))
    with (Nat.min (length (removed hunk)) (length (added hunk)))
    by (destruct (Nat.ltb_spec (length (added hunk)) (length (removed hunk))); lia).
  generalize (seq 0 (Nat.min (length (removed hunk)) (length (added hunk)))) as indices.
  assert (Hacc : forall indices entries,
             fold_left (match_pair toLower visit hunk ext file) indices entries
             = entries ++ flat_map (match_pair toLower visit hunk ext file []) indices).
  { induction indices as [|i indices IH]; intros entries; cbn.
    - by rewrite app_nil_r.
    - rewrite IH. rewrite app_assoc. f_equal.
      unfold match_pair. repeat case_match; by rewrite ?app_nil_r. }
  intros indices. by rewrite Hacc.
Qed.

(** One turn of the loop emits the seed of its index, or nothing. *)
Lemma match_pair_seed visit hunk ext file i :
  match_pair toLower visit hunk ext file [] i
  = option_list (seed_of_pair toLower visit hunk ext file i).
Proof.
  unfold match_pair, seed_of_pair.
  destruct (removed hunk !! i) as [r|]; [|done].
  destruct (added hunk !! i) as [a|]; [|done].
  destruct (extractTextPair r a ext) as [[s d] f]. unfold str_eqb, textutil.Hash.
  set (P := s <> [] /\ d <> [] /\ textutil.ContainsChinese s = true).
  destruct (decide (s = [])) as [Hs|Hs].
  { rewrite (bool_decide_eq_true_2 _ Hs), (bool_decide_eq_false_2 P); [done|].
    unfold P. tauto. }
  rewrite (bool_decide_eq_false_2 _ Hs). cbn [orb].
  destruct (decide (d = [])) as [Hd|Hd].
  { rewrite (bool_decide_eq_true_2 _ Hd), (bool_decide_eq_false_2 P); [done|].
    unfold P. tauto. }
  rewrite (bool_decide_eq_false_2 _ Hd). cbn [orb].
  destruct (textutil.ContainsChinese s) eqn:Hc; cbn [negb].
  - rewrite (bool_decide_eq_true_2 P); [done|]. unfold P. tauto.
  - rewrite (bool_decide_eq_false_2 P); [done|]. unfold P. intros (_ & _ & ?). discriminate.
Qed.

Lemma flat_map_option_list {A B} (f : A -> option B) (l : list A) :
  flat_map (fun x => option_list (f x)) l = omap f l.
Proof.
  induction l as [|x l IH]; [done|]. cbn [flat_map]. rewrite IH.
  cbn. by destruct (f x).
Qed.

End MatchPairs.

(** C6. Every seed [matchPairs] emits has a non-empty source text with a Han
    character in it, a non-empty target text, and as its hash the SHA-256 hex
    digest of the source text; it was extracted from the removed and the
    added line at one and the same index [i], below the length of the shorter
    of the two lists. And the pairs are formed for every index up to that
    length: what [matchPairs] returns is, in the order of the indices
    0, 1, ..., min(|removed|, |added|) - 1, the seed of the pair of each
    index whose source is not empty, whose target is not empty and whose
    source holds a Han character, and nothing else. *)
Theorem matchPairs_seed_invariant (toLower : Z -> Z) (visit : nat -> seed.visits)
  (hunk : seed.diffHunk) (ext file : gostring) :
  (forall e : seed.SeedEntry,
     In e (seed.matchPairs toLower visit hunk ext file) ->
     seed.SourceText e <> [] /\
     seed.TranslatedText e <> [] /\
     textutil.ContainsChinese (seed.SourceText e) = true /\
     seed.Hash e
     = GoLib.hex_encode (GoLib.SHA256.Sum256 (map byte_val (seed.SourceText e))) /\
     exists (i : nat) (r a : gostring),
       (i < Nat.min (length (seed.removed hunk)) (length (seed.added hunk)))%nat /\
       seed.removed hunk !! i = Some r /\ seed.added hunk !! i = Some a /\
       seed.extractTextPair r a ext
       = (seed.SourceText e, seed.TranslatedText e, seed.Function e)) /\
  seed.matchPairs toLower visit hunk ext file
  = omap (seed_of_pair toLower visit hunk ext file)
         (seq 0 (Nat.min (length (seed.removed hunk)) (length (seed.added hunk)))).
Proof.
  split.
  - unfold seed.matchPairs. intros e Hin.
    apply matchPairs_loop_In
      in Hin as [[]|(i & Hi & (Hs & Hd & Hc & Hh) & (r & a & Hr & Ha & Hx) & _)].
    split_and!; try done.
    exists i, r, a. split_and!; try done.
    apply lookup_lt_Some in Hr, Ha. lia.
  - rewrite matchPairs_in_order. rewrite <- flat_map_option_list.
    apply flat_map_ext. intros i. apply match_pair_seed.
Qed.

Lemma matchPairs_seed_invariant_witness :
  seed.matchPairs scenario.no_case_table (fun _ => scenario.as_listed) scenario.lua_hunk
    (str ".lua") (str "buff.lua")
  = [scenario.lua_seed] /\
  seed.SourceText scenario.lua_seed <> [] /\
  seed.TranslatedText scenario.lua_seed <> [] /\
  textutil.ContainsChinese (seed.SourceText scenario.lua_seed) = true /\
  seed.Hash scenario.lua_seed
  = GoLib.hex_encode
      (GoLib.SHA256.Sum256 (map byte_val (seed.SourceText scenario.lua_seed))) /\
  exists (i : nat) (r a : gostring),
    (i < Nat.min (length (seed.removed scenario.lua_hunk))
                 (length (seed.added scenario.lua_hunk)))%nat /\
    seed.removed scenario.lua_hunk !! i = Some r /\
    seed.added scenario.lua_hunk !! i = Some a /\
    seed.extractTextPair r a (str ".lua")
    = (seed.SourceText scenario.lua_seed, seed.TranslatedText scenario.lua_seed,
       seed.Function scenario.lua_seed).
Proof.
  destruct (matchPairs_seed_invariant scenario.no_case_table (fun _ => scenario.as_listed)
              scenario.lua_hunk (str ".lua") (str "buff.lua")) as [Hall Hseq].
  assert (Heq : seed.matchPairs scenario.no_case_table (fun _ => scenario.as_listed)
                  scenario.lua_hunk (str ".lua") (str "buff.lua")
                = [scenario.lua_seed]).
  { rewrite Hseq. vm_compute. reflexivity. }
  split; [exact Heq|].
  apply Hall. rewrite Heq. left. reflexivity.
Defined.

(* ================================================================== *)
(** * Entity-type inference                                            *)
(* ================================================================== *)

Section EntityType.
Import GoLib seed.
Implicit Types (hit : gostring -> bool) (entries visit : list (gostring * gostring)).

Lemma first_hit_Some hit entries entityType :
  first_hit hit entries = Some entityType ->
  exists key, In (key, entityType) entries /\ hit key = true.
Proof.
  induction entries as [|[key et] entries IH]; cbn; [done|].
  destruct (hit key) eqn:Hk.
  - intros [= <-]. exists key. split; [by left|done].
  - intros H. destruct (IH H) as (k & Hin & Hhit). exists k. split; [by right|done].
Qed.

Lemma first_hit_None hit entries :
  first_hit hit entries = None ->
  forall key entityType, In (key, entityType) entries -> hit key = false.
Proof.
  induction entries as [|[key et] entries IH]; cbn; [done|].
  destruct (hit key) eqn:Hk; [done|].
  intros H k e [[= <- <-]|Hin]; [done|]. by eapply IH.
Qed.

(** Two loops over the same entries agree as soon as all the keys that hit
    carry one value. *)
Lemma first_hit_unambiguous hit entries visit1 visit2 :
  visit1 ≡ₚ entries -> visit2 ≡ₚ entries ->
  (forall k1 e1 k2 e2, In (k1, e1) entries -> In (k2, e2) entries ->
     hit k1 = true -> hit k2 = true -> e1 = e2) ->
  first_hit hit visit1 = first_hit hit visit2.
Proof.
  intros P1 P2 Hone.
  destruct (first_hit hit visit1) as [e1|] eqn:E1;
    destruct (first_hit hit visit2) as [e2|] eqn:E2; [|..|done].
  - apply first_hit_Some in E1 as (k1 & Hin1 & H1).
    apply first_hit_Some in E2 as (k2 & Hin2 & H2).
    f_equal. apply (Hone k1 e1 k2 e2); [|  |done|done].
    + exact (Permutation_in _ P1 Hin1).
    + exact (Permutation_in _ P2 Hin2).
  - apply first_hit_Some in E1 as (k1 & Hin1 & H1).
    assert (Hin2 : In (k1, e1) visit2).
    { eapply Permutation_in; [symmetry; exact P2|]. exact (Permutation_in _ P1 Hin1). }
    pose proof (first_hit_None _ _ E2 _ _ Hin2) as Hno. congruence.
  - apply first_hit_Some in E2 as (k2 & Hin2 & H2).
    assert (Hin1 : In (k2, e2) visit1).
    { eapply Permutation_in; [symmetry; exact P1|]. exact (Permutation_in _ P2 Hin2). }
    pose proof (first_hit_None _ _ E1 _ _ Hin1) as Hno. congruence.
Qed.

(** The side condition of [first_hit_unambiguous], by evaluation. *)
Lemma unambiguous_by_check hit entries :
  forallb (fun '(k1, e1) =>
             forallb (fun '(k2, e2) =>
                        negb (hit k1 && hit k2) || bool_decide (e1 = e2))
                     entries) entries = true ->
  forall k1 e1 k2 e2, In (k1, e1) entries -> In (k2, e2) entries ->
    hit k1 = true -> hit k2 = true -> e1 = e2.
Proof.
  intros Hall k1 e1 k2 e2 Hin1 Hin2 H1 H2.
  rewrite forallb_forall in Hall. specialize (Hall _ Hin1). cbn in Hall.
  rewrite forallb_forall in Hall. specialize (Hall _ Hin2). cbn in Hall.
  rewrite H1, H2 in Hall. cbn in Hall. by apply bool_decide_eq_true_1 in Hall.
Qed.

(** The loop returns at the first entry, in the order of the visit, whose key
    hits. *)
Lemma first_hit_first hit entries entityType :
  first_hit hit entries = Some entityType ->
  exists before key after,
    entries = before ++ (key, entityType) :: after /\ hit key = true /\
    forall k t, In (k, t) before -> hit k = false.
Proof.
  induction entries as [|[key et] entries IH]; cbn; [done|].
  destruct (hit key) eqn:Hk.
  - intros [= <-]. exists [], key, entries. split_and!; [done|done|]. intros ? ? [].
  - intros H. destruct (IH H) as (before & k & after & -> & Hhit & Hmiss).
    exists ((key, et) :: before), k, after. split_and!; [done|done|].
    intros k' t' [[= <- <-]|Hin]; [done|]. by eapply Hmiss.
Qed.

Lemma first_hit_all_miss hit entries :
  (forall key entityType, In (key, entityType) entries -> hit key = false) ->
  first_hit hit entries = None.
Proof.
  induction entries as [|[key et] entries IH]; intros Hmiss; cbn; [done|].
  rewrite (Hmiss key et) by by left. apply IH. intros k t Hin. apply (Hmiss k t). by right.
Qed.

(** Any entry of a map may be the one a loop over the map meets first. *)
Lemma may_come_first (entries : list (gostring * gostring)) (entry : gostring * gostring) :
  In entry entries -> exists rest, entry :: rest ≡ₚ entries.
Proof.
  intros Hin. apply in_split in Hin as (l1 & l2 & ->).
  exists (l1 ++ l2). apply Permutation_middle.
Qed.

End EntityType.

(** The claim C4 as it is worded makes two calls of [detectEntityType] agree
    on every input. For a file named [skill_buff.lua] the call that meets the
    patterns as the source lists them answers [skill], and the call that meets
    them in the opposite order answers [buff]; both orders are orders a Go
    map may be visited in. The name is ASCII, so this is so whatever the case
    tables of the library are. *)
Lemma detectEntityType_depends_on_map_order :
  ~ (exists toLower : Z -> Z,
       forall (v1 v2 : seed.visits) (file function text : gostring),
         seed.go_visits v1 -> seed.go_visits v2 ->
         seed.detectEntityType toLower v1 file function text
         = seed.detectEntityType toLower v2 file function text).
Proof.
  intros [toLower H].
  specialize (H scenario.as_listed scenario.patterns_reversed (str "skill_buff.lua") [] []).
  assert (H1 : seed.detectEntityType toLower scenario.as_listed (str "skill_buff.lua") [] []
               = str "skill") by (vm_compute; reflexivity).
  assert (H2 : seed.detectEntityType toLower scenario.patterns_reversed
                 (str "skill_buff.lua") [] []
               = str "buff") by (vm_compute; reflexivity).
  rewrite H1, H2 in H.
  assert (Heq : str "skill" = str "buff"); [|discriminate].
  apply H.
  - split; reflexivity.
  - split; [|reflexivity]. cbn [seed.visit_patterns scenario.patterns_reversed].
    symmetry. apply Permutation_rev.
Qed.

(** C4, amended. A call returns the entity type of the first entry, in the
    order in which its loop meets the entries of the pattern map, whose key
    is contained in the lower-cased file or function name; if no pattern key
    is contained, that of the first entry, in the order of its loop over the
    term map, whose key is contained in the text; if none is either,
    [general]. The keys are not sorted and the order is that of the Go map.
    Calls on the same input return the same type in every two orders exactly
    when the pattern keys that match carry one type and, in case no pattern
    key matches, the terms that match carry one type. *)
Theorem detectEntityType_first_match (toLower : Z -> Z) (file function text : gostring) :
  let hit := fun pattern => GoLib.Contains (GoLib.ToLower toLower file) pattern
                            || GoLib.Contains (GoLib.ToLower toLower function) pattern in
  let found := fun term => GoLib.Contains text term in
  (forall v : seed.visits, seed.go_visits v ->
     let entityType := seed.detectEntityType toLower v file function text in
     (exists before pattern after,
        seed.visit_patterns v = before ++ (pattern, entityType) :: after /\
        hit pattern = true /\
        forall k t, In (k, t) before -> hit k = false) \/
     ((forall k t, In (k, t) seed.entityPatterns -> hit k = false) /\
      exists before term after,
        seed.visit_terms v = before ++ (term, entityType) :: after /\
        found term = true /\
        forall k t, In (k, t) before -> found k = false) \/
     ((forall k t, In (k, t) seed.entityPatterns -> hit k = false) /\
      (forall k t, In (k, t) seed.termEntityMap -> found k = false) /\
      entityType = str "general")) /\
  ((forall v1 v2 : seed.visits, seed.go_visits v1 -> seed.go_visits v2 ->
      seed.detectEntityType toLower v1 file function text
      = seed.detectEntityType toLower v2 file function text)
   <->
   ((forall k1 e1 k2 e2,
       In (k1, e1) seed.entityPatterns -> In (k2, e2) seed.entityPatterns ->
       hit k1 = true -> hit k2 = true -> e1 = e2) /\
    ((forall k t, In (k, t) seed.entityPatterns -> hit k = false) ->
     forall k1 e1 k2 e2,
       In (k1, e1) seed.termEntityMap -> In (k2, e2) seed.termEntityMap ->
       found k1 = true -> found k2 = true -> e1 = e2))).
Proof.
  intros hit found. split; [|split].
  - intros v [P T] entityType. subst entityType.
    unfold seed.detectEntityType. fold hit. fold found.
    destruct (seed.first_hit hit (seed.visit_patterns v)) as [e|] eqn:E.
    + left. by apply first_hit_first.
    + right.
      assert (Hnone : forall k t, In (k, t) seed.entityPatterns -> hit k = false).
      { intros k t Hin. eapply first_hit_None; [exact E|].
        eapply Permutation_in; [symmetry; exact P|done]. }
      destruct (seed.first_hit found (seed.visit_terms v)) as [e|] eqn:E'.
      * left. split; [done|]. by apply first_hit_first.
      * right. split_and!; [done| |done].
        intros k t Hin. eapply first_hit_None; [exact E'|].
        eapply Permutation_in; [symmetry; exact T|done].
  - intros Hsame. split.
    + intros k1 e1 k2 e2 Hin1 Hin2 H1 H2.
      destruct (may_come_first _ _ Hin1) as (rest1 & P1).
      destruct (may_come_first _ _ Hin2) as (rest2 & P2).
      specialize (Hsame (seed.mkVisits ((k1, e1) :: rest1) seed.termEntityMap)
                        (seed.mkVisits ((k2, e2) :: rest2) seed.termEntityMap)).
      unfold seed.detectEntityType in Hsame. fold hit in Hsame.
      cbn [seed.visit_patterns seed.first_hit] in Hsame. rewrite H1, H2 in Hsame.
      apply Hsame; by split.
    + intros Hnone k1 e1 k2 e2 Hin1 Hin2 H1 H2.
      destruct (may_come_first _ _ Hin1) as (rest1 & T1).
      destruct (may_come_first _ _ Hin2) as (rest2 & T2).
      specialize (Hsame (seed.mkVisits seed.entityPatterns ((k1, e1) :: rest1))
                        (seed.mkVisits seed.entityPatterns ((k2, e2) :: rest2))).
      unfold seed.detectEntityType in Hsame. fold hit in Hsame. fold found in Hsame.
      cbn [seed.visit_patterns seed.visit_terms] in Hsame.
      rewrite (first_hit_all_miss hit seed.entityPatterns Hnone) in Hsame.
      cbn [seed.first_hit] in Hsame. rewrite H1, H2 in Hsame.
      apply Hsame; by split.
  - intros [Hp Ht] v1 v2 [P1 T1] [P2 T2].
    unfold seed.detectEntityType. fold hit. fold found.
    rewrite (first_hit_unambiguous hit seed.entityPatterns _ _ P2 P1 Hp).
    destruct (seed.first_hit hit (seed.visit_patterns v1)) as [e|] eqn:E; [done|].
    assert (Hnone : forall k t, In (k, t) seed.entityPatterns -> hit k = false).
    { intros k t Hin. eapply first_hit_None; [exact E|].
      eapply Permutation_in; [symmetry; exact P1|done]. }
    by rewrite (first_hit_unambiguous found seed.termEntityMap _ _ T1 T2 (Ht Hnone)).
Qed.

Lemma detectEntityType_first_match_witness :
  seed.go_visits scenario.as_listed /\ seed.go_visits scenario.patterns_reversed /\
  seed.detectEntityType scenario.no_case_table scenario.as_listed
    (str "data/Quest.lua") [] (str "任务完成")
  = str "quest" /\
  seed.detectEntityType scenario.no_case_table scenario.patterns_reversed
    (str "data/Quest.lua") [] (str "任务完成")
  = seed.detectEntityType scenario.no_case_table scenario.as_listed
      (str "data/Quest.lua") [] (str "任务完成").
Proof.
  assert (G1 : seed.go_visits scenario.as_listed) by (split; reflexivity).
  assert (G2 : seed.go_visits scenario.patterns_reversed).
  { split; [|reflexivity]. cbn [seed.visit_patterns scenario.patterns_reversed].
    symmetry. apply Permutation_rev. }
  split; [exact G1|]. split; [exact G2|]. split; [vm_compute; reflexivity|].
  destruct (detectEntityType_first_match scenario.no_case_table
              (str "data/Quest.lua") [] (str "任务完成")) as [_ [_ Hsame]].
  apply Hsame; [|exact G2|exact G1].
  split; [|intros _]; apply unambiguous_by_check; vm_compute; reflexivity.
Defined.

(* ================================================================== *)
(** * Retries of the translator client                                 *)
(* ================================================================== *)

Section Retries.
Import translation.

(** Closes a goal that lists the possible outcomes once the outcome at hand
    is known. *)
Ltac pick := cbn; first [left; reflexivity | right; pick].

(** [Translate] makes at most three requests, the second after a backoff of
    two seconds and the third after a backoff of four; a backoff is cut short
    when the context is done. *)
Lemma Translate_schedule (env : Z -> attempt_env) :
  In (snd (Translate env))
     [ [Request 0];
       [Request 0; BackoffAborted 2];
       [Request 0; Backoff 2; Request 1];
       [Request 0; Backoff 2; Request 1; BackoffAborted 4];
       [Request 0; Backoff 2; Request 1; Backoff 4; Request 2] ].
Proof.
  unfold Translate. change (Z.to_nat maxRetries) with 3%nat.
  cbn [translate_loop Z.ltb Z.compare andb snd].
  destruct (doRequest (exchanged (env 0))); [pick|].
  destruct (done_after_request (env 0)); [pick|].
  destruct (done_during_backoff (env (0 + 1))); [pick|].
  destruct (doRequest (exchanged (env (0 + 1)))); [pick|].
  destruct (done_after_request (env (0 + 1))); [pick|].
  destruct (done_during_backoff (env (0 + 1 + 1))); [pick|].
  destruct (doRequest (exchanged (env (0 + 1 + 1)))); [pick|].
  destruct (done_after_request (env (0 + 1 + 1))); pick.
Qed.

(** The only errors [doRequest] words as retryable are those of the statuses
    429 and 5xx. *)
Lemma doRequest_retryable (x : exchange) (status : Z) :
  doRequest x = inr (ErrRetryable status) ->
  exists b, x = Response status b /\ (status = 429 \/ 500 <= status).
Proof.
  destruct x as [| | |code b]; cbn; try discriminate.
  destruct (Z.eqb_spec code StatusTooManyRequests); cbn.
  - intros [= <-]. exists b. split; [done|]. by left.
  - destruct (Z.leb_spec 500 code); cbn.
    + intros [= <-]. exists b. split; [done|]. by right.
    + destruct (code =? StatusOK); cbn; [destruct b|]; discriminate.
Qed.

(** The loop does not look at the error: a failed request is followed by the
    next turn unless the context is done, whatever the failure was. *)
Lemma Translate_retries_every_error (env : Z -> attempt_env) (err : request_error) :
  doRequest (exchanged (env 0)) = inr err ->
  done_after_request (env 0) = false ->
  done_during_backoff (env 1) = false ->
  In (Request 1) (snd (Translate env)).
Proof.
  intros Herr Hafter Hwait. unfold Translate. change (Z.to_nat maxRetries) with 3%nat.
  cbn [translate_loop Z.ltb Z.compare andb snd].
  rewrite Herr, Hafter. change (0 + 1) with 1. rewrite Hwait. cbn.
  destruct (doRequest (exchanged (env 1))); [pick|].
  destruct (done_after_request (env 1)); [pick|].
  destruct (done_during_backoff (env (1 + 1))); [pick|].
  destruct (doRequest (exchanged (env (1 + 1)))); [pick|].
  destruct (done_after_request (env (1 + 1))); pick.
Qed.

End Retries.

(** C3, at a server that answers 400 to every request. The claim has such a
    response end the call at once. [doRequest] words the error as an API
    error, not as a retryable one, yet [Translate] goes on: three requests,
    with backoffs of two and four seconds, before it gives up. *)
Theorem Translate_retries_status_400 :
  translation.doRequest (translation.exchanged (scenario.always_400 0))
  = inr (translation.ErrAPIStatus 400) /\
  translation.Translate scenario.always_400
  = (inr (translation.ErrFailedAfter 3 (Some (translation.ErrAPIStatus 400))),
     [ translation.Request 0;
       translation.Backoff 2; translation.Request 1;
       translation.Backoff 4; translation.Request 2 ]).
Proof. split; reflexivity. Qed.

(* ================================================================== *)
(** * More on placeholders: the sort, the numbering, lost placeholders *)
(* ================================================================== *)

Section SortVarMatches.
Import GoLib interpolation.

Lemma moves_false (m key : varMatch) : moves m key = false <-> may_precede m key.
Proof.
  unfold moves, may_precede. rewrite orb_false_iff, andb_false_iff.
  rewrite !Z.ltb_ge, Z.eqb_neq. lia.
Qed.

Lemma moves_true (m key : varMatch) : moves m key = true -> may_precede key m.
Proof.
  unfold moves, may_precede. rewrite orb_true_iff, andb_true_iff.
  rewrite !Z.ltb_lt, Z.eqb_eq. lia.
Qed.

Lemma may_precede_trans (a b c : varMatch) :
  may_precede a b -> may_precede b c -> may_precede a c.
Proof. unfold may_precede. lia. Qed.

Lemma insert_back_perm (key : varMatch) (acc : list varMatch) :
  insert_back key acc ≡ₚ key :: acc.
Proof.
  induction acc as [|m acc IH]; cbn; [done|].
  destruct (moves m key); [|done]. rewrite IH. apply perm_swap.
Qed.

(** The prefix is kept sorted, seen from its last element backwards. *)
Lemma insert_back_sorted (key : varMatch) (acc : list varMatch) :
  StronglySorted (fun x y => may_precede y x) acc ->
  StronglySorted (fun x y => may_precede y x) (insert_back key acc).
Proof.
  induction 1 as [|m acc Hs IH Hm]; cbn.
  - repeat constructor.
  - destruct (moves m key) eqn:E.
    + constructor; [done|].
      rewrite List.Forall_forall in *. intros x Hx.
      apply (Permutation_in _ (insert_back_perm key acc)) in Hx as [<-|Hx].
      * by apply moves_true.
      * by apply Hm.
    + apply moves_false in E. constructor; [by constructor|].
      constructor; [done|].
      rewrite List.Forall_forall in *. intros x Hx.
      eapply may_precede_trans; [apply Hm, Hx|done].
Qed.

Lemma StronglySorted_snoc {A} (R : A -> A -> Prop) (l : list A) (x : A) :
  StronglySorted R l -> Forall (fun y => R y x) l -> StronglySorted R (l ++ [x]).
Proof.
  induction 1 as [|y l Hs IH Hy]; intros Hx; cbn.
  - repeat constructor.
  - apply Forall_cons in Hx as [Hyx Hx]. constructor; [by apply IH|].
    apply Forall_app. split; [done|]. by constructor.
Qed.

Lemma StronglySorted_rev_flip {A} (R : A -> A -> Prop) (l : list A) :
  StronglySorted (fun x y => R y x) l -> StronglySorted R (rev l).
Proof.
  induction 1 as [|y l Hs IH Hy]; cbn; [constructor|].
  apply StronglySorted_snoc; [done|].
  rewrite List.Forall_forall in *. intros x Hx. apply Hy. by apply in_rev.
Qed.

End SortVarMatches.

(** X1. [sortVarMatches] returns the matches it was given, each once, ordered
    by start offset and, among matches that start at the same offset, the
    longer before the shorter. *)
Theorem sortVarMatches_sorts (matches : list interpolation.varMatch) :
  interpolation.sortVarMatches matches ≡ₚ matches /\
  StronglySorted
    (fun a b => interpolation.start a < interpolation.start b \/
                (interpolation.start a = interpolation.start b /\
                 interpolation.end_ b - interpolation.start b
                 <= interpolation.end_ a - interpolation.start a))
    (interpolation.sortVarMatches matches).
Proof.
  unfold interpolation.sortVarMatches.
  assert (Hgen : forall ms acc,
    StronglySorted (fun x y => may_precede y x) acc ->
    fold_left (fun prefix_rev key => interpolation.insert_back key prefix_rev) ms acc
      ≡ₚ rev ms ++ acc /\
    StronglySorted (fun x y => may_precede y x)
      (fold_left (fun prefix_rev key => interpolation.insert_back key prefix_rev) ms acc)).
  { induction ms as [|m ms IH]; intros acc Hacc; cbn [fold_left rev].
    - split; [done|done].
    - destruct (IH (interpolation.insert_back m acc)) as [Hp Hs];
        [by apply insert_back_sorted|].
      split; [|done]. rewrite Hp, insert_back_perm, <- app_assoc. done. }
  destruct (Hgen matches []) as [Hp Hs]; [constructor|]. split.
  - rewrite <- Permutation_rev, Hp, app_nil_r. symmetry. apply Permutation_rev.
  - by apply StronglySorted_rev_flip in Hs.
Qed.

Section ProtectNumbering.
Import GoLib interpolation.

(** No pattern matches the empty string. *)
Lemma patterns_nonempty (p : gostring -> option nat) (s : gostring) (len : nat) :
  In p patterns -> p s = Some len -> (0 < len)%nat.
Proof.
  intros Hp. cbn in Hp. destruct Hp as [<-|[<-|[<-|[<-|[]]]]].
  - unfold pat_dollar. repeat (case_match; try discriminate). intros [= <-]. lia.
  - unfold pat_index. repeat (case_match; try discriminate). intros [= <-]. lia.
  - unfold pat_format. destruct s as [|c t]; [discriminate|].
    repeat (case_match; try discriminate); intros [= <-]; lia.
  - unfold pat_percent. repeat (case_match; try discriminate). intros [= <-]. lia.
Qed.

Lemma find_all_nonempty (p : gostring -> option nat) :
  (forall s len, p s = Some len -> (0 < len)%nat) ->
  forall s pos skip a b, In (a, b) (find_all p s pos skip) -> a < b.
Proof.
  intros Hp. induction s as [|c s IH]; intros pos skip a b Hin; cbn in Hin; [done|].
  destruct skip as [|k]; [|by eapply IH].
  destruct (p (c :: s)) as [len|] eqn:E; [|by eapply IH].
  destruct Hin as [[= <- <-]|Hin]; [|by eapply IH].
  apply Hp in E. lia.
Qed.

Lemma all_matches_nonempty (text : gostring) (m : varMatch) :
  In m (all_matches text) -> start m < end_ m.
Proof.
  unfold all_matches. intros Hin.
  apply in_flat_map in Hin as (p & Hp & Hin).
  apply in_map_iff in Hin as ([a b] & <- & Hin). cbn.
  eapply find_all_nonempty; [|exact Hin].
  intros s len. by apply patterns_nonempty.
Qed.

Lemma remove_overlaps_In (ms : list varMatch) (lastEnd : Z) (m : varMatch) :
  In m (remove_overlaps ms lastEnd) -> In m ms.
Proof.
  revert lastEnd. induction ms as [|x ms IH]; intros lastEnd; cbn; [done|].
  destruct (lastEnd <=? start x); cbn; [intros [->|H]|intros H]; eauto.
Qed.

(** The matches [Protect] replaces: found by a pattern, non-empty, inside the
    text. *)
Lemma filtered_matches (text : gostring) (m : varMatch) :
  In m (remove_overlaps (sortVarMatches (all_matches text)) (-1)) ->
  in_text text m /\ start m < end_ m.
Proof.
  intros Hin. apply remove_overlaps_In, sortVarMatches_In in Hin. split.
  - pose proof (all_matches_in_text text) as Hall.
    rewrite List.Forall_forall in Hall. by apply Hall.
  - by eapply all_matches_nonempty.
Qed.

Lemma Protect_mappings (text : gostring) :
  snd (Protect text)
  = mappings_of 0 (match all_matches text with
                   | [] => []
                   | _ :: _ => remove_overlaps (sortVarMatches (all_matches text)) (-1)
                   end).
Proof.
  unfold Protect. destruct (all_matches text) as [|m0 ms0] eqn:E; [done|].
  rewrite <- E. rewrite (protect_loop_render text _ 0 0); [done|lia|lia|].
  eapply chained_from_zero, remove_overlaps_chained.
  apply List.Forall_forall. intros m Hm. apply sortVarMatches_In in Hm.
  revert m Hm. apply List.Forall_forall, all_matches_in_text.
Qed.

Lemma mappings_of_Index (i : Z) (ms : list varMatch) :
  map Index (mappings_of i ms) = map (fun k => i + Z.of_nat k + 1) (seq 0 (length ms)).
Proof.
  revert i. induction ms as [|m ms IH]; intros i; cbn; [done|].
  f_equal; [lia|]. rewrite IH, <- seq_shift, map_map.
  apply map_ext. intros k. lia.
Qed.

Lemma mappings_of_Forall (P : Mapping -> Prop) (i : Z) (ms : list varMatch) :
  (forall j m, In m ms -> P (mkMapping (value m) (placeholder_of j) j)) ->
  Forall P (mappings_of i ms).
Proof.
  revert i. induction ms as [|m ms IH]; intros i HP; cbn; constructor.
  - apply HP. by left.
  - apply IH. intros j x Hx. apply HP. by right.
Qed.

(** A string without [{{var_] holds no placeholder, so replacing one in it
    changes nothing. *)
Lemma Replace1_absent (s old new : gostring) :
  Contains s old = false -> Replace1 s old new = s.
Proof.
  induction s as [|c s IH]; intros H.
  - rewrite Replace1_unfold. apply Contains_false_head in H. by rewrite H.
  - rewrite Replace1_unfold. rewrite (Contains_false_head _ _ H).
    f_equal. apply IH. by eapply Contains_false_tail.
Qed.

Lemma Contains_longer (s p q : gostring) :
  Contains s p = false -> Contains s (p ++ q) = false.
Proof.
  unfold Contains. induction s as [|c s IH]; cbn [GoLib.Index].
  - destruct (HasPrefix [] p) eqn:E; [done|]. intros _.
    destruct (HasPrefix [] (p ++ q)) eqn:E'; [|done].
    apply HasPrefix_weaken in E'. congruence.
  - destruct (HasPrefix (c :: s) p) eqn:E; [done|].
    destruct (GoLib.Index s p) eqn:Ei; [done|]. intros _.
    destruct (HasPrefix (c :: s) (p ++ q)) eqn:E'.
    + apply HasPrefix_weaken in E'. congruence.
    + specialize (IH eq_refl). by destruct (GoLib.Index s (p ++ q)).
Qed.

End ProtectNumbering.

(** X2. The mappings [Protect] returns are numbered 1, 2, ... in order; each
    has the placeholder of its number, and its original is a non-empty slice
    of the text. *)
Theorem Protect_mappings_numbered (text : gostring) :
  map interpolation.Index (snd (interpolation.Protect text))
  = map (fun k => Z.of_nat k + 1) (seq 0 (length (snd (interpolation.Protect text)))) /\
  Forall (fun m =>
            interpolation.Placeholder m
            = str "{{var_" ++ GoLib.itoa (interpolation.Index m) ++ str "}}" /\
            exists a b, 0 <= a /\ a < b /\ b <= Z.of_nat (length text) /\
                        interpolation.Original m = GoLib.slice text a b)
         (snd (interpolation.Protect text)).
Proof.
  rewrite Protect_mappings. split.
  - rewrite mappings_of_Index.
    replace (length (mappings_of 0 _)) with
      (length (match interpolation.all_matches text with
               | [] => []
               | _ :: _ => interpolation.remove_overlaps
                             (interpolation.sortVarMatches (interpolation.all_matches text)) (-1)
               end)).
    + apply map_ext. intros k. lia.
    + generalize 0. generalize (match interpolation.all_matches text with
               | [] => []
               | _ :: _ => interpolation.remove_overlaps
                             (interpolation.sortVarMatches (interpolation.all_matches text)) (-1)
               end) as ms.
      induction ms as [|m ms IH]; intros i; cbn; [done|]. by rewrite <- IH.
  - apply mappings_of_Forall. intros j m Hm. cbn. split; [done|].
    destruct (interpolation.all_matches text) as [|m0 ms0] eqn:E; [done|].
    rewrite <- E in Hm. apply filtered_matches in Hm as [(H0 & Hse & Hel & Hval) Hne].
    exists (interpolation.start m), (interpolation.end_ m). split_and!; try done.
Qed.

(** X3. When the translated text holds no [{{var_] at all (the placeholders
    were lost in translation), [Restore] returns it unchanged: the originals
    are dropped without a trace. *)
Theorem Restore_lost_placeholders (text translated : gostring) :
  GoLib.Contains translated (str "{{var_") = false ->
  interpolation.Restore translated (snd (interpolation.Protect text)) = translated.
Proof.
  intros Hclean. rewrite Protect_mappings.
  generalize 0. generalize (match interpolation.all_matches text with
               | [] => []
               | _ :: _ => interpolation.remove_overlaps
                             (interpolation.sortVarMatches (interpolation.all_matches text)) (-1)
               end) as ms.
  induction ms as [|m ms IH]; intros i; cbn [mappings_of]; [done|].
  rewrite Restore_cons. cbn [interpolation.Placeholder interpolation.Original].
  rewrite Replace1_absent; [apply IH|].
  rewrite placeholder_of_var_prefix. by apply Contains_longer.
Qed.

Lemma Restore_lost_placeholders_witness :
  GoLib.Contains (str "Nhận được vàng") (str "{{var_") = false /\
  interpolation.Restore (str "Nhận được vàng")
    (snd (interpolation.Protect (str "获得%d金币")))
  = str "Nhận được vàng".
Proof.
  split; [vm_compute; reflexivity|].
  apply Restore_lost_placeholders. vm_compute. reflexivity.
Defined.

(* ================================================================== *)
(** * More on the parsers                                              *)
(* ================================================================== *)

Section TranslatableColumn.
Import GoLib parser.

(** Every rune of the Han script lies outside ASCII. *)
Lemma Han_not_ASCII (r : Z) : in_ranges Han r = true -> (127 <? r) = true.
Proof.
  unfold in_ranges. rewrite existsb_exists. intros ([lo hi] & Hin & Hr).
  unfold in_range in Hr. apply andb_true_iff in Hr as [Hlo Hhi].
  cbn in Hin. repeat (destruct Hin as [[= <- <-]|Hin]; [lia|]). done.
Qed.

(** The test for a rune outside ASCII is implied by the test for a Han
    character. *)
Lemma isTranslatableColumn_unfold (col : gostring) :
  isTranslatableColumn col
  = textutil.ContainsChinese col && (2 <=? RuneCountInString col).
Proof.
  unfold isTranslatableColumn, str_eqb.
  destruct (bool_decide (col = [])) eqn:E.
  - apply bool_decide_eq_true_1 in E. by subst.
  - cbn [orb]. destruct (textutil.ContainsChinese col) eqn:Hc; [|done]. cbn [negb andb].
    replace (existsb (fun r => 127 <? r) (runes col)) with true; [done|].
    symmetry. unfold textutil.ContainsChinese in Hc.
    apply existsb_exists in Hc as (r & Hin & Hr). apply existsb_exists.
    exists r. split; [done|]. by apply Han_not_ASCII.
Qed.

End TranslatableColumn.

(** X4. A TSV column is translatable exactly when it holds a Han character
    and has at least two runes: the test for a rune outside ASCII can never
    fail once a Han character was found, and a column of a single Han
    character is never translated. *)
Theorem isTranslatableColumn_iff (col : gostring) :
  parser.isTranslatableColumn col
  = textutil.ContainsChinese col && (2 <=? GoLib.RuneCountInString col).
Proof. apply isTranslatableColumn_unfold. Qed.

Section TxtTexts.
Import GoLib parser.

Lemma plain_line_In filePath lineNum line et :
  In et (plain_line filePath lineNum line) ->
  Text et = TrimSpace line /\ textutil.ContainsChinese (Text et) = true /\
  Line et = lineNum + 1 /\ Column et = -1 /\ File et = filePath /\
  Context et !! str "file" = Some filePath.
Proof.
  unfold plain_line, str_eqb.
  destruct (bool_decide (TrimSpace line = [])); [done|].
  destruct (textutil.ContainsChinese (TrimSpace line)) eqn:Hc; [|done].
  cbn. intros [<-|[]]. cbn. split_and!; done.
Qed.

Lemma enumerate_lookup {A} (l : list A) (k i : Z) (x : A) :
  In (i, x) (enumerate k l) -> i - k < Z.of_nat (length l).
Proof.
  intros Hin. apply enumerate_In in Hin as [Hk Hl].
  apply lookup_lt_Some in Hl. lia.
Qed.

End TxtTexts.

(** X5. Every text [TXTParser.Parse] extracts holds a Han character, names
    the file it came from, and points to a line of the file; in plain mode it
    is the trimmed line and has column -1, in TSV mode it is the column of
    that line its column index names. *)
Theorem TXTParser_Parse_texts (filePath : gostring) (rawLines : list gostring)
  (et : parser.ExtractedText) :
  In et (parser.Texts (parser.TXTParser_Parse filePath rawLines)) ->
  textutil.ContainsChinese (parser.Text et) = true /\
  parser.File et = filePath /\
  parser.Context et !! str "file" = Some filePath /\
  exists line,
    rawLines !! Z.to_nat (parser.Line et - 1) = Some line /\ 1 <= parser.Line et /\
    if parser.detectTSV rawLines
    then 0 <= parser.Column et /\
         GoLib.SplitByte line parser.tab !! Z.to_nat (parser.Column et)
         = Some (parser.Text et)
    else parser.Column et = -1 /\ parser.Text et = GoLib.TrimSpace line.
Proof.
  unfold parser.TXTParser_Parse. destruct (parser.detectTSV rawLines) eqn:Hd.
  - cbn [parser.parseTSV parser.Texts parser.RawLines app]. intros Hin.
    apply in_flat_map in Hin as ([lineNum line] & Hline & Hin).
    apply enumerate_In in Hline as [Hl0 Hline]. rewrite Z.sub_0_r in Hline.
    unfold parser.tsv_line in Hin. destruct (GoLib.str_eqb _ _); [done|].
    apply in_flat_map in Hin as ([colIdx col] & Hcol & Hin).
    apply enumerate_In in Hcol as [Hc0 Hcol]. rewrite Z.sub_0_r in Hcol.
    assert (Hfile : parser.File et = filePath).
    { unfold parser.tsv_column in Hin.
      destruct (parser.isTranslatableColumn col); cbn in Hin; [|done].
      by destruct Hin as [<-|[]]. }
    apply tsv_column_In in Hin as (Htr & Ht & Hl & Hc & Hf & _ & _); [|done|done].
    rewrite isTranslatableColumn_unfold in Htr. apply andb_true_iff in Htr as [Hhan _].
    split_and!; try done; [by rewrite Ht|].
    exists line. rewrite Hl, Hc, Ht. replace (lineNum + 1 - 1) with lineNum by lia.
    split_and!; try done; lia.
  - cbn [parser.parsePlainText parser.Texts parser.RawLines app]. intros Hin.
    apply in_flat_map in Hin as ([lineNum line] & Hline & Hin).
    apply enumerate_In in Hline as [Hl0 Hline]. rewrite Z.sub_0_r in Hline.
    apply plain_line_In in Hin as (Ht & Hhan & Hl & Hc & Hf & Hctx).
    split_and!; try done.
    exists line. rewrite Hl. replace (lineNum + 1 - 1) with lineNum by lia.
    split_and!; try done; lia.
Qed.

Lemma TXTParser_Parse_texts_witness :
  In scenario.tsv_first_text
     (parser.Texts (parser.TXTParser_Parse (str "data.txt") scenario.tsv_rows)) /\
  textutil.ContainsChinese (parser.Text scenario.tsv_first_text) = true /\
  parser.File scenario.tsv_first_text = str "data.txt".
Proof.
  assert (Hin : In scenario.tsv_first_text
                  (parser.Texts (parser.TXTParser_Parse (str "data.txt") scenario.tsv_rows)))
    by (vm_compute; left; reflexivity).
  split; [exact Hin|].
  destruct (TXTParser_Parse_texts _ _ _ Hin) as (H1 & H2 & _).
  exact (conj H1 H2).
Defined.

(* ================================================================== *)
(** * More on TSV detection                                            *)
(* ================================================================== *)

Section DetectThreshold.
Import GoLib parser.

Lemma sample_line_sampled acc seen line :
  sampled acc seen -> sampled (sample_line acc line) (seen + 1).
Proof.
  destruct acc as [tabCounts n]. intros [Hn Hc]. cbn in Hn, Hc.
  unfold sample_line. destruct (str_eqb _ _).
  - split; cbn; [lia|done].
  - destruct (0 <? CountByte line tab).
    + split; cbn; [lia|]. intros k c.
      destruct (decide (CountByte line tab = k)) as [<-|Hne].
      * rewrite lookup_insert_eq. intros [= <-].
        destruct (tabCounts !! CountByte line tab) as [c0|] eqn:E; cbn; [|lia].
        apply Hc in E. lia.
      * rewrite lookup_insert_ne by done. intros E. apply Hc in E. lia.
    + split; cbn; [lia|]. intros k c E. apply Hc in E. lia.
Qed.

Lemma sample_lines_sampled (lines : list gostring) acc seen :
  sampled acc seen ->
  sampled (fold_left sample_line lines acc) (seen + Z.of_nat (length lines)).
Proof.
  revert acc seen. induction lines as [|l lines IH]; intros acc seen H; cbn [fold_left length].
  - by rewrite Z.add_0_r.
  - replace (seen + Z.of_nat (S (length lines)))
      with (seen + 1 + Z.of_nat (length lines)) by lia.
    by apply IH, sample_line_sampled.
Qed.

Lemma max_value_bounds (tabCounts : gmap Z Z) (n : Z) :
  0 <= n -> (forall k c, tabCounts !! k = Some c -> 1 <= c <= n) ->
  0 <= max_value tabCounts <= n.
Proof.
  intros Hn. unfold max_value.
  apply (map_fold_weak_ind
           (fun r m => (forall k c, m !! k = Some c -> 1 <= c <= n) -> 0 <= r <= n)).
  - lia.
  - intros k c m r Hnone IH Hall.
    assert (1 <= c <= n) by (apply (Hall k); apply lookup_insert_eq).
    assert (0 <= r <= n).
    { apply IH. intros k' c' Hk'. apply (Hall k').
      rewrite lookup_insert_ne; [done|]. intros ->. congruence. }
    destruct (r <? c); lia.
Qed.

End DetectThreshold.

(** X6. [detectTSV] looks at the first twenty lines only, and its float test
    is exact: the answer is [true] if and only if there are at least two
    lines and, among the first twenty, the commonest positive tab count is
    shared by strictly more than three fifths of the non-blank lines. *)
Theorem detectTSV_threshold (lines : list gostring) :
  parser.detectTSV lines = parser.detectTSV (firstn 20 lines) /\
  parser.detectTSV lines
  = (2 <=? length lines)%nat &&
    (3 * snd (fold_left parser.sample_line (firstn 20 lines) (∅, 0))
     <? 5 * parser.max_value (fst (fold_left parser.sample_line (firstn 20 lines) (∅, 0)))).
Proof.
  assert (Hexact : forall ls : list gostring,
    parser.detectTSV ls
    = (2 <=? length ls)%nat &&
      (3 * snd (fold_left parser.sample_line (firstn 20 ls) (∅, 0))
       <? 5 * parser.max_value (fst (fold_left parser.sample_line (firstn 20 ls) (∅, 0))))).
  { intros ls. unfold parser.detectTSV.
    destruct (Nat.ltb_spec (length ls) 2) as [Hlt|Hge].
    - by replace (2 <=? length ls)%nat with false by (symmetry; apply Nat.leb_gt; lia).
    - replace (2 <=? length ls)%nat with true by (symmetry; apply Nat.leb_le; lia).
      cbn [andb].
      pose proof (sample_lines_sampled (firstn 20 ls) (∅, 0) 0) as Hs.
      destruct (fold_left parser.sample_line (firstn 20 ls) (∅, 0)) as [tabCounts n].
      destruct Hs as [Hn Hc]; [split; cbn; [lia|done]|]. cbn in Hn, Hc. cbn [fst snd].
      rewrite length_take in Hn.
      pose proof (max_value_bounds tabCounts n ltac:(lia) Hc) as Hmax.
      destruct (Z.eqb_spec n 0) as [->|Hn0].
      + symmetry. apply Z.ltb_ge. lia.
      + apply ratio_test_exact; lia. }
  split; [|apply Hexact].
  rewrite (Hexact lines), (Hexact (firstn 20 lines)).
  rewrite take_take, Nat.min_id, length_take. f_equal.
  destruct (Nat.leb_spec 2 (length lines)), (Nat.leb_spec 2 (20 `min` length lines)); lia.
Qed.

(* ================================================================== *)
(** * More on reconstruction                                           *)
(* ================================================================== *)

Section LuaOrder.
Import GoLib parser.
Implicit Types (lines : list gostring) (tr : gmap gostring gostring).

Lemma lua_line_step_length tr lines entry :
  length (lua_line_step tr lines entry) = length lines.
Proof.
  destruct entry as [lineNum texts]. unfold lua_line_step.
  destruct (_ || _); [done|]. apply length_insert.
Qed.

(** Two turns of the Lua loop for different line numbers can be swapped. *)
Lemma lua_line_step_commute tr lines (e1 e2 : Z * list ExtractedText) :
  fst e1 <> fst e2 ->
  lua_line_step tr (lua_line_step tr lines e2) e1
  = lua_line_step tr (lua_line_step tr lines e1) e2.
Proof.
  destruct e1 as [n1 t1], e2 as [n2 t2]. cbn [fst]. intros Hne.
  unfold lua_line_step at 1 3. rewrite !lua_line_step_length.
  unfold lua_line_step.
  destruct (Z.ltb_spec (n1 - 1) 0); cbn [orb]; [done|].
  destruct (Z.leb_spec (Z.of_nat (length lines)) (n1 - 1)); cbn [orb]; [done|].
  destruct (Z.ltb_spec (n2 - 1) 0); cbn [orb]; [done|].
  destruct (Z.leb_spec (Z.of_nat (length lines)) (n2 - 1)); cbn [orb]; [done|].
  assert (Hnat : Z.to_nat (n1 - 1) <> Z.to_nat (n2 - 1)) by lia.
  unfold line_at. rewrite !list_lookup_insert_ne by done.
  by apply list_insert_insert_ne.
Qed.

End LuaOrder.

(** X7. The Lua reconstructor loops over a Go map, but its result does not
    depend on the order of that loop: any two orders that visit every group
    of the grouped texts once give the same bytes. *)
Theorem LuaParser_Reconstruct_order_irrelevant (result : parser.ParseResult)
  (translations : gmap gostring gostring)
  (visit1 visit2 : list (Z * list parser.ExtractedText)) :
  parser.range_order (parser.group_by_line (parser.Texts result)) visit1 ->
  parser.range_order (parser.group_by_line (parser.Texts result)) visit2 ->
  parser.LuaParser_Reconstruct_in visit1 result translations
  = parser.LuaParser_Reconstruct_in visit2 result translations.
Proof.
  unfold parser.range_order, parser.LuaParser_Reconstruct_in. intros H1 H2.
  f_equal.
  rewrite <- !(fold_left_rev_right
                 (fun entry lines => parser.lua_line_step translations lines entry)).
  apply (foldr_permutation (=)
           (fun entry lines => parser.lua_line_step translations lines entry)).
  - intros e ls1 ls2 ->. reflexivity.
  - intros j1 e1 j2 e2 lines Hj Hl1 Hl2. apply lua_line_step_commute.
    assert (Hnd : NoDup (rev visit1).*1).
    { rewrite <- Permutation_rev, H1. apply NoDup_fst_map_to_list. }
    intros Heq. apply Hj. eapply NoDup_lookup; [exact Hnd|..].
    + by rewrite list_lookup_fmap, Hl1.
    + rewrite list_lookup_fmap, Hl2. cbn. by rewrite Heq.
  - by rewrite <- !Permutation_rev, H1, H2.
Qed.

Lemma LuaParser_Reconstruct_order_irrelevant_witness :
  parser.range_order (parser.group_by_line (parser.Texts scenario.lua_result))
    (map_to_list (parser.group_by_line (parser.Texts scenario.lua_result))) /\
  parser.range_order (parser.group_by_line (parser.Texts scenario.lua_result))
    (rev (map_to_list (parser.group_by_line (parser.Texts scenario.lua_result)))) /\
  parser.LuaParser_Reconstruct_in
    (map_to_list (parser.group_by_line (parser.Texts scenario.lua_result)))
    scenario.lua_result scenario.lua_translations
  = parser.LuaParser_Reconstruct_in
      (rev (map_to_list (parser.group_by_line (parser.Texts scenario.lua_result))))
      scenario.lua_result scenario.lua_translations.
Proof.
  assert (H1 : parser.range_order (parser.group_by_line (parser.Texts scenario.lua_result))
                 (map_to_list (parser.group_by_line (parser.Texts scenario.lua_result))))
    by (unfold parser.range_order; reflexivity).
  assert (H2 : parser.range_order (parser.group_by_line (parser.Texts scenario.lua_result))
                 (rev (map_to_list (parser.group_by_line (parser.Texts scenario.lua_result)))))
    by (unfold parser.range_order; symmetry; apply Permutation_rev).
  split; [exact H1|]. split; [exact H2|].
  exact (LuaParser_Reconstruct_order_irrelevant _ _ _ _ H1 H2).
Defined.

Section LinesKept.
Import GoLib parser.
Implicit Types (lines : list gostring) (tr : gmap gostring gostring).

(** A loop that rewrites, in each turn, at most the line its element points
    to keeps the number of lines and every line no element points to. *)
Lemma fold_left_lines_kept {A} (step : list gostring -> A -> list gostring)
  (target : A -> Z) (xs : list A) lines :
  (forall ls x, length (step ls x) = length ls) ->
  (forall ls x i, Z.of_nat i <> target x -> step ls x !! i = ls !! i) ->
  length (fold_left step xs lines) = length lines /\
  forall i, (forall x, In x xs -> target x <> Z.of_nat i) ->
            fold_left step xs lines !! i = lines !! i.
Proof.
  intros Hlen Hother. revert lines.
  induction xs as [|x xs IH]; intros lines; cbn [fold_left]; [done|].
  destruct (IH (step lines x)) as [IHlen IHi]. split.
  - by rewrite IHlen, Hlen.
  - intros i Hi. rewrite IHi by (intros y Hy; apply Hi; by right).
    apply Hother. intros Heq. apply (Hi x); [by left|done].
Qed.

Lemma insert_other lines (idx : Z) (new : gostring) (i : nat) :
  0 <= idx -> Z.of_nat i <> idx -> <[Z.to_nat idx := new]> lines !! i = lines !! i.
Proof. intros. apply list_lookup_insert_ne. lia. Qed.

Lemma reconstructTSV_step_kept tr :
  (forall ls et, length (reconstructTSV_step tr ls et) = length ls) /\
  (forall ls et i, Z.of_nat i <> Line et - 1 -> reconstructTSV_step tr ls et !! i = ls !! i).
Proof.
  split; intros ls et; unfold reconstructTSV_step.
  - destruct (_ || _); [done|]. destruct (tr !! _); [|done]. apply length_insert.
  - intros i Hi. destruct (Z.ltb_spec (Line et - 1) 0); cbn [orb]; [done|].
    destruct (_ <=? _); [done|]. destruct (tr !! _); [|done]. by apply insert_other.
Qed.

Lemma reconstructPlainText_step_kept tr :
  (forall ls et, length (reconstructPlainText_step tr ls et) = length ls) /\
  (forall ls et i, Z.of_nat i <> Line et - 1 ->
                   reconstructPlainText_step tr ls et !! i = ls !! i).
Proof.
  split; intros ls et; unfold reconstructPlainText_step.
  - destruct (_ || _); [done|]. destruct (tr !! _); [|done]. apply length_insert.
  - intros i Hi. destruct (Z.ltb_spec (Line et - 1) 0); cbn [orb]; [done|].
    destruct (_ <=? _); [done|]. destruct (tr !! _); [|done]. by apply insert_other.
Qed.

Lemma ini_step_kept tr :
  (forall ls et, length (ini_step tr ls et) = length ls) /\
  (forall ls et i, Z.of_nat i <> Line et - 1 -> ini_step tr ls et !! i = ls !! i).
Proof.
  split; intros ls et; unfold ini_step.
  - destruct (_ || _); [done|]. destruct (tr !! _); [|done].
    destruct (GoLib.Index _ _); [|done]. apply length_insert.
  - intros i Hi. destruct (Z.ltb_spec (Line et - 1) 0); cbn [orb]; [done|].
    destruct (_ <=? _); [done|]. destruct (tr !! _); [|done].
    destruct (GoLib.Index _ _); [|done]. by apply insert_other.
Qed.

Lemma lua_line_step_kept tr :
  (forall ls (e : Z * list ExtractedText), length (lua_line_step tr ls e) = length ls) /\
  (forall ls (e : Z * list ExtractedText) i,
     Z.of_nat i <> fst e - 1 -> lua_line_step tr ls e !! i = ls !! i).
Proof.
  split; intros ls e; [apply lua_line_step_length|].
  destruct e as [lineNum texts]. cbn [fst]. unfold lua_line_step.
  intros i Hi. destruct (Z.ltb_spec (lineNum - 1) 0); cbn [orb]; [done|].
  destruct (_ <=? _); [done|]. by apply insert_other.
Qed.

End LinesKept.

(** X8. Whatever the translations, a reconstructor returns the joined lines
    of a list that has as many lines as the file had, and in which every line
    that no extracted text points to (for Lua: no visited group) is the line
    of the file, byte for byte. *)
Theorem Reconstruct_keeps_other_lines (p : parser.Parser)
  (visit : list (Z * list parser.ExtractedText)) (result : parser.ParseResult)
  (translations : gmap gostring gostring) :
  exists lines,
    parser.Reconstruct p visit result translations = parser.join_lines lines /\
    length lines = length (parser.RawLines result) /\
    forall i : nat,
      match p with
      | parser.LuaParser => forall e, In e visit -> fst e - 1 <> Z.of_nat i
      | _ => forall et, In et (parser.Texts result) -> parser.Line et - 1 <> Z.of_nat i
      end ->
      lines !! i = parser.RawLines result !! i.
Proof.
  destruct p; cbn [parser.Reconstruct].
  - eexists. split; [reflexivity|].
    apply (fold_left_lines_kept _ (fun e => fst e - 1)); apply lua_line_step_kept.
  - eexists. split; [reflexivity|].
    apply (fold_left_lines_kept _ (fun et => parser.Line et - 1)); apply ini_step_kept.
  - unfold parser.TXTParser_Reconstruct. destruct (GoLib.str_eqb _ _).
    + eexists. split; [reflexivity|].
      apply (fold_left_lines_kept _ (fun et => parser.Line et - 1));
        apply reconstructTSV_step_kept.
    + eexists. split; [reflexivity|].
      apply (fold_left_lines_kept _ (fun et => parser.Line et - 1));
        apply reconstructPlainText_step_kept.
Qed.

(* ================================================================== *)
(** * More on batching, and truncation                                 *)
(* ================================================================== *)

Section BatchCount.
Import GoLib worker.
Context {T : Type}.
Implicit Types (items : list T) (batchSize i : Z).

Lemma Batch_from_length items batchSize :
  0 < batchSize ->
  forall (n : nat) i, 0 <= i -> Z.of_nat (length items) - i <= Z.of_nat n ->
    Z.of_nat (length (Batch_from items batchSize i))
    = Z.max 0 ((Z.of_nat (length items) - i + batchSize - 1) / batchSize).
Proof.
  intros Hb. induction n as [|n IH]; intros i Hi Hn.
  - rewrite Batch_from_done by lia. cbn [length].
    assert ((Z.of_nat (length items) - i + batchSize - 1) / batchSize <= 0); [|lia].
    apply Z.lt_succ_r, Z.div_lt_upper_bound; lia.
  - destruct (Z_lt_dec i (Z.of_nat (length items))) as [Hlt|Hge].
    + rewrite Batch_from_step by lia. cbn [length]. rewrite Nat2Z.inj_succ.
      rewrite IH by lia.
      replace (Z.of_nat (length items) - i + batchSize - 1)
        with (Z.of_nat (length items) - (i + batchSize) + batchSize - 1 + 1 * batchSize)
        by lia.
      rewrite Z.div_add by lia.
      assert (0 <= (Z.of_nat (length items) - (i + batchSize) + batchSize - 1) / batchSize)
        by (apply Z.div_pos; lia).
      lia.
    + rewrite Batch_from_done by lia. cbn [length].
      assert ((Z.of_nat (length items) - i + batchSize - 1) / batchSize <= 0); [|lia].
      apply Z.lt_succ_r, Z.div_lt_upper_bound; lia.
Qed.

Lemma Batch_from_singletons items :
  forall (n : nat) i, 0 <= i -> Z.of_nat (length items) - i <= Z.of_nat n ->
    Batch_from items 1 i = map (fun x => [x]) (slice_from items i).
Proof.
  induction n as [|n IH]; intros i Hi Hn.
  - rewrite Batch_from_done by lia. by rewrite slice_from_ge by lia.
  - destruct (Z_lt_dec i (Z.of_nat (length items))) as [Hlt|Hge].
    + rewrite Batch_from_step by lia. rewrite IH by lia.
      replace (Z.min (Z.of_nat (length items)) (i + 1)) with (i + 1) by lia.
      unfold slice, slice_from.
      replace (Z.to_nat (i + 1) - Z.to_nat i)%nat with 1%nat by lia.
      replace (Z.to_nat (i + 1)) with (S (Z.to_nat i)) by lia.
      destruct (lookup_lt_is_Some_2 items (Z.to_nat i)) as [x Hx]; [lia|].
      rewrite (drop_S _ _ _ Hx). done.
    + rewrite Batch_from_done by lia. by rewrite slice_from_ge by lia.
Qed.

End BatchCount.

(** X9. [Batch] returns as many chunks as the length of the list divided by
    the size, rounded up, the size being taken as one when it is not
    positive; with a size of one or less every item is a chunk of its own. *)
Theorem Batch_count {T} (items : list T) (size : Z) :
  Z.of_nat (length (worker.Batch items size))
  = (Z.of_nat (length items) + Z.max 1 size - 1) / Z.max 1 size /\
  (size <= 1 -> worker.Batch items size = map (fun x => [x]) items).
Proof.
  unfold worker.Batch. split.
  - destruct (Z.leb_spec size 0).
    + rewrite (Batch_from_length items 1 ltac:(lia) (length items) 0) by lia.
      replace (Z.max 1 size) with 1 by lia.
      rewrite Z.sub_0_r, !Z.div_1_r. lia.
    + rewrite (Batch_from_length items size ltac:(lia) (length items) 0) by lia.
      replace (Z.max 1 size) with size by lia. rewrite Z.sub_0_r.
      assert (0 <= (Z.of_nat (length items) + size - 1) / size) by (apply Z.div_pos; lia).
      lia.
  - intros Hs.
    replace (if size <=? 0 then 1 else size) with 1 by (destruct (Z.leb_spec size 0); lia).
    by rewrite (Batch_from_singletons items (length items) 0) by lia.
Qed.

(** X10. For a non-negative [maxLen], [Truncate] returns the string itself
    when it has at most [maxLen] bytes and otherwise its first [maxLen] bytes
    followed by three dots, so never more than [maxLen + 3] bytes; for a
    negative [maxLen] it panics on every string, the empty one included. *)
Theorem Truncate_bounds (s : gostring) (maxLen : Z) :
  (maxLen < 0 -> textutil.Truncate s maxLen = None) /\
  (0 <= maxLen ->
   exists r, textutil.Truncate s maxLen = Some r /\
             Z.of_nat (length r) <= maxLen + 3 /\
             (Z.of_nat (length s) <= maxLen -> r = s) /\
             (maxLen < Z.of_nat (length s) ->
              r = firstn (Z.to_nat maxLen) s ++ str "..." /\
              Z.of_nat (length r) = maxLen + 3)).
Proof.
  unfold textutil.Truncate. split.
  - intros Hneg. destruct (Z.leb_spec (Z.of_nat (length s)) maxLen); [lia|].
    destruct (Z.ltb_spec maxLen 0); [done|lia].
  - intros Hpos. destruct (Z.leb_spec (Z.of_nat (length s)) maxLen).
    + exists s. split_and!; try done; intros; first [lia | exfalso; lia | split; [done|lia]].
    + destruct (Z.ltb_spec maxLen 0); [lia|].
      eexists. split; [reflexivity|]. rewrite slice_0.
      rewrite length_app, length_take. cbn [length str list_ascii_of_string].
      split_and!; try done; intros; first [lia | exfalso; lia | split; [done|lia]].
Qed.

(* ================================================================== *)
(** * More on the cache: preloading, coherence, batches                *)
(* ================================================================== *)

Section CacheMore.
Import GoLib cache.
Implicit Types (c : TranslationCache) (m : gmap gostring gostring).

Lemma load_absent rows : forall m h,
  ~ In h (map fst rows) -> fold_left load_row rows m !! h = m !! h.
Proof.
  induction rows as [|[k t] rows IH]; intros m h Hh; [done|].
  cbn [fold_left]. rewrite IH by (intros ?; apply Hh; by right).
  cbn. apply lookup_insert_ne. intros ->. apply Hh. by left.
Qed.

Lemma load_present rows : forall m h t,
  List.NoDup (map fst rows) -> In (h, t) rows -> fold_left load_row rows m !! h = Some t.
Proof.
  induction rows as [|[k t'] rows IH]; intros m h t Hnd Hin; [done|].
  cbn [map fst] in Hnd. apply List.NoDup_cons_iff in Hnd as [Hk Hnd].
  cbn [fold_left]. destruct Hin as [[= -> ->]|Hin].
  - rewrite load_absent by done. cbn. apply lookup_insert_eq.
  - by apply IH.
Qed.

Lemma rows_of_table (table : gmap gostring row) h t :
  In (h, t) (map (fun '(hash, r) => (hash, row_translated r)) (map_to_list table))
  <-> exists r, table !! h = Some r /\ row_translated r = t.
Proof.
  rewrite in_map_iff. split.
  - intros [[k r] [[= -> <-] Hin]]. exists r. split; [|done].
    apply elem_of_map_to_list. by apply list_elem_of_In.
  - intros (r & Hr & <-). exists (h, r). split; [done|].
    apply list_elem_of_In. by apply elem_of_map_to_list.
Qed.

Lemma rows_of_table_keys (table : gmap gostring row) :
  map fst (map (fun '(hash, r) => (hash, row_translated r)) (map_to_list table))
  = map fst (map_to_list table).
Proof. rewrite map_map. apply map_ext. by intros [k r]. Qed.

Lemma Preload_memory c h :
  memory (snd (Preload DbOk c)) !! h
  = match durable c !! h with
    | Some r => Some (row_translated r)
    | None => memory c !! h
    end.
Proof.
  cbn. change (fun (memory : gmap gostring gostring) '(hash, translated) =>
            <[hash := translated]> memory) with load_row.
  destruct (durable c !! h) as [r|] eqn:Hr.
  - apply load_present.
    + rewrite rows_of_table_keys. apply NoDup_ListNoDup, NoDup_fst_map_to_list.
    + apply rows_of_table. eauto.
  - apply load_absent. rewrite rows_of_table_keys. intros Hin.
    apply in_map_iff in Hin as [[k r] [Hk Hin]]. cbn in Hk. subst k.
    apply list_elem_of_In, elem_of_map_to_list in Hin. congruence.
Qed.

Lemma coherent_Get st c s : coherent c -> coherent (snd (Get st c s)).
Proof.
  intros Hc. unfold Get. destruct (memory c !! textutil.Hash s) eqn:Hm; [done|].
  destruct st; cbn; [|done].
  destruct (durable c !! textutil.Hash s) as [r|] eqn:Hr; [|done].
  intros h v. cbn. destruct (decide (h = textutil.Hash s)) as [->|Hne].
  - rewrite lookup_insert_eq. intros [= <-]. eauto.
  - rewrite lookup_insert_ne by done. apply Hc.
Qed.

Lemma coherent_Set c s t : coherent c -> coherent (snd (Set_ DbOk c s t)).
Proof.
  intros Hc. unfold coherent, Set_, UpsertCachedTranslation.
  destruct (durable c !! textutil.Hash s) as [r|] eqn:Hr; cbn;
    intros h v; (destruct (decide (h = textutil.Hash s)) as [->|Hne];
      [rewrite !lookup_insert_eq; intros [= <-]; eauto
      |rewrite !lookup_insert_ne by done; apply Hc]).
Qed.

Lemma coherent_Preload st c : coherent c -> coherent (snd (Preload st c)).
Proof.
  intros Hc. destruct st; [|done]. intros h v.
  rewrite Preload_memory. cbn [Preload ListAllCachedTranslations snd durable].
  destruct (durable c !! h) as [r|] eqn:Hr.
  - intros [= <-]. eauto.
  - intros Hm. destruct (Hc _ _ Hm) as (r & Hr' & _). congruence.
Qed.

Lemma SetBatch_from_ok (st : nat -> db_status) visit : forall k c,
  (forall j, (j < length visit)%nat -> st (k + j)%nat = DbOk) ->
  exists c', SetBatch_from st k visit c = (None, c') /\
             memory c' = put_all visit (memory c).
Proof.
  induction visit as [|[s t] visit IH]; intros k c Hok; [by exists c|].
  cbn [SetBatch_from].
  assert (st k = DbOk) as Hk.
  { specialize (Hok 0%nat). rewrite Nat.add_0_r in Hok. apply Hok. cbn. lia. }
  pose proof (Set_memory (st k) c s t) as Hm.
  destruct (Set_ (st k) c s t) as [[err|] c1] eqn:HS.
  - exfalso. rewrite Hk in HS. unfold Set_, UpsertCachedTranslation in HS.
    destruct (durable c !! _); discriminate.
  - destruct (IH (S k) c1) as (c' & HB & Hmem).
    { intros j Hj. replace (S k + j)%nat with (k + S j)%nat by lia.
      apply Hok. cbn. lia. }
    exists c'. split; [done|]. rewrite Hmem. cbn in Hm. by rewrite Hm.
Qed.

Lemma SetBatch_from_fails (st : nat -> db_status) visit : forall k c j,
  (j < length visit)%nat -> st (k + j)%nat = DbFails ->
  (forall i, (i < j)%nat -> st (k + i)%nat = DbOk) ->
  exists c', SetBatch_from st k visit c = (Some (ErrCacheSet ErrDatabase), c') /\
             memory c' = put_all (firstn (S j) visit) (memory c).
Proof.
  induction visit as [|[s t] visit IH]; intros k c j Hj Hf Hok; [cbn in Hj; lia|].
  cbn [SetBatch_from].
  pose proof (Set_memory (st k) c s t) as Hm.
  destruct j as [|j].
  - rewrite Nat.add_0_r in Hf. rewrite Hf in *. cbn in Hm |- *.
    eexists. split; [reflexivity|]. done.
  - assert (st k = DbOk) as Hk.
    { specialize (Hok 0%nat). rewrite Nat.add_0_r in Hok. apply Hok. lia. }
    destruct (Set_ (st k) c s t) as [[err|] c1] eqn:HS.
    + exfalso. rewrite Hk in HS. unfold Set_, UpsertCachedTranslation in HS.
      destruct (durable c !! _); discriminate.
    + destruct (IH (S k) c1 j) as (c' & HB & Hmem).
      * cbn in Hj. lia.
      * by replace (S k + j)%nat with (k + S j)%nat by lia.
      * intros i Hi. replace (S k + i)%nat with (k + S i)%nat by lia. apply Hok. lia.
      * exists c'. split; [done|]. rewrite Hmem. cbn in Hm. rewrite Hm.
        by rewrite firstn_cons.
Qed.

Lemma put_all_last visit : forall m s t,
  In (s, t) visit ->
  (forall s' t', In (s', t') visit -> textutil.Hash s' = textutil.Hash s -> t' = t) ->
  put_all visit m !! textutil.Hash s = Some t.
Proof.
  unfold put_all.
  induction visit as [|[s1 t1] visit IH] using rev_ind; intros m s t Hin Hsame; [done|].
  rewrite fold_left_app. cbn [fold_left].
  destruct (decide (textutil.Hash s1 = textutil.Hash s)) as [Heq|Hne].
  - rewrite Heq, lookup_insert_eq. f_equal. apply (Hsame s1 t1); [|done].
    apply in_or_app. right. by left.
  - rewrite lookup_insert_ne by done. apply IH.
    + apply in_app_or in Hin as [Hin|[[= -> ->]|[]]]; [done|congruence].
    + intros s' t' Hin'. apply Hsame. apply in_or_app. by left.
Qed.

End CacheMore.

(** X11. A [Preload] that the database refuses returns the wrapped error and
    leaves the cache as it was. A [Preload] that goes through leaves the
    table as it was and makes the in-memory tier answer every hash of the
    table with the table's translation, also where memory held another
    value, keeping the entries of the other hashes; after it, [Get] finds
    every text of the table without the database. *)
Theorem Preload_loads_table (c : cache.TranslationCache) :
  cache.Preload cache.DbFails c = (Some (cache.ErrPreload cache.ErrDatabase), c) /\
  exists c', cache.Preload cache.DbOk c = (None, c') /\
    cache.durable c' = cache.durable c /\
    (forall h, cache.memory c' !! h
               = match cache.durable c !! h with
                 | Some r => Some (cache.row_translated r)
                 | None => cache.memory c !! h
                 end) /\
    (forall s r st, cache.durable c !! textutil.Hash s = Some r ->
       cache.Get st c' s = ((cache.row_translated r, true), c')).
Proof.
  split; [done|].
  exists (snd (cache.Preload cache.DbOk c)). split_and!; [done|done|apply Preload_memory|].
  intros s r st Hr. apply Get_memory_hit. by rewrite Preload_memory, Hr.
Qed.

(** X12. Coherence of the two tiers is an invariant of the calls that do not
    fail half-way: when every entry in memory is the translation of the
    table's row for its hash, it is still so after a [Get] and after a
    [Preload], whatever the database does, and after a [Set] that the
    database accepts; and on such a cache a [Get] with the database up
    returns what the table holds for the text. *)
Theorem coherent_preserved (c : cache.TranslationCache) (s t : gostring)
  (st : cache.db_status) :
  coherent c ->
  coherent (snd (cache.Get st c s)) /\
  coherent (snd (cache.Preload st c)) /\
  coherent (snd (cache.Set_ cache.DbOk c s t)) /\
  fst (cache.Get cache.DbOk c s)
  = match stored c s with Some v => (v, true) | None => ([], false) end.
Proof.
  intros Hc. split_and!.
  - by apply coherent_Get.
  - by apply coherent_Preload.
  - by apply coherent_Set.
  - unfold stored, cache.Get.
    destruct (cache.memory c !! textutil.Hash s) as [v|] eqn:Hm.
    + destruct (Hc _ _ Hm) as (r & -> & <-). done.
    + cbn. by destruct (cache.durable c !! textutil.Hash s).
Qed.

Lemma coherent_preserved_witness :
  coherent (cache.NewTranslationCache ∅) /\
  coherent (snd (cache.Set_ cache.DbOk (cache.NewTranslationCache ∅)
                   (str "任务") (str "Nhiệm vụ"))).
Proof.
  assert (coherent (cache.NewTranslationCache ∅)) as H.
  { intros h v Hm. cbn in Hm. rewrite lookup_empty in Hm. discriminate. }
  split; [exact H|].
  exact (proj1 (proj2 (proj2
    (coherent_preserved (cache.NewTranslationCache ∅) (str "任务") (str "Nhiệm vụ")
       cache.DbOk H)))).
Defined.

(** X13. [SetBatch] puts the pairs in the order the loop meets them and
    stops at the first one the database refuses: with [j] the first turn
    that fails, it returns the wrapped error of that turn, memory holds the
    pairs of the turns up to and including [j], and the later pairs were
    not put. When no turn fails it returns [nil], and a text of the batch is
    then read back with its translation, provided the batch gives no other
    translation for the same hash. *)
Theorem SetBatch_stops_at_first_error (st : nat -> cache.db_status)
  (visit : list (gostring * gostring)) (c : cache.TranslationCache) :
  (forall j, (j < length visit)%nat -> st j = cache.DbFails ->
     (forall i, (i < j)%nat -> st i = cache.DbOk) ->
     exists c', cache.SetBatch_in st visit c
                = (Some (cache.ErrCacheSet cache.ErrDatabase), c') /\
                cache.memory c' = put_all (firstn (S j) visit) (cache.memory c)) /\
  ((forall j, (j < length visit)%nat -> st j = cache.DbOk) ->
     exists c', cache.SetBatch_in st visit c = (None, c') /\
                cache.memory c' = put_all visit (cache.memory c) /\
                forall s t st',
                  In (s, t) visit ->
                  (forall s' t', In (s', t') visit ->
                                 textutil.Hash s' = textutil.Hash s -> t' = t) ->
                  cache.Get st' c' s = ((t, true), c')).
Proof.
  unfold cache.SetBatch_in. split.
  - intros j Hj Hf Hok. by apply SetBatch_from_fails.
  - intros Hok. destruct (SetBatch_from_ok st visit 0 c Hok) as (c' & HB & Hm).
    exists c'. split_and!; [done|done|].
    intros s t st' Hin Hsame. apply Get_memory_hit. rewrite Hm.
    by apply put_all_last.
Qed.

(* ================================================================== *)
(** * More on the translator client                                    *)
(* ================================================================== *)

Section RequestOutcomes.
Import GoLib translation.

Lemma batch_results_length parts texts : forall i,
  length (batch_results parts i texts) = length texts.
Proof. induction texts as [|t texts IH]; intros i; cbn; [done|]. by rewrite IH. Qed.

Lemma batch_results_lookup parts texts : forall i k t,
  texts !! k = Some t ->
  batch_results parts i texts !! k
  = Some (default t (TrimSpace <$> parts !! (i + k)%nat)).
Proof.
  induction texts as [|t0 texts IH]; intros i k t Hk; [done|].
  destruct k as [|k].
  - cbn in Hk |- *. injection Hk as ->. rewrite Nat.add_0_r. by destruct (parts !! i).
  - replace (i + S k)%nat with (S i + k)%nat by lia. exact (IH (S i) k t Hk).
Qed.

End RequestOutcomes.

(** X14. [doRequest] succeeds for one exchange only: a response of status
    200 whose body decodes to some text; what it returns is that text with
    the white space around it trimmed. *)
Theorem doRequest_succeeds_iff (x : translation.exchange) (result : gostring) :
  translation.doRequest x = inl result
  <-> exists text, x = translation.Response 200 (translation.BodyText text) /\
                   result = GoLib.TrimSpace text.
Proof.
  split.
  - destruct x as [| | |code b]; cbn; try discriminate.
    destruct (Z.eqb_spec code translation.StatusTooManyRequests); cbn; [discriminate|].
    destruct (Z.leb_spec 500 code); cbn; [discriminate|].
    destruct (Z.eqb_spec code translation.StatusOK) as [->|]; cbn; [|discriminate].
    destruct b; try discriminate. intros [= <-]. eauto.
  - intros (text & -> & ->). reflexivity.
Qed.

(** X15. The outcomes of [Translate]. When it returns a result, the result is
    that of the first request that succeeded, one of the first three; every
    request before it failed with the context not done, and nothing was done
    after it. When it gives up with "failed after 3 retries", three requests
    were made and failed, and the error it wraps is that of the third: the
    wrapped error is never nil. *)
Theorem Translate_outcomes (env : Z -> translation.attempt_env) :
  (forall result, fst (translation.Translate env) = inl result ->
     exists k, 0 <= k < 3 /\
       translation.doRequest (translation.exchanged (env k)) = inl result /\
       last (snd (translation.Translate env)) = Some (translation.Request k) /\
       forall j, 0 <= j < k ->
         translation.done_after_request (env j) = false /\
         exists err, translation.doRequest (translation.exchanged (env j)) = inr err) /\
  (forall n lastErr,
     fst (translation.Translate env) = inr (translation.ErrFailedAfter n lastErr) ->
     n = 3 /\
     snd (translation.Translate env)
     = [ translation.Request 0;
         translation.Backoff 2; translation.Request 1;
         translation.Backoff 4; translation.Request 2 ] /\
     exists err, lastErr = Some err /\
       translation.doRequest (translation.exchanged (env 2)) = inr err /\
       forall j, 0 <= j < 3 ->
         exists e, translation.doRequest (translation.exchanged (env j)) = inr e).
Proof.
  unfold translation.Translate. change (Z.to_nat translation.maxRetries) with 3%nat.
  cbn [translation.translate_loop Z.ltb Z.compare andb].
  change (0 + 1) with 1. change (1 + 1) with 2.
  destruct (translation.doRequest (translation.exchanged (env 0))) as [r0|e0] eqn:H0.
  { split; [|discriminate]. cbn. intros result [= <-]. exists 0.
    split_and!; [lia|lia|done|done|]. intros j Hj. lia. }
  destruct (translation.done_after_request (env 0)) eqn:A0.
  { split; discriminate. }
  destruct (translation.done_during_backoff (env 1)).
  { split; discriminate. }
  destruct (translation.doRequest (translation.exchanged (env 1))) as [r1|e1] eqn:H1.
  { split; [|discriminate]. cbn. intros result [= <-]. exists 1.
    split_and!; [lia|lia|done|done|]. intros j Hj. assert (j = 0) as -> by lia. eauto. }
  destruct (translation.done_after_request (env 1)) eqn:A1.
  { split; discriminate. }
  destruct (translation.done_during_backoff (env 2)).
  { split; discriminate. }
  destruct (translation.doRequest (translation.exchanged (env 2))) as [r2|e2] eqn:H2.
  { split; [|discriminate]. cbn. intros result [= <-]. exists 2.
    split_and!; [lia|lia|done|done|]. intros j Hj.
    assert (j = 0 \/ j = 1) as [->| ->] by lia; eauto. }
  destruct (translation.done_after_request (env 2)) eqn:A2.
  { split; discriminate. }
  split; [discriminate|]. cbn. intros n lastErr [= <- <-].
  split_and!; [done|done|]. exists e2. split_and!; [done|done|].
  intros j Hj. assert (j = 0 \/ j = 1 \/ j = 2) as [->|[->| ->]] by lia; eauto.
Qed.

(** X16. [TranslateBatch] makes no request for an empty list. For a list
    that is not empty it sends one prompt; an error of [Translate] is passed
    on as it is, and a response gives one result for each text, in order:
    the trimmed part of the response at the same position when it is split
    at the delimiter of three bars, and the untranslated text itself when
    the response has fewer parts. Parts beyond the number of texts are
    dropped, and no mismatch of the two numbers is reported. *)
Theorem TranslateBatch_results (env : gostring -> Z -> translation.attempt_env)
  (texts : list gostring) :
  translation.TranslateBatch env [] = (inl [], []) /\
  (texts <> [] ->
   match translation.Translate (env (translation.batch_prompt texts)) with
   | (inr err, events) => translation.TranslateBatch env texts = (inr err, events)
   | (inl response, events) =>
       exists results,
         translation.TranslateBatch env texts = (inl results, events) /\
         length results = length texts /\
         forall i t, texts !! i = Some t ->
           results !! i
           = Some (default t (GoLib.TrimSpace <$> GoLib.Split response (str "|||") !! i))
   end).
Proof.
  split; [done|]. intros Hne. destruct texts as [|t0 texts]; [done|].
  unfold translation.TranslateBatch.
  destruct (translation.Translate _) as [[response|err] events]; [|done].
  eexists. split; [reflexivity|]. split; [apply batch_results_length|].
  intros i t Hi. by rewrite (batch_results_lookup _ _ 0 i t Hi).
Qed.

(* ================================================================== *)
(** * More on seed mining: hunks, column pairs, export                 *)
(* ================================================================== *)

Section Hunks.
Import GoLib seed.
Implicit Types (h : diffHunk) (st : hunk_state) (line : gostring).

Variable lines : list gostring.


Lemma HasPrefix_one line c :
  HasPrefix line [c] = true -> line = c :: slice_from line 1.
Proof.
  destruct line as [|y line]; cbn; [done|].
  rewrite andb_true_r. intros H. apply bool_decide_eq_true_1 in H. by subst.
Qed.

Lemma from_diff_empty : from_diff lines (mkDiffHunk [] []).
Proof. split; intros ? []. Qed.

Lemma hunk_line_from_diff st line :
  In line lines -> hunks_from_diff lines st -> hunks_from_diff lines (hunk_line st line).
Proof.
  intros Hl [Hhs Hcur]. unfold hunk_line.
  destruct (HasPrefix line (str "diff ") || HasPrefix line (str "index ")) eqn:H1;
    [done|]. cbn [orb].
  destruct (HasPrefix line (str "--- ")) eqn:Hm; [done|]. cbn [orb].
  destruct (HasPrefix line (str "+++ ")) eqn:Hp; [done|].
  destruct (HasPrefix line (str "@@")).
  { split; [|apply from_diff_empty]. cbn [hunks].
    destruct (inHunk st && has_lines (current st)) eqn:Hc; [|done].
    apply andb_true_iff in Hc as [_ Hc].
    intros h Hin. apply in_app_or in Hin as [Hin|[<-|[]]]; [by apply Hhs|done]. }
  destruct (inHunk st); [|done]. cbn [negb].
  destruct (HasPrefix line (str "-")) eqn:Hr.
  { split; [done|]. apply HasPrefix_one in Hr.
    destruct Hcur as [Hrem Hadd]. split; [|done]. cbn [removed].
    intros r Hin. apply in_app_or in Hin as [Hin|[<-|[]]]; [by apply Hrem|].
    split; [by rewrite <- Hr|].
    rewrite Hr in Hm. cbn in Hm. rewrite bool_decide_eq_true_2 in Hm by done. done. }
  destruct (HasPrefix line (str "+")) eqn:Ha; [|done].
  split; [done|]. apply HasPrefix_one in Ha.
  destruct Hcur as [Hrem Hadd]. split; [done|]. cbn [added].
  intros a Hin. apply in_app_or in Hin as [Hin|[<-|[]]]; [by apply Hadd|].
  split; [by rewrite <- Ha|].
  rewrite Ha in Hp. cbn in Hp. rewrite bool_decide_eq_true_2 in Hp by done. done.
Qed.

Lemma hunk_loop_from_diff (ls : list gostring) : forall st,
  (forall l, In l ls -> In l lines) -> hunks_from_diff lines st ->
  hunks_from_diff lines (fold_left hunk_line ls st).
Proof.
  induction ls as [|l ls IH]; intros st Hsub Hst; [done|].
  cbn [fold_left]. apply IH.
  - intros l' Hl'. apply Hsub. by right.
  - apply hunk_line_from_diff; [|done]. apply Hsub. by left.
Qed.

Lemma parseHunks_lines_from_diff h :
  In h (parseHunks_lines lines) -> has_lines h = true /\ from_diff lines h.
Proof.
  unfold parseHunks_lines.
  destruct (hunk_loop_from_diff lines (mkHunkState [] (mkDiffHunk [] []) false))
    as [Hhs Hcur].
  { done. }
  { split; [intros ? []|apply from_diff_empty]. }
  destruct (inHunk _ && has_lines _) eqn:Hc; [|by apply Hhs].
  apply andb_true_iff in Hc as [_ Hc].
  intros Hin. apply in_app_or in Hin as [Hin|[<-|[]]]; [by apply Hhs|done].
Qed.

End Hunks.

Section Pairs.
Import GoLib seed.
Variable toLower : Z -> Z.

Lemma pairs_of_hunks_In visit hs ext file e : forall k,
  In e (pairs_of_hunks toLower visit k hs ext file) ->
  exists hunk j, In hunk hs /\ In e (matchPairs toLower (visit j) hunk ext file).
Proof.
  induction hs as [|hunk hs IH]; intros k Hin; [done|].
  cbn [pairs_of_hunks] in Hin. apply in_app_or in Hin as [Hin|Hin].
  - exists hunk, k. split; [by left|done].
  - destruct (IH _ Hin) as (hunk' & j & Hh & He). exists hunk', j. split; [by right|done].
Qed.

Lemma match_pair_one visit hunk ext file i :
  (length (match_pair toLower visit hunk ext file [] i) <= 1)%nat.
Proof. unfold match_pair. repeat case_match; cbn; lia. Qed.

Lemma flat_map_at_most_one {A B} (f : A -> list B) (l : list A) :
  (forall x, (length (f x) <= 1)%nat) -> (length (flat_map f l) <= length l)%nat.
Proof.
  intros Hf. induction l as [|x l IH]; cbn; [done|].
  rewrite length_app. specialize (Hf x). lia.
Qed.

Lemma match_pair_prefix visit hunk ext file n i entries :
  (i < n)%nat ->
  match_pair toLower visit (mkDiffHunk (firstn n (removed hunk)) (firstn n (added hunk)))
    ext file entries i
  = match_pair toLower visit hunk ext file entries i.
Proof.
  intros Hi. unfold match_pair. cbn [removed added].
  by rewrite !lookup_take_lt by done.
Qed.

Lemma first_changed_spec (srcCols dstCols : list gostring) s d f :
  first_changed srcCols dstCols = (s, d, f) -> s <> [] ->
  f = [] /\
  exists i : nat,
    srcCols !! i = Some s /\ dstCols !! i = Some d /\ s <> d /\
    textutil.ContainsChinese s = true /\
    forall j sj dj, (j < i)%nat -> srcCols !! j = Some sj -> dstCols !! j = Some dj ->
                    sj = dj \/ textutil.ContainsChinese sj = false.
Proof.
  revert dstCols. induction srcCols as [|s0 srcCols IH]; intros dstCols H Hs.
  { cbn in H. by injection H as <- <- <-. }
  destruct dstCols as [|d0 dstCols].
  { cbn in H. by injection H as <- <- <-. }
  cbn [first_changed] in H. unfold str_eqb in H.
  destruct (decide (s0 = d0)) as [Heq|Hne].
  - rewrite bool_decide_eq_true_2 in H by done. cbn in H.
    destruct (IH _ H Hs) as (Hf & i & Hsi & Hdi & Hsd & Hc & Hbefore).
    split; [done|]. exists (S i). split_and!; try done.
    intros [|j] sj dj Hj; cbn.
    + intros [= <-] [= <-]. by left.
    + apply Hbefore. lia.
  - rewrite bool_decide_eq_false_2 in H by done. cbn in H.
    destruct (textutil.ContainsChinese s0) eqn:Hc0.
    + injection H as <- <- <-. split; [done|]. exists 0%nat.
      split_and!; try done. intros j ? ? Hj. lia.
    + destruct (IH _ H Hs) as (Hf & i & Hsi & Hdi & Hsd & Hc & Hbefore).
      split; [done|]. exists (S i). split_and!; try done.
      intros [|j] sj dj Hj; cbn.
      * intros [= <-] [= <-]. by right.
      * apply Hbefore. lia.
Qed.

End Pairs.

Section TsvExport.
Import GoLib seed.

Lemma ReplaceAllByte_absent (s : gostring) (old : ascii) (new : gostring) :
  ~ In old s -> ReplaceAllByte s old new = s.
Proof.
  unfold ReplaceAllByte. induction s as [|c s IH]; intros Hn; [done|].
  cbn [flat_map]. rewrite bool_decide_eq_false_2.
  - cbn. f_equal. apply IH. intros ?. apply Hn. by right.
  - intros ->. apply Hn. by left.
Qed.

Lemma ReplaceAllByte_In (s : gostring) (old : ascii) (new : gostring) c :
  In c (ReplaceAllByte s old new) -> (In c s /\ c <> old) \/ In c new.
Proof.
  unfold ReplaceAllByte. intros Hin. apply in_flat_map in Hin as (x & Hx & Hin).
  destruct (decide (x = old)) as [->|Hne].
  - rewrite bool_decide_eq_true_2 in Hin by done. by right.
  - rewrite bool_decide_eq_false_2 in Hin by done. destruct Hin as [<-|[]]. by left.
Qed.

Lemma escapeTSV_clean (s : gostring) c : In c (escapeTSV s) -> ~ control c.
Proof.
  unfold escapeTSV. intros Hin.
  apply ReplaceAllByte_In in Hin as [[Hin Hcr]|Hin].
  2:{ cbn in Hin. intros [->|[->| ->]]; intuition discriminate. }
  apply ReplaceAllByte_In in Hin as [[Hin Hlf]|Hin].
  2:{ cbn in Hin. intros [->|[->| ->]]; intuition discriminate. }
  apply ReplaceAllByte_In in Hin as [[Hin Htab]|Hin].
  2:{ cbn in Hin. intros [->|[->| ->]]; intuition discriminate. }
  intros [->|[->| ->]]; done.
Qed.

Lemma escapeTSV_id (s : gostring) :
  (forall c, In c s -> ~ control c) -> escapeTSV s = s.
Proof.
  intros Hs. unfold escapeTSV.
  rewrite (ReplaceAllByte_absent s tab), (ReplaceAllByte_absent s linefeed),
    (ReplaceAllByte_absent s (ascii_of_nat 13));
    try done; intros Hin; apply (Hs _ Hin); unfold control; auto.
Qed.

Lemma CountByte_app (a b : gostring) c :
  CountByte (a ++ b) c = CountByte a c + CountByte b c.
Proof. unfold CountByte. rewrite filter_app, length_app. lia. Qed.

Lemma CountByte_absent (s : gostring) c : ~ In c s -> CountByte s c = 0.
Proof.
  unfold CountByte. induction s as [|x s IH]; intros Hn; [done|].
  rewrite filter_cons_False.
  - apply IH. intros ?. apply Hn. by right.
  - intros ->. apply Hn. by left.
Qed.

End TsvExport.

(** X17. Every hunk [parseHunks] returns has at least one line. Each of its
    removed lines is a line of the diff that began with a minus sign, given
    without the sign, and each of its added lines one that began with a plus
    sign. A line of the diff that begins with three minus signs and a space,
    or three plus signs and a space, is taken for a file header wherever it
    stands: no removed line of a hunk begins with two minus signs and a
    space (as a removed Lua comment would) and no added line with two plus
    signs and a space. *)
Theorem parseHunks_hunks (diffOutput : gostring) (h : seed.diffHunk) :
  In h (seed.parseHunks diffOutput) ->
  seed.has_lines h = true /\
  (forall r, In r (seed.removed h) ->
     In ("-"%char :: r) (fst (GoLib.ScanLines (64 * 1024) diffOutput)) /\
     GoLib.HasPrefix r (str "-- ") = false) /\
  (forall a, In a (seed.added h) ->
     In ("+"%char :: a) (fst (GoLib.ScanLines (64 * 1024) diffOutput)) /\
     GoLib.HasPrefix a (str "++ ") = false).
Proof. intros Hin. by apply parseHunks_lines_from_diff in Hin. Qed.

Lemma parseHunks_hunks_witness :
  In scenario.lua_hunk (seed.parseHunks scenario.lua_diff) /\
  seed.has_lines scenario.lua_hunk = true.
Proof.
  assert (In scenario.lua_hunk (seed.parseHunks scenario.lua_diff)) as Hin
    by (vm_compute; left; reflexivity).
  split; [exact Hin|].
  exact (proj1 (parseHunks_hunks scenario.lua_diff scenario.lua_hunk Hin)).
Defined.

(** X18. Every seed mined from the diff of a file, through [parseHunks] and
    [matchPairs] hunk by hunk, carries the name of that file, has a source
    text with a Han character, a target text that is not empty and the
    digest of the source as its hash, and was extracted from a line of the
    diff that began with a minus sign and a line that began with a plus
    sign. *)
Theorem seeds_of_diff (toLower : Z -> Z) (visit : nat -> nat -> seed.visits)
  (diffOutput ext file : gostring) (e : seed.SeedEntry) :
  In e (seed.pairs_of_hunks toLower visit 0 (seed.parseHunks diffOutput) ext file) ->
  well_formed_seed e /\ seed.File e = file /\
  exists r a,
    In ("-"%char :: r) (fst (GoLib.ScanLines (64 * 1024) diffOutput)) /\
    In ("+"%char :: a) (fst (GoLib.ScanLines (64 * 1024) diffOutput)) /\
    seed.extractTextPair r a ext
    = (seed.SourceText e, seed.TranslatedText e, seed.Function e).
Proof.
  intros Hin. apply pairs_of_hunks_In in Hin as (hunk & j & Hh & He).
  apply parseHunks_lines_from_diff in Hh as [_ [Hrem Hadd]].
  unfold seed.matchPairs in He.
  apply matchPairs_loop_In in He as [[]|(i & _ & Hwf & (r & a & Hr & Ha & Hx) & Hf & _)].
  split_and!; try done. exists r, a. split_and!; try done.
  - apply Hrem. eapply list_elem_of_In, list_elem_of_lookup_2. exact Hr.
  - apply Hadd. eapply list_elem_of_In, list_elem_of_lookup_2. exact Ha.
Qed.

Lemma seeds_of_diff_witness :
  In scenario.lua_seed
     (seed.pairs_of_hunks scenario.no_case_table (fun _ _ => scenario.as_listed) 0
        (seed.parseHunks scenario.lua_diff) (str ".lua") (str "buff.lua")) /\
  seed.File scenario.lua_seed = str "buff.lua".
Proof.
  assert (In scenario.lua_seed
            (seed.pairs_of_hunks scenario.no_case_table (fun _ _ => scenario.as_listed) 0
               (seed.parseHunks scenario.lua_diff) (str ".lua") (str "buff.lua"))) as Hin
    by (vm_compute; left; reflexivity).
  split; [exact Hin|].
  exact (proj1 (proj2 (seeds_of_diff _ _ _ _ _ _ Hin))).
Defined.

(** X19. When [extractTXTPair] returns a source text, the two lines have the
    same number of tab-separated columns, two or more, and the pair is that
    of the first column whose source has a Han character and differs from
    its counterpart: every column before it is unchanged or has no Han
    character, later columns are not looked at, and no function name is
    given. *)
Theorem extractTXTPair_first_changed (source translated s d f : gostring) :
  seed.extractTXTPair source translated = (s, d, f) -> s <> [] ->
  f = [] /\
  length (GoLib.SplitByte source seed.tab) = length (GoLib.SplitByte translated seed.tab) /\
  (2 <= length (GoLib.SplitByte source seed.tab))%nat /\
  exists i : nat,
    GoLib.SplitByte source seed.tab !! i = Some s /\
    GoLib.SplitByte translated seed.tab !! i = Some d /\
    s <> d /\ textutil.ContainsChinese s = true /\
    forall j sj dj, (j < i)%nat ->
      GoLib.SplitByte source seed.tab !! j = Some sj ->
      GoLib.SplitByte translated seed.tab !! j = Some dj ->
      sj = dj \/ textutil.ContainsChinese sj = false.
Proof.
  unfold seed.extractTXTPair. intros H Hs.
  destruct (Nat.eqb_spec (length (GoLib.SplitByte source seed.tab))
                         (length (GoLib.SplitByte translated seed.tab))) as [Hlen|Hlen];
    cbn [negb orb] in H; [|by injection H as <- <- <-].
  destruct (Nat.ltb_spec (length (GoLib.SplitByte source seed.tab)) 2) as [Hlt|Hge];
    [by injection H as <- <- <-|].
  destruct (first_changed_spec _ _ _ _ _ H Hs) as (Hf & Hi).
  split_and!; done.
Qed.

Lemma extractTXTPair_first_changed_witness :
  seed.extractTXTPair (str "7" ++ [seed.tab] ++ str "铁剑" ++ [seed.tab] ++ str "武器")
                      (str "7" ++ [seed.tab] ++ str "Kiếm sắt" ++ [seed.tab] ++ str "Vũ khí")
  = (str "铁剑", str "Kiếm sắt", []) /\
  str "铁剑" <> [] /\
  (2 <= length (GoLib.SplitByte
                  (str "7" ++ [seed.tab] ++ str "铁剑" ++ [seed.tab] ++ str "武器")
                  seed.tab))%nat.
Proof.
  assert (seed.extractTXTPair
            (str "7" ++ [seed.tab] ++ str "铁剑" ++ [seed.tab] ++ str "武器")
            (str "7" ++ [seed.tab] ++ str "Kiếm sắt" ++ [seed.tab] ++ str "Vũ khí")
          = (str "铁剑", str "Kiếm sắt", [])) as H by (vm_compute; reflexivity).
  assert (str "铁剑" <> []) as Hs by discriminate.
  split; [exact H|]. split; [exact Hs|].
  exact (proj1 (proj2 (proj2 (extractTXTPair_first_changed _ _ _ _ _ H Hs)))).
Defined.

(** X20. [matchPairs] looks at as many lines of each list as the shorter
    list has: the lines of the longer list beyond that never matter, and
    the number of seeds is at most that number. *)
Theorem matchPairs_shorter_list (toLower : Z -> Z) (visit : nat -> seed.visits)
  (hunk : seed.diffHunk) (ext file : gostring) :
  let n := Nat.min (length (seed.removed hunk)) (length (seed.added hunk)) in
  (length (seed.matchPairs toLower visit hunk ext file) <= n)%nat /\
  seed.matchPairs toLower visit
    (seed.mkDiffHunk (firstn n (seed.removed hunk)) (firstn n (seed.added hunk)))
    ext file
  = seed.matchPairs toLower visit hunk ext file.
Proof.
  intros n. rewrite !matchPairs_in_order. split.
  - etransitivity; [apply flat_map_at_most_one; intros; apply match_pair_one|].
    by rewrite length_seq.
  - cbn [seed.removed seed.added]. rewrite !length_take.
    replace (Nat.min (n `min` length (seed.removed hunk)) (n `min` length (seed.added hunk)))
      with n by lia.
    fold n. assert (forall l : list nat, (forall i, In i l -> (i < n)%nat) ->
      flat_map (seed.match_pair toLower visit
                  (seed.mkDiffHunk (firstn n (seed.removed hunk)) (firstn n (seed.added hunk)))
                  ext file []) l
      = flat_map (seed.match_pair toLower visit hunk ext file []) l) as Hext.
    { induction l as [|i l IH]; intros Hl; [done|]. cbn [flat_map].
      rewrite match_pair_prefix by (apply Hl; by left).
      rewrite IH; [done|]. intros j Hj. apply Hl. by right. }
    apply Hext. intros i Hi. apply in_seq in Hi. lia.
Qed.

(** X21. What [escapeTSV] returns holds no tab, line feed or carriage
    return; a string without them is returned as it is, so escaping twice is
    escaping once (a backslash is not escaped, and a tab and the two bytes
    that replace it give the same field). A row of the export has four tabs
    besides those of the file name, the function and the entity type, which
    are written as they are. *)
Theorem escapeTSV_safe (s : gostring) (e : seed.SeedEntry) :
  (forall c, In c (seed.escapeTSV s) ->
     c <> seed.tab /\ c <> seed.linefeed /\ c <> ascii_of_nat 13) /\
  ((forall c, In c s -> c <> seed.tab /\ c <> seed.linefeed /\ c <> ascii_of_nat 13) ->
   seed.escapeTSV s = s) /\
  seed.escapeTSV (seed.escapeTSV s) = seed.escapeTSV s /\
  GoLib.CountByte (seed.tsv_row e) seed.tab
  = 4 + GoLib.CountByte (seed.File e) seed.tab
      + GoLib.CountByte (seed.Function e) seed.tab
      + GoLib.CountByte (seed.EntityType e) seed.tab.
Proof.
  split_and!.
  - intros c Hin. pose proof (escapeTSV_clean s c Hin) as Hc. unfold control in Hc.
    split_and!; intros ->; apply Hc; auto.
  - intros Hs. apply escapeTSV_id. intros c Hin [->|[->| ->]];
      destruct (Hs _ Hin) as (? & ? & ?); done.
  - apply escapeTSV_id. intros c. apply escapeTSV_clean.
  - unfold seed.tsv_row. rewrite !CountByte_app.
    rewrite !(CountByte_absent (seed.escapeTSV _)).
    2,3: intros Hin; apply escapeTSV_clean in Hin; apply Hin; by left.
    change (GoLib.CountByte [seed.tab] seed.tab) with 1.
    change (GoLib.CountByte [seed.linefeed] seed.tab) with 0. lia.
Qed.

(* ================================================================== *)
(** * Files: the scanner, and the INI parser with its reconstructor    *)
(* ================================================================== *)

Section Scanner.
Import GoLib parser.

Lemma dropCR_id (line : gostring) :
  HasSuffix line [ascii_of_nat 13] = false -> dropCR line = line.
Proof.
  unfold HasSuffix, dropCR. cbn [rev app]. destruct (rev line) as [|c rest]; [done|].
  cbn. rewrite andb_true_r. intros H.
  destruct (decide (c = ascii_of_nat 13)) as [->|Hne].
  - by rewrite bool_decide_eq_true_2 in H.
  - by rewrite bool_decide_eq_false_2 by done.
Qed.

Lemma scan_from_line (max : Z) (line rest : gostring) : forall acc n,
  existsb (fun c => bool_decide (c = ascii_of_nat 10)) line = false ->
  n + Z.of_nat (length line) + 1 <= max ->
  scan_from max (line ++ ascii_of_nat 10 :: rest) acc n
  = (dropCR (rev acc ++ line) :: fst (scan_from max rest [] 0),
     snd (scan_from max rest [] 0)).
Proof.
  induction line as [|c line IH]; intros acc n Hlf Hn.
  - cbn [app scan_from length] in *. rewrite bool_decide_eq_true_2 by done.
    destruct (Z.leb_spec (n + 1) max); [|lia]. rewrite app_nil_r.
    by destruct (scan_from max rest [] 0).
  - cbn [existsb] in Hlf. apply orb_false_iff in Hlf as [Hc Hlf].
    cbn [app scan_from]. rewrite Hc. rewrite IH; [|done|cbn [length] in Hn; lia].
    cbn [rev]. by rewrite <- app_assoc.
Qed.

Lemma ScanLines_lines (max : Z) (lines : list gostring) :
  forallb (scans_back max) lines = true ->
  ScanLines max (concat (map (fun l => l ++ newline) lines)) = (lines, false).
Proof.
  unfold ScanLines. induction lines as [|l lines IH]; intros Hok; [done|].
  cbn [forallb] in Hok. apply andb_true_iff in Hok as [Hl Hok].
  unfold scans_back in Hl. apply andb_true_iff in Hl as [Hl Hlen].
  apply andb_true_iff in Hl as [Hlf Hcr]. apply negb_true_iff in Hlf, Hcr.
  apply Z.ltb_lt in Hlen.
  cbn [map concat]. unfold newline at 1. rewrite <- app_assoc. cbn [app].
  rewrite scan_from_line by (done || lia). rewrite (IH Hok). cbn [fst snd rev app].
  by rewrite dropCR_id.
Qed.

Lemma scans_back_mono (max max' : Z) (line : gostring) :
  max <= max' -> scans_back max line = true -> scans_back max' line = true.
Proof.
  unfold scans_back. intros Hle H. apply andb_true_iff in H as [-> Hlen].
  apply Z.ltb_lt in Hlen. cbn. apply Z.ltb_lt. lia.
Qed.

End Scanner.

Section INI.
Import GoLib parser.
Implicit Types (line : gostring) (lines : list gostring) (et : ExtractedText).

(** What one line contributes does not depend on the section but for the
    context. *)
Lemma ini_line_texts filePath sec lineNum line :
  snd (ini_line filePath sec lineNum line)
  = match ini_value line with
    | Some v =>
        [mkExtractedText v filePath lineNum (-1)
           (<[str "key" := TrimSpace (slice (TrimSpace line) 0
                                        (Z.of_nat (default 0%nat
                                           (GoLib.Index (TrimSpace line) (str "=")))))]>
              (<[str "section" := sec]> (<[str "file" := filePath]> ∅)))]
    | None => []
    end.
Proof.
  unfold ini_value, ini_line.
  destruct (str_eqb (TrimSpace line) [] || _ || _); [done|].
  destruct (HasPrefix (TrimSpace line) (str "[") && _); [done|].
  destruct (GoLib.Index (TrimSpace line) (str "=")) as [eqIdx|]; [|done].
  by destruct (str_eqb _ [] || _).
Qed.

Lemma ini_value_spec line v :
  ini_value line = Some v ->
  textutil.ContainsChinese v = true /\
  exists eqIdx, GoLib.Index (TrimSpace line) (str "=") = Some eqIdx /\
                v = TrimSpace (slice_from (TrimSpace line) (Z.of_nat eqIdx + 1)).
Proof.
  unfold ini_value, ini_line.
  destruct (str_eqb (TrimSpace line) [] || _ || _); [done|].
  destruct (HasPrefix (TrimSpace line) (str "[") && _); [done|].
  destruct (GoLib.Index (TrimSpace line) (str "=")) as [eqIdx|]; [|done].
  destruct (str_eqb _ []) eqn:He; [done|]. cbn [orb].
  destruct (textutil.ContainsChinese _) eqn:Hc; [|done].
  cbn. intros [= <-]. split; [done|]. eauto.
Qed.

Lemma ini_lines_In filePath lines et : forall sec n,
  In et (ini_lines filePath sec n lines) ->
  exists (k : nat) line v,
    lines !! k = Some line /\ Line et = n + Z.of_nat k + 1 /\
    ini_value line = Some v /\ Text et = v /\ File et = filePath /\ Column et = -1 /\
    Context et !! str "file" = Some filePath /\
    Context et !! str "key"
    = Some (TrimSpace (slice (TrimSpace line) 0
              (Z.of_nat (default 0%nat (GoLib.Index (TrimSpace line) (str "=")))))).
Proof.
  induction lines as [|line lines IH]; intros sec n Hin; [done|].
  cbn [ini_lines] in Hin.
  pose proof (ini_line_texts filePath sec (n + 1) line) as Ht.
  destruct (ini_line filePath sec (n + 1) line) as [sec' texts]. cbn [snd] in Ht.
  apply in_app_or in Hin as [Hin|Hin].
  - rewrite Ht in Hin. destruct (ini_value line) as [v|] eqn:Hv; [|done].
    destruct Hin as [<-|[]]. exists 0%nat, line, v. cbn. split_and!; try done; lia.
  - destruct (IH _ _ Hin) as (k & l & v & Hk & HL & H).
    exists (S k), l, v. split; [done|]. split; [lia|done].
Qed.

(** Writing a line of its own for every text, each text on the line it came
    from: the loop of the reconstructor over the texts of the parser. *)
Lemma ini_reconstruct_lines filePath translations lines : forall sec done_ n,
  n = Z.of_nat (length done_) ->
  fold_left (ini_step translations) (ini_lines filePath sec n lines) (done_ ++ lines)
  = done_ ++ map (fun line =>
                    match ini_value line with
                    | Some v => match translations !! v with
                                | Some translated => ini_rewritten line translated
                                | None => line
                                end
                    | None => line
                    end) lines.
Proof.
  induction lines as [|line lines IH]; intros sec done_ n Hn; [done|].
  cbn [ini_lines map].
  pose proof (ini_line_texts filePath sec (n + 1) line) as Ht.
  destruct (ini_line filePath sec (n + 1) line) as [sec' texts]. cbn [snd] in Ht.
  rewrite fold_left_app.
  assert (fold_left (ini_step translations) texts (done_ ++ line :: lines)
          = (done_ ++ [match ini_value line with
                       | Some v => match translations !! v with
                                   | Some translated => ini_rewritten line translated
                                   | None => line
                                   end
                       | None => line
                       end]) ++ lines) as ->.
  { rewrite Ht. destruct (ini_value line) as [v|]; [|by rewrite <- app_assoc].
    cbn [fold_left]. unfold ini_step. cbn [Line Text].
    replace (n + 1 - 1) with n by lia.
    destruct (Z.ltb_spec n 0); [lia|].
    destruct (Z.leb_spec (Z.of_nat (length (done_ ++ line :: lines))) n) as [Hle|_].
    { rewrite length_app in Hle. cbn [length] in Hle. lia. }
    cbn [orb]. destruct (translations !! v) as [translated|]; [|by rewrite <- app_assoc].
    assert (line_at (done_ ++ line :: lines) n = line) as ->.
    { unfold line_at. rewrite Hn, Nat2Z.id, lookup_app_r by lia.
      by rewrite Nat.sub_diag. }
    unfold ini_rewritten. destruct (GoLib.Index line (str "=")) as [eqIdx|];
      [|by rewrite <- app_assoc].
    rewrite Hn, Nat2Z.id. rewrite insert_app_r_alt by lia.
    rewrite Nat.sub_diag. cbn. by rewrite <- app_assoc. }
  rewrite (IH sec' _ (n + 1)).
  - by rewrite <- app_assoc.
  - rewrite length_app. cbn [length]. lia.
Qed.

End INI.

(** X22. A file that ends with a line feed, has no carriage return before a
    line feed and no line of a mebibyte or more is read and written back
    byte for byte: parsing the bytes of such lines, joined and ended by line
    feeds, gives these lines as raw lines, and the reconstruction with no
    translations gives the same bytes again, for the TXT and for the INI
    parser. *)
Theorem Parse_file_roundtrip (filePath : gostring) (lines : list gostring) :
  lines <> [] ->
  forallb (scans_back (1024 * 1024)) lines = true ->
  (exists result,
     parser.TXTParser_Parse_file filePath (parser.join_lines lines) = Some result /\
     parser.RawLines result = lines /\
     parser.TXTParser_Reconstruct result ∅ = parser.join_lines lines) /\
  (exists result,
     parser.INIParser_Parse_file filePath (parser.join_lines lines) = Some result /\
     parser.RawLines result = lines /\
     parser.INIParser_Reconstruct result ∅ = parser.join_lines lines).
Proof.
  intros Hne Hok. rewrite (join_lines_terminated lines Hne). split.
  - unfold parser.TXTParser_Parse_file. rewrite ScanLines_lines.
    + eexists. split; [reflexivity|].
      assert (parser.RawLines (parser.TXTParser_Parse filePath lines) = lines) as Hraw.
      { unfold parser.TXTParser_Parse. by destruct (parser.detectTSV lines). }
      split; [done|].
      by rewrite TXTParser_Reconstruct_empty, Hraw, join_lines_terminated.
    + clear Hne. induction lines as [|l lines IH]; [done|].
      cbn [forallb] in Hok |- *. apply andb_true_iff in Hok as [Hl Hok].
      rewrite (scans_back_mono (1024 * 1024) _ l) by (done || lia). by apply IH.
  - unfold parser.INIParser_Parse_file. rewrite ScanLines_lines by done.
    eexists. split; [reflexivity|]. split; [done|].
    by rewrite INIParser_Reconstruct_empty, join_lines_terminated.
Qed.

Lemma Parse_file_roundtrip_witness :
  forallb (scans_back (1024 * 1024)) [str "[menu]"; str "title = 设置"] = true /\
  exists result,
    parser.INIParser_Parse_file (str "ui.ini")
      (parser.join_lines [str "[menu]"; str "title = 设置"]) = Some result /\
    parser.RawLines result = [str "[menu]"; str "title = 设置"] /\
    parser.INIParser_Reconstruct result ∅
    = parser.join_lines [str "[menu]"; str "title = 设置"].
Proof.
  split; [vm_compute; reflexivity|].
  exact (proj2 (Parse_file_roundtrip (str "ui.ini") [str "[menu]"; str "title = 设置"]
                  ltac:(discriminate) ltac:(vm_compute; reflexivity))).
Defined.

(** X23. Every text [INIParser.Parse] extracts stands for a line of the
    file: its line number is that of the line, counted from one, its value
    is the trimmed part after the first equals sign of the trimmed line, is
    not empty and has a Han character, its column is -1, and its context
    names the file and, as key, the trimmed part before that equals sign. *)
Theorem INIParser_Parse_texts (filePath : gostring) (rawLines : list gostring)
  (et : parser.ExtractedText) :
  In et (parser.Texts (parser.INIParser_Parse filePath rawLines)) ->
  exists (line : gostring) (eqIdx : nat),
    1 <= parser.Line et <= Z.of_nat (length rawLines) /\
    rawLines !! Z.to_nat (parser.Line et - 1) = Some line /\
    GoLib.Index (GoLib.TrimSpace line) (str "=") = Some eqIdx /\
    parser.Text et
    = GoLib.TrimSpace (GoLib.slice_from (GoLib.TrimSpace line) (Z.of_nat eqIdx + 1)) /\
    textutil.ContainsChinese (parser.Text et) = true /\
    parser.File et = filePath /\ parser.Column et = -1 /\
    parser.Context et !! str "file" = Some filePath /\
    parser.Context et !! str "key"
    = Some (GoLib.TrimSpace (GoLib.slice (GoLib.TrimSpace line) 0 (Z.of_nat eqIdx))).
Proof.
  cbn [parser.INIParser_Parse parser.Texts]. intros Hin.
  apply ini_lines_In in Hin as (k & line & v & Hk & HL & Hv & HT & HF & HC & Hfile & Hkey).
  apply ini_value_spec in Hv as (Hc & eqIdx & Hidx & ->).
  rewrite Hidx in Hkey. cbn in Hkey.
  exists line, eqIdx. pose proof (lookup_lt_Some _ _ _ Hk) as Hlt.
  split_and!; try done; try lia.
  - replace (Z.to_nat (parser.Line et - 1)) with k by lia. done.
  - by rewrite HT.
Qed.

Lemma INIParser_Parse_texts_witness :
  exists et, In et (parser.Texts (parser.INIParser_Parse (str "ui.ini")
                                    [str "[menu]"; str "title = 设置"])) /\
             parser.Line et = 2 /\ parser.Column et = -1.
Proof.
  eexists. assert (In _ (parser.Texts (parser.INIParser_Parse (str "ui.ini")
                                         [str "[menu]"; str "title = 设置"]))) as Hin
    by (vm_compute; left; reflexivity).
  split; [exact Hin|]. split; [reflexivity|].
  destruct (INIParser_Parse_texts _ _ _ Hin) as (line & eqIdx & H).
  exact (proj1 (proj2 (proj2 (proj2 (proj2 (proj2 (proj2 H))))))).
Defined.

(** X24. Reconstructing what [INIParser.Parse] made of the lines of a file
    writes one line for each line of the file, in order. A line whose value
    was extracted and has a translation becomes: the line up to and
    including its first equals sign, the blanks and tabs that followed the
    sign, and the translation; what stood after the value is dropped. Every
    other line stays as it was. *)
Theorem INIParser_Parse_Reconstruct (filePath : gostring) (rawLines : list gostring)
  (translations : gmap gostring gostring) :
  parser.INIParser_Reconstruct (parser.INIParser_Parse filePath rawLines) translations
  = parser.join_lines
      (map (fun line =>
              match ini_value line with
              | Some v => match translations !! v with
                          | Some translated => ini_rewritten line translated
                          | None => line
                          end
              | None => line
              end) rawLines).
Proof.
  unfold parser.INIParser_Reconstruct, parser.INIParser_Parse.
  cbn [parser.Texts parser.RawLines]. f_equal.
  exact (ini_reconstruct_lines filePath translations rawLines [] [] 0 eq_refl).
Qed.

(* ================================================================== *)
(** * The TSV parser with its reconstructor                            *)
(* ================================================================== *)

Section TSV.
Import GoLib parser.
Implicit Types (line col : gostring) (cols lines : list gostring).

Lemma SplitByte_nonempty (s : gostring) sep : SplitByte s sep <> [].
Proof.
  destruct s as [|c s]; cbn; [done|].
  destruct (bool_decide (c = sep)); [done|]. by destruct (SplitByte s sep).
Qed.

Lemma Join_cons_cons (p q : gostring) (ps : list gostring) sep :
  Join (p :: q :: ps) sep = p ++ sep ++ Join (q :: ps) sep.
Proof. reflexivity. Qed.

(** Joining the fields of a string gives the string back. *)
Lemma Join_SplitByte (s : gostring) sep : Join (SplitByte s sep) [sep] = s.
Proof.
  induction s as [|c s IH]; [done|]. cbn [SplitByte].
  pose proof (SplitByte_nonempty s sep) as Hne.
  destruct (SplitByte s sep) as [|f fs]; [done|].
  destruct (bool_decide_reflect (c = sep)) as [->|Hc].
  - rewrite Join_cons_cons, IH. done.
  - destruct fs as [|g fs].
    + cbn in IH |- *. by rewrite IH.
    + rewrite Join_cons_cons in IH |- *. cbn. by rewrite <- IH.
Qed.

Lemma SplitByte_clean (p : gostring) sep : ~ In sep p -> SplitByte p sep = [p].
Proof.
  induction p as [|c p IH]; intros Hn; [done|]. cbn [SplitByte].
  rewrite bool_decide_eq_false_2 by (intros ->; apply Hn; by left).
  rewrite IH; [done|]. intros ?. apply Hn. by right.
Qed.

Lemma SplitByte_app_sep (p rest : gostring) sep :
  ~ In sep p -> SplitByte (p ++ sep :: rest) sep = p :: SplitByte rest sep.
Proof.
  induction p as [|c p IH]; intros Hn.
  - cbn. by rewrite bool_decide_eq_true_2.
  - cbn [app SplitByte].
    rewrite bool_decide_eq_false_2 by (intros ->; apply Hn; by left).
    rewrite IH; [done|]. intros ?. apply Hn. by right.
Qed.

(** Splitting what was joined from fields without the separator gives the
    fields back. *)
Lemma SplitByte_Join cols sep :
  cols <> [] -> (forall c, In c cols -> ~ In sep c) ->
  SplitByte (Join cols [sep]) sep = cols.
Proof.
  induction cols as [|p [|q cols] IH]; intros Hne Hclean; [done|..].
  - cbn. apply SplitByte_clean, Hclean. by left.
  - rewrite Join_cons_cons. cbn [app]. rewrite SplitByte_app_sep by (apply Hclean; by left).
    rewrite IH; [done|done|]. intros c Hc. apply Hclean. by right.
Qed.

Lemma SplitByte_fields_clean (s : gostring) sep c :
  In c (SplitByte s sep) -> ~ In sep c.
Proof.
  revert c. induction s as [|x s IH]; intros c.
  - cbn. intros [<-|[]] [].
  - cbn [SplitByte]. destruct (bool_decide_reflect (x = sep)) as [->|Hx].
    + intros [<-|Hin]; [intros []|by apply IH].
    + pose proof (SplitByte_nonempty s sep). destruct (SplitByte s sep) as [|f fs]; [done|].
      intros [<-|Hin].
      * intros [Heq|Hin]; [done|]. apply (IH f); [by left|done].
      * apply IH. by right.
Qed.

Variable translations : gmap gostring gostring.
Hypothesis translations_clean :
  forall source translated, translations !! source = Some translated -> ~ In tab translated.

Lemma tsv_translated_clean col : ~ In tab col -> ~ In tab (tsv_translated translations col).
Proof.
  intros Hc. unfold tsv_translated. destruct (isTranslatableColumn col); [|done].
  destruct (translations !! col) as [v|] eqn:Hv; [|done]. cbn. eauto.
Qed.

(** The texts of the columns of one line, from column [length before] on,
    written back one after the other. *)
Lemma reconstruct_columns filePath (done_ after : list gostring) cols0 :
  forall (todo before : list gostring) (i : Z),
    i = Z.of_nat (length before) ->
    (forall c, In c (before ++ todo) -> ~ In tab c) ->
    fold_left (reconstructTSV_step translations)
      (flat_map (fun '(colIdx, col) =>
                   tsv_column filePath (Z.of_nat (length done_)) cols0 colIdx col)
                (enumerate i todo))
      (done_ ++ Join (before ++ todo) [tab] :: after)
    = done_ ++ Join (before ++ map (tsv_translated translations) todo) [tab] :: after.
Proof.
  induction todo as [|col todo IH]; intros before i Hi Hclean; [done|].
  cbn [enumerate flat_map map]. rewrite fold_left_app.
  assert (fold_left (reconstructTSV_step translations)
            (tsv_column filePath (Z.of_nat (length done_)) cols0 i col)
            (done_ ++ Join (before ++ col :: todo) [tab] :: after)
          = done_ ++ Join ((before ++ [tsv_translated translations col]) ++ todo) [tab]
              :: after) as ->.
  { unfold tsv_column, tsv_translated.
    destruct (isTranslatableColumn col); cbn [negb]; [|by rewrite <- app_assoc].
    cbn [fold_left]. unfold reconstructTSV_step. cbn [Line Text Column].
    replace (Z.of_nat (length done_) + 1 - 1) with (Z.of_nat (length done_)) by lia.
    destruct (Z.ltb_spec (Z.of_nat (length done_)) 0); [lia|].
    destruct (Z.leb_spec (Z.of_nat (length (done_ ++ Join (before ++ col :: todo) [tab]
                                                :: after)))
                         (Z.of_nat (length done_))) as [Hle|_].
    { rewrite length_app in Hle. cbn [length] in Hle. lia. }
    cbn [orb]. destruct (translations !! col) as [v|] eqn:Hv; cbn [default from_option id];
      [|by rewrite <- app_assoc].
    assert (line_at (done_ ++ Join (before ++ col :: todo) [tab] :: after)
                    (Z.of_nat (length done_))
            = Join (before ++ col :: todo) [tab]) as ->.
    { unfold line_at. rewrite Nat2Z.id, lookup_app_r by lia. by rewrite Nat.sub_diag. }
    rewrite SplitByte_Join; [|by destruct before|done].
    destruct (Z.leb_spec 0 i); [|lia].
    destruct (Z.ltb_spec i (Z.of_nat (length (before ++ col :: todo)))) as [_|Hge].
    2:{ rewrite length_app in Hge. cbn [length] in Hge. lia. }
    cbn [andb]. rewrite Nat2Z.id, insert_app_r_alt by lia. rewrite Nat.sub_diag.
    rewrite Hi, Nat2Z.id, insert_app_r_alt by lia. rewrite Nat.sub_diag.
    cbn. by rewrite <- app_assoc. }
  rewrite (IH (before ++ [tsv_translated translations col]) (i + 1)).
  - by rewrite <- app_assoc.
  - rewrite length_app. cbn [length]. lia.
  - intros c Hc. rewrite <- app_assoc in Hc. cbn [app] in Hc.
    apply in_app_or in Hc as [Hc|[<-|Hc]].
    + apply Hclean. apply in_or_app. by left.
    + apply tsv_translated_clean, Hclean. apply in_or_app. right. by left.
    + apply Hclean. apply in_or_app. right. by right.
Qed.

(** The texts of the lines of a file, from line [length done_] on. *)
Lemma reconstruct_rows filePath : forall (lines done_ : list gostring) (n : Z),
  n = Z.of_nat (length done_) ->
  fold_left (reconstructTSV_step translations)
    (flat_map (fun '(lineNum, line) => tsv_line filePath lineNum line) (enumerate n lines))
    (done_ ++ lines)
  = done_ ++ map (tsv_rewritten translations) lines.
Proof.
  induction lines as [|line lines IH]; intros done_ n Hn; [done|].
  cbn [enumerate flat_map map]. rewrite fold_left_app.
  assert (fold_left (reconstructTSV_step translations) (tsv_line filePath n line)
            (done_ ++ line :: lines)
          = (done_ ++ [tsv_rewritten translations line]) ++ lines) as ->.
  { unfold tsv_line, tsv_rewritten, blank.
    destruct (str_eqb (TrimSpace line) []); [by rewrite <- app_assoc|].
    rewrite Hn.
    pose proof (reconstruct_columns filePath done_ lines (SplitByte line tab)
                  (SplitByte line tab) [] 0 eq_refl) as Hcols.
    cbn [app] in Hcols. rewrite Join_SplitByte in Hcols. rewrite Hcols.
    - by rewrite <- app_assoc.
    - intros c Hc. by apply SplitByte_fields_clean in Hc. }
  rewrite (IH _ (n + 1)).
  - by rewrite <- app_assoc.
  - rewrite length_app. cbn [length]. lia.
Qed.

End TSV.

(** X25. For a file the TXT parser takes for tab-separated, and translations
    that hold no tab, reconstructing what the parser extracted writes one
    line for each line of the file, in order: a blank line as it was, and
    any other line with each column the parser extracted replaced by its
    translation, when the map has one, and every other column, the tabs
    between them and the number of columns as they were. *)
Theorem TXTParser_Parse_Reconstruct_tsv (filePath : gostring) (rawLines : list gostring)
  (translations : gmap gostring gostring) :
  parser.detectTSV rawLines = true ->
  (forall source translated,
     translations !! source = Some translated -> ~ In parser.tab translated) ->
  parser.TXTParser_Reconstruct (parser.TXTParser_Parse filePath rawLines) translations
  = parser.join_lines (map (tsv_rewritten translations) rawLines).
Proof.
  intros Htsv Hclean. unfold parser.TXTParser_Parse. rewrite Htsv.
  unfold parser.TXTParser_Reconstruct, parser.parseTSV, parser.reconstructTSV.
  cbn [parser.FileType parser.RawLines parser.Texts app].
  unfold GoLib.str_eqb. rewrite bool_decide_eq_true_2 by done. f_equal.
  exact (reconstruct_rows translations Hclean filePath rawLines [] 0 eq_refl).
Qed.

Lemma TXTParser_Parse_Reconstruct_tsv_witness :
  parser.detectTSV scenario.tsv_rows = true /\
  parser.TXTParser_Reconstruct (parser.TXTParser_Parse (str "data.txt") scenario.tsv_rows)
    (<[str "获得经验" := str "Nhận kinh nghiệm"]> ∅)
  = parser.join_lines
      (map (tsv_rewritten (<[str "获得经验" := str "Nhận kinh nghiệm"]> ∅))
           scenario.tsv_rows).
Proof.
  assert (parser.detectTSV scenario.tsv_rows = true) as Htsv by (vm_compute; reflexivity).
  split; [exact Htsv|].
  apply (TXTParser_Parse_Reconstruct_tsv (str "data.txt") scenario.tsv_rows _ Htsv).
  intros source translated Hl. apply lookup_insert_Some in Hl as [[_ <-]|[_ Hl]].
  - vm_compute. intuition discriminate.
  - rewrite lookup_empty in Hl. discriminate.
Defined.

(* ================================================================== *)
(** * Text without a Han character is left alone                       *)
(* ================================================================== *)

Section ASCII.
Import GoLib parser.
Implicit Types (s line col : gostring).

Lemma decode_ascii s :
  ascii_only s -> decode s = map (fun c => (byte_val c, [c])) s.
Proof.
  induction s as [|c s IH]; intros Hs; [done|].
  assert ((byte_val c <? 128) = true) as Hc by (apply Z.ltb_lt, Hs; by left).
  cbn [decode DecodeRune map]. unfold classify. rewrite Hc.
  rewrite IH; [done|]. intros x Hx. apply Hs. by right.
Qed.

Lemma ContainsChinese_ascii s : ascii_only s -> textutil.ContainsChinese s = false.
Proof.
  intros Hs. unfold textutil.ContainsChinese, runes. rewrite decode_ascii by done.
  rewrite map_map. cbn [fst]. apply not_true_is_false. intros H.
  apply existsb_exists in H as (r & Hin & Hr). apply Han_not_ASCII in Hr.
  apply in_map_iff in Hin as (c & <- & Hc). apply Hs in Hc. lia.
Qed.

Lemma drop_spaces_In (rs : list (Z * gostring)) x : In x (drop_spaces rs) -> In x rs.
Proof.
  induction rs as [|[r bs] rs IH]; [done|]. cbn [drop_spaces].
  destruct (IsSpace r); [|done]. intros H. right. by apply IH.
Qed.

Lemma TrimSpace_ascii s : ascii_only s -> ascii_only (TrimSpace s).
Proof.
  intros Hs c Hc. unfold TrimSpace in Hc.
  apply in_concat in Hc as (chunk & Hchunk & Hc).
  apply in_map_iff in Hchunk as (x & <- & Hx).
  apply in_rev, drop_spaces_In, in_rev, drop_spaces_In in Hx.
  rewrite decode_ascii in Hx by done.
  apply in_map_iff in Hx as (c' & <- & Hc'). destruct Hc as [<-|[]]. by apply Hs.
Qed.

Lemma skipn_ascii s (n : nat) : ascii_only s -> ascii_only (skipn n s).
Proof.
  intros Hs c Hc. apply Hs. rewrite <- (firstn_skipn n s). apply in_or_app. by right.
Qed.

Lemma SplitByte_In s sep col c : In col (SplitByte s sep) -> In c col -> In c s.
Proof.
  revert col. induction s as [|x s IH]; intros col.
  - cbn. by intros [<-|[]].
  - cbn [SplitByte]. destruct (bool_decide (x = sep)).
    + intros [<-|Hin] Hc; [done|]. right. by apply (IH col).
    + destruct (SplitByte s sep) as [|f fs] eqn:Hsplit.
      * intros [<-|[]] [<-|[]]. by left.
      * intros [<-|Hin] Hc.
        -- destruct Hc as [<-|Hc]; [by left|]. right. apply (IH f); [by left|done].
        -- right. apply (IH col); [by right|done].
Qed.

Lemma plain_line_ascii filePath lineNum line :
  ascii_only line -> plain_line filePath lineNum line = [].
Proof.
  intros Hl. unfold plain_line.
  rewrite (ContainsChinese_ascii (TrimSpace line)) by by apply TrimSpace_ascii.
  by rewrite orb_true_r.
Qed.

Lemma tsv_line_ascii filePath lineNum line :
  ascii_only line -> tsv_line filePath lineNum line = [].
Proof.
  intros Hl. unfold tsv_line. destruct (str_eqb (TrimSpace line) []); [done|].
  assert (forall i cols0 cols,
            (forall col, In col cols -> ascii_only col) ->
            flat_map (fun '(colIdx, col) => tsv_column filePath lineNum cols0 colIdx col)
                     (enumerate i cols) = []) as Hcols.
  { intros i cols0 cols. revert i. induction cols as [|col cols IH]; intros i Hc; [done|].
    cbn [enumerate flat_map]. rewrite IH by (intros ? ?; apply Hc; by right).
    unfold tsv_column, isTranslatableColumn.
    rewrite (ContainsChinese_ascii col) by (apply Hc; by left).
    by rewrite orb_true_r. }
  apply Hcols. intros col Hcol c Hc. apply Hl. by apply (SplitByte_In _ tab col).
Qed.

Lemma ini_line_ascii filePath sec lineNum line :
  ascii_only line -> snd (ini_line filePath sec lineNum line) = [].
Proof.
  intros Hl. unfold ini_line.
  destruct (str_eqb (TrimSpace line) [] || _ || _); [done|].
  destruct (HasPrefix (TrimSpace line) (str "[") && _); [done|].
  destruct (GoLib.Index (TrimSpace line) (str "=")) as [eqIdx|]; [|done].
  rewrite (ContainsChinese_ascii (TrimSpace (slice_from _ _))).
  - by rewrite orb_true_r.
  - apply TrimSpace_ascii. unfold slice_from. by apply skipn_ascii, TrimSpace_ascii.
Qed.

Lemma lines_without_texts {A} (f : Z * gostring -> list A) (lines : list gostring) :
  forall i, (forall k line, In line lines -> f (k, line) = []) ->
            flat_map f (enumerate i lines) = [].
Proof.
  induction lines as [|line lines IH]; intros i Hf; [done|].
  cbn [enumerate flat_map]. rewrite Hf by by left. cbn. apply IH.
  intros k l Hin. apply Hf. by right.
Qed.

Lemma ini_lines_ascii filePath (lines : list gostring) : forall sec n,
  (forall line, In line lines -> ascii_only line) -> ini_lines filePath sec n lines = [].
Proof.
  induction lines as [|line lines IH]; intros sec n Hl; [done|].
  cbn [ini_lines]. pose proof (ini_line_ascii filePath sec (n + 1) line) as Ht.
  destruct (ini_line filePath sec (n + 1) line) as [sec' texts]. cbn [snd] in Ht.
  rewrite Ht by (apply Hl; by left). cbn. apply IH. intros ? ?. apply Hl. by right.
Qed.

End ASCII.

(** X26. A text of ASCII bytes only has no Han character, and nothing is
    ever extracted from it: for a file whose lines are all ASCII the TXT
    parser, whichever of its two formats it detects, and the INI parser
    return no text at all, so the file is reconstructed with its lines
    untouched whatever the translations are. *)
Theorem ascii_files_have_no_texts (filePath : gostring) (rawLines : list gostring)
  (translations : gmap gostring gostring) :
  (forall line, In line rawLines -> ascii_only line) ->
  (forall line, In line rawLines -> textutil.ContainsChinese line = false) /\
  parser.Texts (parser.TXTParser_Parse filePath rawLines) = [] /\
  parser.Texts (parser.INIParser_Parse filePath rawLines) = [] /\
  parser.TXTParser_Reconstruct (parser.TXTParser_Parse filePath rawLines) translations
  = parser.join_lines rawLines /\
  parser.INIParser_Reconstruct (parser.INIParser_Parse filePath rawLines) translations
  = parser.join_lines rawLines.
Proof.
  intros Hl.
  assert (parser.Texts (parser.TXTParser_Parse filePath rawLines) = []) as Htxt.
  { unfold parser.TXTParser_Parse. destruct (parser.detectTSV rawLines);
      cbn [parser.parseTSV parser.parsePlainText parser.Texts parser.RawLines app];
      apply lines_without_texts; intros k line Hin.
    - by apply tsv_line_ascii, Hl.
    - by apply plain_line_ascii, Hl. }
  assert (parser.Texts (parser.INIParser_Parse filePath rawLines) = []) as Hini.
  { cbn. by apply ini_lines_ascii. }
  split_and!; try done.
  - intros line Hin. by apply ContainsChinese_ascii, Hl.
  - unfold parser.TXTParser_Reconstruct, parser.reconstructTSV, parser.reconstructPlainText.
    rewrite Htxt.
    assert (parser.RawLines (parser.TXTParser_Parse filePath rawLines) = rawLines) as ->
      by (unfold parser.TXTParser_Parse; by destruct (parser.detectTSV rawLines)).
    by destruct (GoLib.str_eqb _ _).
  - unfold parser.INIParser_Reconstruct. by rewrite Hini.
Qed.

Lemma ascii_files_have_no_texts_witness :
  (forall line, In line [str "[menu]"; str "title = Settings"] -> ascii_only line) /\
  parser.Texts (parser.INIParser_Parse (str "ui.ini") [str "[menu]"; str "title = Settings"])
  = [].
Proof.
  assert (forall line, In line [str "[menu]"; str "title = Settings"] -> ascii_only line)
    as Hl.
  { intros line [<-|[<-|[]]] c Hc; cbn in Hc;
      repeat (destruct Hc as [<-|Hc]; [vm_compute; reflexivity|]); destruct Hc. }
  split; [exact Hl|].
  exact (proj1 (proj2 (proj2 (ascii_files_have_no_texts (str "ui.ini") _ ∅ Hl)))).
Defined.

(* ================================================================== *)
(** * The shape of a hash                                              *)
(* ================================================================== *)

Section HashShape.
Import GoLib GoLib.SHA256.

Lemma round_length (s : list Z) (kw : Z * Z) : length s = 8%nat -> length (round s kw) = 8%nat.
Proof.
  intros Hs. do 9 (destruct s as [|? s]; try discriminate). reflexivity.
Qed.

Lemma rounds_length (kws : list (Z * Z)) : forall s,
  length s = 8%nat -> length (fold_left round kws s) = 8%nat.
Proof.
  induction kws as [|kw kws IH]; intros s Hs; [done|].
  cbn [fold_left]. by apply IH, round_length.
Qed.

Lemma compress_length (h block : list Z) :
  length h = 8%nat -> length (compress h block) = 8%nat.
Proof.
  intros Hh. unfold compress. rewrite length_map, length_combine.
  rewrite rounds_length by done. lia.
Qed.

Lemma digest_words (bs : list (list Z)) : forall h,
  length h = 8%nat -> length (fold_left compress bs h) = 8%nat.
Proof.
  induction bs as [|b bs IH]; intros h Hh; [done|].
  cbn [fold_left]. by apply IH, compress_length.
Qed.

Lemma be_bytes_bytes (n : nat) (x b : Z) : In b (be_bytes n x) -> 0 <= b < 256.
Proof.
  induction n as [|n IH]; [done|]. cbn [be_bytes].
  intros [<-|Hin]; [|by apply IH]. apply Z.mod_pos_bound. lia.
Qed.

Lemma be_bytes_length (n : nat) (x : Z) : length (be_bytes n x) = n.
Proof. induction n as [|n IH]; [done|]. cbn [be_bytes length]. by rewrite IH. Qed.

Lemma flat_map_length_const {A B} (f : A -> list B) (k : nat) (l : list A) :
  (forall x, length (f x) = k) -> length (flat_map f l) = (k * length l)%nat.
Proof.
  intros Hf. induction l as [|x l IH]; cbn [flat_map length]; [lia|].
  rewrite length_app, Hf, IH. lia.
Qed.

Lemma Sum256_length (msg : list Z) : length (Sum256 msg) = 32%nat.
Proof.
  unfold Sum256. rewrite (flat_map_length_const _ 4) by apply be_bytes_length.
  rewrite digest_words; [done|]. vm_compute. reflexivity.
Qed.

Lemma Sum256_bytes (msg : list Z) b : In b (Sum256 msg) -> 0 <= b < 256.
Proof.
  unfold Sum256. intros Hin. apply in_flat_map in Hin as (w & _ & Hb).
  by apply be_bytes_bytes in Hb.
Qed.

Lemma hex_digit_lower (n : Z) :
  0 <= n < 16 -> In (hex_digit n) (str "0123456789abcdef").
Proof.
  intros Hn. rewrite <- (Z2Nat.id n) by lia.
  assert (Z.to_nat n < 16)%nat as Hk by lia. revert Hk.
  generalize (Z.to_nat n) as k. intros k Hk.
  do 16 (destruct k as [|k]; [vm_compute; tauto|]). lia.
Qed.

End HashShape.

(** X27. A hash is always sixty-four characters long, each of them a digit or
    one of the lower-case letters a to f, whatever the text: so are the
    keys of both tiers of the cache and the hash of every seed. *)
Theorem Hash_shape (s : gostring) :
  length (textutil.Hash s) = 64%nat /\
  forall c, In c (textutil.Hash s) -> In c (str "0123456789abcdef").
Proof.
  unfold textutil.Hash, GoLib.hex_encode. split.
  - rewrite (flat_map_length_const _ 2) by done. by rewrite Sum256_length.
  - intros c Hin. apply in_flat_map in Hin as (b & Hb & Hc).
    apply Sum256_bytes in Hb.
    destruct Hc as [<-|[<-|[]]]; apply hex_digit_lower.
    + split; [apply Z.div_pos; lia|apply Z.div_lt_upper_bound; lia].
    + apply Z.mod_pos_bound. lia.
Qed.

(* ================================================================== *)
(** * The embedding client                                             *)
(* ================================================================== *)

Section Embedding.
Import GoLib rag.
Implicit Types (texts : list gostring) (results : list (option vector)).

Lemma place_length results entry : length (place results entry) = length results.
Proof.
  destruct entry as [i values]. unfold place.
  destruct (i <? Z.of_nat (length results)); [apply length_insert|done].
Qed.

(** The loop that copies a response into [results], from the index
    [Z.of_nat j] on. *)
Lemma place_all (embeddings : list (option vector)) : forall results (j : nat),
  length (fold_left place (parser.enumerate (Z.of_nat j) embeddings) results)
  = length results /\
  forall k : nat, (k < length results)%nat ->
    fold_left place (parser.enumerate (Z.of_nat j) embeddings) results !! k
    = if decide (j <= k)%nat
      then match embeddings !! (k - j)%nat with
           | Some values => Some values
           | None => results !! k
           end
      else results !! k.
Proof.
  induction embeddings as [|values embeddings IH]; intros results j.
  - cbn. split; [done|]. intros k Hk. by destruct (decide _).
  - cbn [parser.enumerate fold_left].
    replace (Z.of_nat j + 1) with (Z.of_nat (S j)) by lia.
    destruct (IH (place results (Z.of_nat j, values)) (S j)) as [Hlen Hget].
    rewrite place_length in Hlen, Hget. split; [done|].
    intros k Hk. rewrite (Hget k Hk). unfold place.
    destruct (decide (S j <= k)%nat) as [Hle|Hgt].
    + destruct (decide (j <= k)%nat); [|lia].
      replace (k - j)%nat with (S (k - S j)) by lia. cbn [lookup list_lookup].
      destruct (embeddings !! (k - S j)%nat); [done|].
      destruct (Z.ltb_spec (Z.of_nat j) (Z.of_nat (length results))); [|done].
      rewrite Nat2Z.id. apply list_lookup_insert_ne. lia.
    + destruct (decide (j <= k)%nat) as [Hjk|Hjk].
      * assert (k = j) as -> by lia. rewrite Nat.sub_diag. cbn.
        destruct (Z.ltb_spec (Z.of_nat j) (Z.of_nat (length results))); [|lia].
        rewrite Nat2Z.id. by apply list_lookup_insert_eq.
      * destruct (Z.ltb_spec (Z.of_nat j) (Z.of_nat (length results))); [|done].
        rewrite Nat2Z.id. apply list_lookup_insert_ne. lia.
Qed.

Lemma place_from_start (embeddings : list (option vector)) results :
  length (fold_left place (parser.enumerate 0 embeddings) results) = length results /\
  forall k : nat, (k < length results)%nat ->
    fold_left place (parser.enumerate 0 embeddings) results !! k
    = match embeddings !! k with
      | Some values => Some values
      | None => results !! k
      end.
Proof.
  destruct (place_all embeddings results 0) as [Hlen Hget].
  change (Z.of_nat 0) with 0 in Hlen, Hget. split; [done|].
  intros k Hk. rewrite (Hget k Hk). destruct (decide (0 <= k)%nat); [|lia].
  by rewrite Nat.sub_0_r.
Qed.

Lemma Embed_length x texts results :
  Embed x texts = inl results -> length results = length texts.
Proof.
  destruct texts as [|t texts]; [by intros [= <-]|]. unfold Embed.
  destruct x as [| | |code [embeddings|]]; try discriminate;
    destruct (negb (code =? 200)); try discriminate.
  intros [= <-]. etransitivity; [apply (proj1 (place_from_start _ _))|].
  exact (length_replicate (length (t :: texts)) None).
Qed.

Lemma EmbedBatch_from_step reply texts batchSize i all :
  0 < batchSize -> i < Z.of_nat (length texts) ->
  EmbedBatch_from reply texts batchSize i all
  = match Embed (reply i)
            (slice texts i (Z.min (Z.of_nat (length texts)) (i + batchSize))) with
    | inr err =>
        inr (ErrEmbedBatch i (Z.min (Z.of_nat (length texts)) (i + batchSize)) err)
    | inl embeddings =>
        EmbedBatch_from reply texts batchSize (i + batchSize) (all ++ embeddings)
    end.
Proof.
  intros Hb Hi. etransitivity; [apply EmbedBatch_from_equation_1|].
  destruct (decide (0 < batchSize /\ i < Z.of_nat (length texts))) as [Hy|Hn]; [|lia].
  cbn.
  replace (if Z.of_nat (length texts) <? i + batchSize
           then Z.of_nat (length texts) else i + batchSize)
    with (Z.min (Z.of_nat (length texts)) (i + batchSize))
    by (destruct (Z.ltb_spec (Z.of_nat (length texts)) (i + batchSize)); lia).
  reflexivity.
Qed.

Lemma EmbedBatch_from_done reply texts batchSize i all :
  Z.of_nat (length texts) <= i -> EmbedBatch_from reply texts batchSize i all = inl all.
Proof.
  intros Hi. etransitivity; [apply EmbedBatch_from_equation_1|].
  destruct (decide (0 < batchSize /\ i < Z.of_nat (length texts))) as [Hy|Hn]; [lia|].
  reflexivity.
Qed.

(** The loop embeds the chunks [Batch] would hand out. *)
Lemma EmbedBatch_from_chunks reply texts batchSize :
  0 < batchSize ->
  forall (n : nat) i all, 0 <= i -> Z.of_nat (length texts) - i <= Z.of_nat n ->
    EmbedBatch_from reply texts batchSize i all
    = match embed_chunks reply batchSize i (worker.Batch_from texts batchSize i) with
      | inl rest => inl (all ++ rest)
      | inr err => inr err
      end.
Proof.
  intros Hb. induction n as [|n IH]; intros i all Hi Hn.
  - rewrite EmbedBatch_from_done, Batch_from_done by lia. cbn. by rewrite app_nil_r.
  - destruct (Z_lt_dec i (Z.of_nat (length texts))) as [Hlt|Hge].
    + rewrite EmbedBatch_from_step, Batch_from_step by lia. cbn [embed_chunks].
      rewrite slice_length by lia.
      replace (i + (Z.min (Z.of_nat (length texts)) (i + batchSize) - i))
        with (Z.min (Z.of_nat (length texts)) (i + batchSize)) by lia.
      destruct (Embed (reply i) _) as [embeddings|err]; [|done].
      rewrite IH by lia.
      destruct (embed_chunks reply batchSize (i + batchSize) _) as [rest|err]; [|done].
      by rewrite app_assoc.
    + rewrite EmbedBatch_from_done, Batch_from_done by lia. cbn. by rewrite app_nil_r.
Qed.

Lemma embed_chunks_length reply batchSize (chunks : list (list gostring)) :
  forall i rest, embed_chunks reply batchSize i chunks = inl rest ->
                 length rest = length (concat chunks).
Proof.
  induction chunks as [|chunk chunks IH]; intros i rest; cbn [embed_chunks concat].
  - by intros [= <-].
  - destruct (Embed (reply i) chunk) as [embeddings|err] eqn:He; [|done].
    destruct (embed_chunks reply batchSize (i + batchSize) chunks) as [r|err] eqn:Hr;
      [|done].
    intros [= <-]. rewrite !length_app. by rewrite (Embed_length _ _ _ He), (IH _ _ Hr).
Qed.

End Embedding.

(** X28. When [Embed] succeeds it returns exactly one slot for each text: the
    values of the embedding at the same position of the response, and nil
    where the response has none; embeddings beyond the number of texts are
    dropped, and a response with too few is no error. For texts that are not
    empty it succeeds only on a response of status 200 whose body decodes.
    [EmbedQuery] succeeds exactly when the first embedding of such a
    response has values, and returns them. *)
Theorem Embed_slots (x : rag.embed_exchange) (texts : list gostring) :
  (forall results, rag.Embed x texts = inl results ->
     length results = length texts /\
     (texts <> [] ->
      exists embeddings, x = rag.EmbedResponse 200 (Some embeddings) /\
        forall k : nat, (k < length texts)%nat ->
          results !! k = Some (default None (embeddings !! k)))) /\
  (forall text values,
     rag.EmbedQuery x text = inl values
     <-> exists embeddings, x = rag.EmbedResponse 200 (Some (Some values :: embeddings))).
Proof.
  split.
  - intros results He. split; [by apply Embed_length in He|].
    intros Hne. destruct texts as [|t texts]; [done|]. unfold rag.Embed in He.
    destruct x as [| | |code [embeddings|]]; try discriminate;
      destruct (Z.eqb_spec code 200) as [->|]; try discriminate.
    cbn [negb] in He. injection He as <-. exists embeddings. split; [done|].
    intros k Hk.
    destruct (place_from_start embeddings (replicate (length (t :: texts)) None))
      as [_ Hget].
    rewrite Hget by (by rewrite length_replicate).
    destruct (embeddings !! k); [done|].
    exact (lookup_replicate_2 (length (t :: texts)) None k Hk).
  - intros text values. unfold rag.EmbedQuery, rag.Embed. split.
    + destruct x as [| | |code [embeddings|]]; try discriminate;
        destruct (Z.eqb_spec code 200) as [->|]; try discriminate.
      cbn [negb length]. 
      destruct (place_from_start embeddings (replicate 1 None)) as [Hlen Hget].
      specialize (Hget 0%nat). rewrite length_replicate in Hget.
      specialize (Hget ltac:(lia)).
      destruct (fold_left rag.place _ _) as [|[v|] rest]; try discriminate.
      intros [= ->]. destruct embeddings as [|e embeddings]; cbn in Hget; [done|].
      injection Hget as <-. eauto.
    + intros (embeddings & ->). cbn [Z.eqb negb Pos.eqb length].
      destruct (place_from_start (Some values :: embeddings) (replicate 1 None))
        as [Hlen Hget].
      specialize (Hget 0%nat). rewrite length_replicate in Hget.
      specialize (Hget ltac:(lia)). cbn [lookup list_lookup] in Hget.
      destruct (fold_left rag.place _ _) as [|[v|] rest]; cbn in Hget; try discriminate.
      by injection Hget as ->.
Qed.

(** X29. [EmbedBatch] works with a batch size between 1 and 100: a size that
    is not positive, or is larger than 100, is taken as 100. It embeds the
    chunks that [Batch] cuts the texts into for that size, one request for
    each chunk and in order, and stops at the first request that fails, with
    an error that names the bounds of its chunk. When it succeeds it returns
    one slot for each text. *)
Theorem EmbedBatch_chunks (reply : Z -> rag.embed_exchange) (texts : list gostring)
  (batchSize : Z) :
  let size := if (batchSize <=? 0) || (100 <? batchSize) then 100 else batchSize in
  1 <= size <= 100 /\
  rag.EmbedBatch reply texts batchSize
  = embed_chunks reply size 0 (worker.Batch texts size) /\
  (forall results, rag.EmbedBatch reply texts batchSize = inl results ->
                   length results = length texts).
Proof.
  intros size.
  assert (1 <= size <= 100) as Hsize.
  { subst size. destruct (Z.leb_spec batchSize 0); cbn [orb]; [lia|].
    destruct (Z.ltb_spec 100 batchSize); lia. }
  assert (rag.EmbedBatch reply texts batchSize
          = embed_chunks reply size 0 (worker.Batch texts size)) as Heq.
  { unfold rag.EmbedBatch, worker.Batch.
    replace (if 100 <? (if batchSize <=? 0 then 100 else batchSize)
             then 100 else if batchSize <=? 0 then 100 else batchSize) with size.
    2:{ subst size. destruct (Z.leb_spec batchSize 0); cbn [orb]; [done|].
        by destruct (Z.ltb_spec 100 batchSize). }
    destruct (Z.leb_spec size 0); [lia|].
    rewrite (EmbedBatch_from_chunks reply texts size ltac:(lia) (length texts) 0 [])
      by lia.
    by destruct (embed_chunks _ _ _ _). }
  split_and!; [lia|lia|done|].
  intros results Hr. rewrite Heq in Hr. apply embed_chunks_length in Hr.
  rewrite Hr. unfold worker.Batch. destruct (Z.leb_spec size 0); [lia|].
  destruct (Batch_from_spec texts size ltac:(lia) (length texts) 0) as [Hcat _];
    [lia|lia|].
  cbn zeta in Hcat. rewrite Hcat. reflexivity.
Qed.
